(** * Klondike rules engine: data model, moves, undo history and deal

    A shallow embedding of [src/utils/gameEngine.ts] (the free functions
    [createDeck], [shuffleDeck], [dealCards], [createInitialGameState] and
    the class [GameEngine]) together with the types of [src/types/game.ts]
    it works on.

    JavaScript cards are objects: the same card object can sit in a pile of
    the live game state and in a snapshot of the undo history, and a write
    to [faceUp] is seen through every pile that holds it.  Piles are
    therefore lists of references and the cards live in a store.

    The callers of the engine's types are embedded next to it: the move
    generation and placement tests of the hint engine
    ([src/utils/tensorflowEngine.ts]) and the move and undo actions of the
    store ([useGameStore]). *)

From Stdlib Require Import List ZArith String Bool Arith Lia Permutation.
From Stdlib Require QArith.
Import ListNotations.

Local Open Scope string_scope.
Local Open Scope list_scope.
Local Open Scope Z_scope.

(** ** Cards ([types/game.ts], [Card]) *)

Inductive Suit := Spades | Hearts | Diamonds | Clubs.

Inductive Rank :=
  | RA | R2 | R3 | R4 | R5 | R6 | R7 | R8 | R9 | R10 | RJ | RQ | RK.

Inductive Location := LStock | LWaste | LFoundation | LTableau.

Record Card := mkCard {
  id : string;
  suit : Suit;
  rank : Rank;
  value : Z;
  faceUp : bool;
  location : Location;
  position : Z
}.

Definition Suit_eqb (a b : Suit) : bool :=
  match a, b with
  | Spades, Spades | Hearts, Hearts | Diamonds, Diamonds | Clubs, Clubs => true
  | _, _ => false
  end.

Definition Rank_eqb (a b : Rank) : bool :=
  match a, b with
  | RA, RA | R2, R2 | R3, R3 | R4, R4 | R5, R5 | R6, R6 | R7, R7
  | R8, R8 | R9, R9 | R10, R10 | RJ, RJ | RQ, RQ | RK, RK => true
  | _, _ => false
  end.

(** The template-literal pieces of a card id. *)
Definition suitStr (s : Suit) : string :=
  match s with
  | Spades => "♠" | Hearts => "♥" | Diamonds => "♦" | Clubs => "♣"
  end.

Definition rankStr (r : Rank) : string :=
  match r with
  | RA => "A" | R2 => "2" | R3 => "3" | R4 => "4" | R5 => "5" | R6 => "6"
  | R7 => "7" | R8 => "8" | R9 => "9" | R10 => "10" | RJ => "J" | RQ => "Q"
  | RK => "K"
  end.

(** [rank === 'A' ? 1 : rank === 'J' ? 11 : ... : parseInt(rank)] *)
Definition rankValue (r : Rank) : Z :=
  match r with
  | RA => 1 | R2 => 2 | R3 => 3 | R4 => 4 | R5 => 5 | R6 => 6 | R7 => 7
  | R8 => 8 | R9 => 9 | R10 => 10 | RJ => 11 | RQ => 12 | RK => 13
  end.

Definition SUITS : list Suit := [Spades; Hearts; Diamonds; Clubs].
Definition RANKS : list Rank :=
  [RA; R2; R3; R4; R5; R6; R7; R8; R9; R10; RJ; RQ; RK].

(** ** The card store *)

Definition ref := nat.
Definition Heap := ref -> Card.

Definition upd (h : Heap) (r : ref) (c : Card) : Heap :=
  fun r' => if Nat.eqb r' r then c else h r'.

Definition setFaceUp (b : bool) (c : Card) : Card :=
  mkCard (id c) (suit c) (rank c) (value c) b (location c) (position c).


(** ** Game state ([types/game.ts], [GameState], [Move]) *)

Record GameStats := mkStats {
  stats_time : Z;
  stats_moves : Z;
  stats_score : Z
}.

(** [foundations : Record<string, Card[]>], always built with the four suit
    keys in the order ♠ ♥ ♦ ♣, which is the order [Object.values] walks. *)
Record Foundations := mkFoundations {
  spades : list ref;
  hearts : list ref;
  diamonds : list ref;
  clubs : list ref
}.

Definition foundationOf (f : Foundations) (s : Suit) : list ref :=
  match s with
  | Spades => spades f | Hearts => hearts f
  | Diamonds => diamonds f | Clubs => clubs f
  end.

Definition setFoundation (f : Foundations) (s : Suit) (p : list ref)
  : Foundations :=
  match s with
  | Spades => mkFoundations p (hearts f) (diamonds f) (clubs f)
  | Hearts => mkFoundations (spades f) p (diamonds f) (clubs f)
  | Diamonds => mkFoundations (spades f) (hearts f) p (clubs f)
  | Clubs => mkFoundations (spades f) (hearts f) (diamonds f) p
  end.

(** [Object.values(gameState.foundations)] *)
Definition foundationValues (f : Foundations) : list (list ref) :=
  [spades f; hearts f; diamonds f; clubs f].

Definition emptyFoundations : Foundations := mkFoundations [] [] [] [].

(** One entry of [gameHistory]. *)
Record Snapshot := mkSnapshot {
  snap_stock : list ref;
  snap_waste : list ref;
  snap_foundations : Foundations;
  snap_tableau : list (list ref);
  snap_gameStats : GameStats
}.

Inductive Difficulty := Easy | Medium | Hard.
Inductive ScoringMode := Standard | Vegas | Custom.
Inductive Theme := Light | Dark | Blue | Green.

(** [GameSettings]: the gameplay options.  The record of the source goes on
    with [volume] and some ninety rendering switches, all [false] in both
    deals; the engine reads none of the settings. *)
Record GameSettings := mkSettings {
  difficulty : Difficulty;
  autoMoveToFoundation : bool;
  showMoveHints : bool;
  enableMLAnalysis : bool;
  adaptiveDifficulty : bool;
  settings_drawMode : Z;
  scoringMode : ScoringMode;
  theme : Theme;
  soundEnabled : bool;
  musicEnabled : bool;
  showWinProbability : bool
}.

(** The counters [moves] and [score] are numbers, that is doubles, in the
    source and integers here: [moves++] and [score += n] are integer
    additions, which is what the code computes as long as the values stay
    within 2^53 ([countersExact] below). *)
Record GameState := mkState {
  stock : list ref;
  waste : list ref;
  foundations : Foundations;
  tableau : list (list ref);
  selectedCard : option ref;
  moves : Z;
  score : Z;
  time : Z;
  isWon : bool;
  canUndo : bool;
  gameStats : GameStats;
  gameHistory : list Snapshot;
  drawMode : Z;
  settings : GameSettings
}.

Inductive MoveType :=
  | MStock | MWaste | MFoundation | MTableau | MWasteToTableau.

(** The fields of [Move] the engine reads or writes; [undefined] is [None]. *)
Record Move := mkMove {
  type : MoveType;
  cardId : string;
  sourceType : option Location;
  sourceIndex : option Z;
  targetIndex : option Z
}.

(** The game state is one object mutated in place, the cards are objects
    shared between piles and snapshots: a world is the card store and the
    state object. *)
Definition World := (Heap * GameState)%type.

Record MoveResult := mkResult {
  success : bool;
  newState : GameState;
  error : option string
}.

(** How a call ends: it returns, or a [TypeError] is thrown (reading a
    property of [undefined]). *)
Inductive Completion (A : Type) :=
  | Normal (a : A)
  | TypeError.
Arguments Normal {A} a.
Arguments TypeError {A}.

(** *** Field assignments on the state object *)

Definition set_stock (v : list ref) (g : GameState) : GameState :=
  mkState v (waste g) (foundations g) (tableau g) (selectedCard g) (moves g)
    (score g) (time g) (isWon g) (canUndo g) (gameStats g) (gameHistory g)
    (drawMode g) (settings g).

Definition set_waste (v : list ref) (g : GameState) : GameState :=
  mkState (stock g) v (foundations g) (tableau g) (selectedCard g) (moves g)
    (score g) (time g) (isWon g) (canUndo g) (gameStats g) (gameHistory g)
    (drawMode g) (settings g).

Definition set_foundations (v : Foundations) (g : GameState) : GameState :=
  mkState (stock g) (waste g) v (tableau g) (selectedCard g) (moves g)
    (score g) (time g) (isWon g) (canUndo g) (gameStats g) (gameHistory g)
    (drawMode g) (settings g).

Definition set_tableau (v : list (list ref)) (g : GameState) : GameState :=
  mkState (stock g) (waste g) (foundations g) v (selectedCard g) (moves g)
    (score g) (time g) (isWon g) (canUndo g) (gameStats g) (gameHistory g)
    (drawMode g) (settings g).

Definition set_moves (v : Z) (g : GameState) : GameState :=
  mkState (stock g) (waste g) (foundations g) (tableau g) (selectedCard g) v
    (score g) (time g) (isWon g) (canUndo g) (gameStats g) (gameHistory g)
    (drawMode g) (settings g).

Definition set_score (v : Z) (g : GameState) : GameState :=
  mkState (stock g) (waste g) (foundations g) (tableau g) (selectedCard g)
    (moves g) v (time g) (isWon g) (canUndo g) (gameStats g) (gameHistory g)
    (drawMode g) (settings g).

Definition set_canUndo (v : bool) (g : GameState) : GameState :=
  mkState (stock g) (waste g) (foundations g) (tableau g) (selectedCard g)
    (moves g) (score g) (time g) (isWon g) v (gameStats g) (gameHistory g)
    (drawMode g) (settings g).

Definition set_gameHistory (v : list Snapshot) (g : GameState) : GameState :=
  mkState (stock g) (waste g) (foundations g) (tableau g) (selectedCard g)
    (moves g) (score g) (time g) (isWon g) (canUndo g) (gameStats g) v
    (drawMode g) (settings g).

(** ** Array operations *)

Section Arrays.
Context {A : Type}.

(** [a[a.length - 1]], [undefined] on the empty array. *)
Fixpoint lastOpt (l : list A) : option A :=
  match l with
  | [] => None
  | x :: t => match t with [] => Some x | _ => lastOpt t end
  end.

(** [a.findIndex(p)], [-1] is [None]. *)
Fixpoint findIndex (p : A -> bool) (l : list A) : option nat :=
  match l with
  | [] => None
  | x :: t => if p x then Some O else option_map S (findIndex p t)
  end.

(** [a.splice(i, 1)] *)
Definition removeAt (i : nat) (l : list A) : list A :=
  firstn i l ++ skipn (S i) l.

(** [a[i] = f(a[i])] for an index in range. *)
Fixpoint updateAt (i : nat) (f : A -> A) (l : list A) {struct l}
  : list A :=
  match l, i with
  | [], _ => []
  | x :: t, O => f x :: t
  | x :: t, S i' => x :: updateAt i' f t
  end.

(** The (index, element) pairs [forEach((x, index) => ...)] visits. *)
Definition indexed (l : list A) : list (nat * A) :=
  combine (seq 0 (List.length l)) l.

(** [a[i]] for a number [i]; [undefined] out of range. *)
Definition at_ (l : list A) (i : Z) : option A :=
  if i <? 0 then None else nth_error l (Z.to_nat i).

(** [[a[i], a[j]] = [a[j], a[i]]] *)
Definition swap (i j : nat) (l : list A) : list A :=
  match nth_error l i, nth_error l j with
  | Some x, Some y =>
      updateAt j (fun _ => x) (updateAt i (fun _ => y) l)
  | _, _ => l
  end.
End Arrays.

(** ** Deck and deal (the free functions of [gameEngine.ts]) *)

(** Object allocation: a store and the next unused reference. *)
Record Store := mkStore {
  heap : Heap;
  next : ref
}.

(** What a never-written reference holds. *)
Definition noCard : Card := mkCard "" Spades RA 0 false LStock 0.

Definition emptyStore : Store := mkStore (fun _ => noCard) O.

Definition alloc (c : Card) (s : Store) : ref * Store :=
  (next s, mkStore (upd (heap s) (next s) c) (S (next s))).

(** Allocate the objects of an array literal, in order. *)
Fixpoint allocAll (cs : list Card) (s : Store) : list ref * Store :=
  match cs with
  | [] => ([], s)
  | c :: rest =>
      let (r, s1) := alloc c s in
      let (rs, s2) := allocAll rest s1 in
      (r :: rs, s2)
  end.

(** The two nested loops over suits and ranks; [position] is the number of
    cards pushed before. *)
Definition deckOf (mkId : Suit -> Rank -> string) : list Card :=
  map (fun '(n, (s, r)) =>
         mkCard (mkId s r) s r (rankValue r) false LStock (Z.of_nat n))
    (indexed (flat_map (fun s => map (pair s) RANKS) SUITS)).

(** [id: `${suit}-${rank}`] *)
Definition createDeck : list Card :=
  deckOf (fun s r => suitStr s ++ "-" ++ rankStr r)%string.

(** Fisher-Yates.  [rnd i] stands for the draw of turn [i]; reduced
    modulo [i + 1] it is [Math.floor(Math.random() * (i + 1))], a value
    in [0..i]. *)
Fixpoint shuffleLoop {A : Type} (rnd : nat -> nat) (i : nat)
  (shuffled : list A) : list A :=
  match i with
  | O => shuffled
  | S i' => shuffleLoop rnd i' (swap i (Nat.modulo (rnd i) (S i)) shuffled)
  end.

Definition shuffleDeck {A : Type} (rnd : nat -> nat) (deck : list A)
  : list A :=
  shuffleLoop rnd (List.length deck - 1) deck.

(** The (outer, inner) index pairs of
    [for (a = 0; a < 7; a++) for (b = a; b < 7; b++)], in order. *)
Definition dealCells : list (nat * nat) :=
  flat_map (fun a => map (pair a) (seq a (7 - a))) (seq 0 7).

(** [{ ...deck[k] }]: the spread of [undefined] has no fields. *)
Definition spreadAt (h : Heap) (deck : list ref) (k : nat) : Card :=
  match nth_error deck k with
  | Some r => h r
  | None => noCard
  end.

(** One turn of the inner loop of the tableau deal: the card is a copy. *)
Definition dealCardsTurn (deck : list ref)
  (acc : Store * list (list ref) * nat) (cell : nat * nat)
  : Store * list (list ref) * nat :=
  let '(s, tableau, cardIndex) := acc in
  let (col, row) := cell in
  let (card, s') :=
    alloc (setFaceUp (row =? col)%nat (spreadAt (heap s) deck cardIndex)) s in
  (s', updateAt row (fun pile => pile ++ [card]) tableau, S cardIndex).

(** One turn of the loop that copies the remaining cards to the stock. *)
Definition dealStockTurn (deck : list ref) (acc : Store * list ref) (i : nat)
  : Store * list ref :=
  let (s, stock) := acc in
  let (card, s') := alloc (setFaceUp false (spreadAt (heap s) deck i)) s in
  (s', stock ++ [card]).

Definition dealCards (deck : list ref) (s : Store)
  : (list (list ref) * list ref) * Store :=
  let '(s1, tableau, cardIndex) :=
    fold_left (dealCardsTurn deck) dealCells (s, repeat [] 7, O) in
  let '(s2, stock) :=
    fold_left (dealStockTurn deck)
      (seq cardIndex (List.length deck - cardIndex)) (s1, []) in
  ((tableau, stock), s2).

Definition defaultSettings : GameSettings :=
  mkSettings Medium false false false false 1 Standard Light true true false.

Definition createInitialGameState (rnd : nat -> nat) : World :=
  let (deck, s0) := allocAll createDeck emptyStore in
  let shuffledDeck := shuffleDeck rnd deck in
  let '((tableau, stock), s1) := dealCards shuffledDeck s0 in
  (heap s1,
   mkState stock [] emptyFoundations tableau None 0 0 0 false false
     (mkStats 0 0 0) [] 1 defaultSettings).

(** ** The rules engine (class [GameEngine]) *)

Definition failure (g : GameState) (msg : string) : MoveResult :=
  mkResult false g (Some msg).

Definition succeeded (g : GameState) : MoveResult :=
  mkResult true g None.

Definition isRed (s : Suit) : bool :=
  match s with Hearts | Diamonds => true | _ => false end.

Module GameEngine.

(** [id: `${rank}-${suit}`] *)
Definition createDeck : list Card :=
  deckOf (fun s r => rankStr r ++ "-" ++ suitStr s)%string.

(** One turn of the inner loop of [dealTableau], which writes to the deck's
    own card objects; a missing [deck[i * 7 + j]] makes the first
    assignment throw. *)
Definition dealTableauTurn (deck : list ref)
  (acc : Completion (Heap * list (list ref))) (cell : nat * nat)
  : Completion (Heap * list (list ref)) :=
  let (i, j) := cell in
  match acc with
  | TypeError => TypeError
  | Normal (h, tableau) =>
      match nth_error deck (i * 7 + j)%nat with
      | None => TypeError
      | Some card =>
          let c := h card in
          Normal
            (upd h card
               (mkCard (id c) (suit c) (rank c) (value c)
                  (i =? j)%nat LTableau (Z.of_nat j)),
             updateAt j (fun pile => pile ++ [card]) tableau)
      end
  end.

Definition dealTableau (h : Heap) (deck : list ref)
  : Completion (Heap * list (list ref)) :=
  fold_left (dealTableauTurn deck) dealCells (Normal (h, repeat [] 7)).

Definition initializeGame (rnd : nat -> nat) : Completion World :=
  let (deck, s0) := allocAll createDeck emptyStore in
  let shuffledDeck := shuffleDeck rnd deck in
  match dealTableau (heap s0) shuffledDeck with
  | TypeError => TypeError
  | Normal (h, tableau) =>
      let stock := skipn 28 shuffledDeck in
      Normal
        (h,
         mkState stock [] emptyFoundations tableau None 0 0 0 false false
           (mkStats 0 0 0) [] 1 defaultSettings)
  end.

(** [c => c.id === card.id] *)
Definition sameId (h : Heap) (card : ref) : ref -> bool :=
  fun c => String.eqb (id (h c)) (id (h card)).

(** [canMoveToTableau(card, pile)], for a [pile] that is an array. *)
Definition canMoveToTableau (h : Heap) (card : ref) (pile : list ref)
  : bool :=
  match lastOpt pile with
  | None => Rank_eqb (rank (h card)) RK
  | Some topCard =>
      if negb (faceUp (h topCard)) then false
      else
        let isRedCard := isRed (suit (h card)) in
        let isTopCardRed := isRed (suit (h topCard)) in
        (value (h card) =? value (h topCard) - 1)
        && negb (Bool.eqb isRedCard isTopCardRed)
  end.

(** The array [findCard] searches: stock, waste, the tableau columns
    flattened, the foundations flattened. *)
Definition allCards (g : GameState) : list ref :=
  stock g ++ waste g ++ List.concat (tableau g)
    ++ List.concat (foundationValues (foundations g)).

Definition findCard (h : Heap) (g : GameState) (cid : string)
  : option ref :=
  find (fun card => String.eqb (id (h card)) cid) (allCards g).

(** The loop [for (const pile of piles)] that splices the card out of the
    first pile holding its id; [None] when no pile holds it. *)
Fixpoint removeFromFirst (p : ref -> bool) (piles : list (list ref))
  : option (list (list ref)) :=
  match piles with
  | [] => None
  | pile :: rest =>
      match findIndex p pile with
      | Some cardIndex => Some (removeAt cardIndex pile :: rest)
      | None => option_map (cons pile) (removeFromFirst p rest)
      end
  end.

Definition foundationsOfValues (f : Foundations) (v : list (list ref))
  : Foundations :=
  match v with
  | [a; b; c; d] => mkFoundations a b c d
  | _ => f
  end.

Definition removeCardFromSource (h : Heap) (g : GameState) (card : ref)
  : GameState :=
  match findIndex (sameId h card) (stock g) with
  | Some stockIndex => set_stock (removeAt stockIndex (stock g)) g
  | None =>
  match findIndex (sameId h card) (waste g) with
  | Some wasteIndex => set_waste (removeAt wasteIndex (waste g)) g
  | None =>
  match removeFromFirst (sameId h card) (tableau g) with
  | Some t => set_tableau t g
  | None =>
  match removeFromFirst (sameId h card)
          (foundationValues (foundations g)) with
  | Some v => set_foundations (foundationsOfValues (foundations g) v) g
  | None => g
  end end end end.

(** [pile.slice(cardIndex)] of the first column holding the id. *)
Fixpoint sliceFromFirst (p : ref -> bool) (piles : list (list ref))
  : option (list ref) :=
  match piles with
  | [] => None
  | pile :: rest =>
      match findIndex p pile with
      | Some cardIndex => Some (skipn cardIndex pile)
      | None => sliceFromFirst p rest
      end
  end.

Definition getCardsToMove (h : Heap) (g : GameState) (card : ref)
  : list ref :=
  match sliceFromFirst (sameId h card) (tableau g) with
  | Some cards => cards
  | None => [card]
  end.

(** One turn of the loop of [revealHiddenCards], on the store and the
    running score. *)
Definition revealStep (acc : Heap * Z) (pile : list ref) : Heap * Z :=
  match lastOpt pile with
  | Some topCard =>
      if faceUp (fst acc topCard) then acc
      else (upd (fst acc) topCard (setFaceUp true (fst acc topCard)),
            snd acc + 5)
  | None => acc
  end.

Definition revealHiddenCards (w : World) : World :=
  let acc := fold_left revealStep (tableau (snd w)) (fst w, score (snd w)) in
  (fst acc, set_score (snd acc) (snd w)).

Definition moveToFoundation (w : World) (move : Move)
  : Completion MoveResult * World :=
  let (h, g) := w in
  match findCard h g (cardId move) with
  | None => (Normal (failure g "Card not found"), w)
  | Some card =>
      let foundation := foundationOf (foundations g) (suit (h card)) in
      let proceed :=
        let g1 := removeCardFromSource h g card in
        let g2 :=
          set_foundations
            (setFoundation (foundations g1) (suit (h card))
               (foundationOf (foundations g1) (suit (h card)) ++ [card]))
            g1 in
        let g3 := set_score (score g2 + 10) (set_moves (moves g2 + 1) g2) in
        let w4 := revealHiddenCards (h, g3) in
        (Normal (succeeded (snd w4)), w4) in
      match lastOpt foundation with
      | None =>
          if negb (Rank_eqb (rank (h card)) RA)
          then (Normal
                  (failure g "Only Ace can be placed on empty foundation"),
                w)
          else proceed
      | Some top =>
          if negb (value (h card) =? value (h top) + 1)
          then (Normal (failure g "Card must be next in sequence"), w)
          else proceed
      end
  end.

Definition moveToTableau (w : World) (move : Move)
  : Completion MoveResult * World :=
  let (h, g) := w in
  match findCard h g (cardId move), targetIndex move with
  | Some card, Some ti =>
      match at_ (tableau g) ti with
      | None => (TypeError, w)
      | Some targetPile =>
          if negb (canMoveToTableau h card targetPile)
          then (Normal (failure g "Invalid tableau move"), w)
          else
            let cardsToMove := getCardsToMove h g card in
            let g1 :=
              fold_left (fun g' c => removeCardFromSource h g' c)
                cardsToMove g in
            let g2 :=
              set_tableau
                (updateAt (Z.to_nat ti) (fun pile => pile ++ cardsToMove)
                   (tableau g1))
                g1 in
            let g3 :=
              set_score (score g2 + Z.of_nat (List.length cardsToMove))
                (set_moves (moves g2 + 1) g2) in
            let w4 := revealHiddenCards (h, g3) in
            (Normal (succeeded (snd w4)), w4)
      end
  | _, _ => (Normal (failure g "Invalid move parameters"), w)
  end.

Definition moveWasteToTableau (w : World) (move : Move)
  : Completion MoveResult * World :=
  let (h, g) := w in
  match lastOpt (waste g), targetIndex move with
  | Some card, Some ti =>
      match at_ (tableau g) ti with
      | None => (TypeError, w)
      | Some targetPile =>
          if negb (canMoveToTableau h card targetPile)
          then (Normal (failure g "Cannot move waste card to tableau"), w)
          else
            let g1 := set_waste (removelast (waste g)) g in
            let g2 :=
              set_tableau
                (updateAt (Z.to_nat ti) (fun pile => pile ++ [card])
                   (tableau g1))
                g1 in
            let g3 := set_score (score g2 + 5) (set_moves (moves g2 + 1) g2) in
            (Normal (succeeded g3), (h, g3))
      end
  | _, _ => (Normal (failure g "No waste card or invalid target"), w)
  end.

Definition executeMove (w : World) (move : Move)
  : Completion MoveResult * World :=
  match type move with
  | MFoundation => moveToFoundation w move
  | MTableau => moveToTableau w move
  | MWasteToTableau => moveWasteToTableau w move
  | _ => (Normal (failure (snd w) "Invalid move type"), w)
  end.

(** [.success] of a completed call. *)
Definition successOf (c : Completion MoveResult) : Completion bool :=
  match c with
  | Normal r => Normal (success r)
  | TypeError => TypeError
  end.

Definition isValidMove (w : World) (move : Move)
  : Completion bool * World :=
  match type move with
  | MFoundation =>
      let r := moveToFoundation w move in (successOf (fst r), snd r)
  | MTableau =>
      let r := moveToTableau w move in (successOf (fst r), snd r)
  | MWasteToTableau =>
      let r := moveWasteToTableau w move in (successOf (fst r), snd r)
  | _ => (Normal false, w)
  end.

(** The copy of the piles [makeMove] pushes on the history: new arrays,
    the same card objects. *)
Definition snapshot (g : GameState) : Snapshot :=
  mkSnapshot (stock g) (waste g) (foundations g) (tableau g) (gameStats g).

Definition makeMove (w : World) (move : Move)
  : Completion MoveResult * World :=
  let (h, g) := w in
  let g0 := set_gameHistory (gameHistory g ++ [snapshot g]) g in
  match executeMove (h, g0) move with
  | (Normal result, (h', g')) =>
      if success result
      then (Normal (mkResult (success result)
                      (set_canUndo true (newState result)) (error result)),
            (h', set_canUndo true g'))
      else (Normal result, (h', g'))
  | (TypeError, w') => (TypeError, w')
  end.

Definition checkWinCondition (g : GameState) : bool :=
  forallb (fun foundation => (List.length foundation =? 13)%nat)
    (foundationValues (foundations g)).

(** [Object.values(foundations).reduce((sum, pile) => sum + pile.length, 0)] *)
Definition foundationCards (g : GameState) : nat :=
  fold_left (fun sum pile => (sum + List.length pile)%nat)
    (foundationValues (foundations g)) O.

(** [foundationCards / 52], as the exact fraction. *)
Definition calculateWinProbability (g : GameState) : QArith_base.Q :=
  QArith_base.Qmake (Z.of_nat (foundationCards g)) 52.

(** The test of [getAllPossibleMoves] on a column top:
    [(foundation.length === 0 && topCard.rank === 'A') ||
     (foundation.length > 0 && topCard.value === top.value + 1)]. *)
Definition nextOnFoundation (h : Heap) (g : GameState) (topCard : ref)
  : bool :=
  match lastOpt (foundationOf (foundations g) (suit (h topCard))) with
  | None => Rank_eqb (rank (h topCard)) RA
  | Some top => value (h topCard) =? value (h top) + 1
  end.

Definition getAllPossibleMoves (w : World) : list Move :=
  let (h, g) := w in
  let foundationMoves :=
    flat_map
      (fun '(index, pile) =>
         match lastOpt pile with
         | Some topCard =>
             if faceUp (h topCard) && nextOnFoundation h g topCard
             then [mkMove MFoundation (id (h topCard)) (Some LTableau)
                     (Some (Z.of_nat index)) None]
             else []
         | None => []
         end)
      (indexed (tableau g)) in
  let tableauMoves :=
    flat_map
      (fun '(sourceIndex, sourcePile) =>
         match lastOpt sourcePile with
         | Some topCard =>
             if faceUp (h topCard)
             then
               flat_map
                 (fun '(targetIndex, targetPile) =>
                    if negb (sourceIndex =? targetIndex)%nat
                       && canMoveToTableau h topCard targetPile
                    then [mkMove MTableau (id (h topCard)) (Some LTableau)
                            (Some (Z.of_nat sourceIndex))
                            (Some (Z.of_nat targetIndex))]
                    else [])
                 (indexed (tableau g))
             else []
         | None => []
         end)
      (indexed (tableau g)) in
  let wasteMoves :=
    match lastOpt (waste g) with
    | Some wasteCard =>
        flat_map
          (fun '(index, pile) =>
             if canMoveToTableau h wasteCard pile
             then [mkMove MWasteToTableau (id (h wasteCard)) (Some LWaste)
                     None (Some (Z.of_nat index))]
             else [])
          (indexed (tableau g))
    | None => []
    end in
  foundationMoves ++ tableauMoves ++ wasteMoves.

Definition getPossibleMoves (w : World) : list Move :=
  getAllPossibleMoves w.

(** [undo] pops the caller's history and returns a new state object. *)
Definition undo (w : World) : MoveResult * World :=
  let (h, g) := w in
  match lastOpt (gameHistory g) with
  | None => (failure g "No moves to undo", w)
  | Some previousState =>
      let popped := removelast (gameHistory g) in
      let g1 := set_gameHistory popped g in
      let restored :=
        mkState (snap_stock previousState) (snap_waste previousState)
          (snap_foundations previousState) (snap_tableau previousState)
          None (moves g1) (score g1) (time g1) (isWon g1)
          (negb (List.length popped =? 0)%nat)
          (snap_gameStats previousState) popped (drawMode g1)
          (settings g1) in
      (succeeded restored, (h, g1))
  end.

End GameEngine.

(** ** Card ids of a world *)

(** The ids of all the cards in the piles, in the order [findCard] searches
    them. *)
Definition cardIds (w : World) : list string :=
  map (fun r => id (fst w r)) (GameEngine.allCards (snd w)).

(** Cards of the board that carry the same id are the same card object:
    ids are unique tokens. *)
Definition idsIdentifyCards (w : World) : Prop :=
  forall r1 r2 : ref,
    In r1 (GameEngine.allCards (snd w)) ->
    In r2 (GameEngine.allCards (snd w)) ->
    id (fst w r1) = id (fst w r2) -> r1 = r2.

(** No string occurs twice. *)
Fixpoint distinct (l : list string) : bool :=
  match l with
  | [] => true
  | x :: t => negb (existsb (String.eqb x) t) && distinct t
  end.

(** ** What a player sees of a world *)

(** The board as a value: every pile with its cards read through the store
    (contents, order and [faceUp] flags), the move counter and the score. *)
Record Board := mkBoard {
  board_stock : list Card;
  board_waste : list Card;
  board_foundations : list (list Card);
  board_tableau : list (list Card);
  board_moves : Z;
  board_score : Z
}.

Definition boardOf (w : World) : Board :=
  let (h, g) := w in
  mkBoard (map h (stock g)) (map h (waste g))
    (map (map h) (foundationValues (foundations g)))
    (map (map h) (tableau g)) (moves g) (score g).

(** ** A concrete game *)

(** The shuffle in which every turn draws [j = i]: the deck keeps its
    order. *)
Definition identityShuffle (i : nat) : nat := i.

Definition freshDeal : World := createInitialGameState identityShuffle.

(** The ace of hearts lies face-up on the third column of [freshDeal], on
    top of the face-down nine of spades. *)
Definition aceOfHearts : Move :=
  mkMove MFoundation "♥-A" (Some LTableau) (Some 2) None.

(** The eight of spades is the face-up top of the second column. *)
Definition eightOfSpades : Move :=
  mkMove MFoundation "♠-8" (Some LTableau) (Some 1) None.

(** The ace of clubs is in the stock of [freshDeal], face-down. *)
Definition aceOfClubs : Move :=
  mkMove MFoundation "♣-A" (Some LStock) None None.

(** The ace of diamonds is face-down in the last column, under the two of
    diamonds. *)
Definition aceOfDiamonds : Move :=
  mkMove MFoundation "♦-A" (Some LTableau) (Some 6) None.

(** What the board component sends on a click on the stock. *)
Definition stockClick : Move := mkMove MStock "stock" None None None.

(** A tableau move onto a column that does not exist. *)
Definition offBoard : Move :=
  mkMove MTableau "♠-A" (Some LTableau) (Some 0) (Some 7).

(** Split a conjunction into its parts, leaving every part as it is. *)
Ltac conjuncts :=
  repeat match goal with
         | |- _ /\ _ => split
         | |- let _ := _ in _ => intro
         end.

(** Decide a closed statement by evaluation. *)
Ltac by_evaluation := vm_compute; reflexivity.

Definition afterMove : Completion MoveResult * World :=
  GameEngine.makeMove freshDeal aceOfHearts.

(** [undo] called on the state object the move returned. *)
Definition afterUndo : MoveResult * World :=
  GameEngine.undo (snd afterMove).

(** The world a caller holds after [makeMove] then [undo]: the store and
    the state object [undo] returned. *)
Definition undone : World := (fst (snd afterUndo), newState (fst afterUndo)).

(** ** Column tops and reachable worlds *)

(** The top card of a column, if any, is face-up. *)
Definition topFaceUp (h : Heap) (pile : list ref) : Prop :=
  match lastOpt pile with
  | Some topCard => faceUp (h topCard) = true
  | None => True
  end.

(** The top card of every non-empty tableau column is face-up. *)
Definition topsFaceUp (w : World) : Prop :=
  Forall (topFaceUp (fst w)) (tableau (snd w)).

(** [topsFaceUp], decided. *)
Definition topsFaceUpb (w : World) : bool :=
  forallb (fun pile => match lastOpt pile with
                       | Some topCard => faceUp (fst w topCard)
                       | None => true
                       end) (tableau (snd w)).

(** The top cards of the non-empty columns. *)
Definition tops (piles : list (list ref)) : list ref :=
  flat_map (fun pile => match lastOpt pile with
                        | Some topCard => [topCard]
                        | None => []
                        end) piles.

(** The card objects that are the face-down top of some column, each once. *)
Definition hiddenTops (h : Heap) (piles : list (list ref)) : list ref :=
  nodup Nat.eq_dec (filter (fun r => negb (faceUp (h r))) (tops piles)).

(** The [faceUp] flags of a pile, bottom to top. *)
Definition flags (h : Heap) (pile : list ref) : list bool :=
  map (fun r => faceUp (h r)) pile.

(** The store [h'] has every card of [h] that was face-up still face-up. *)
Definition keepsFaceUp (h h' : Heap) : Prop :=
  forall r : ref, faceUp (h r) = true -> faceUp (h' r) = true.

(** Worlds reached from a fresh deal of either dealer by calls of
    [makeMove] (whatever they answer) and of [undo], the caller going on
    with the state object the call returned. *)
Inductive reachable : World -> Prop :=
  | reach_createInitialGameState (rnd : nat -> nat) :
      reachable (createInitialGameState rnd)
  | reach_initializeGame (rnd : nat -> nat) (w : World) :
      GameEngine.initializeGame rnd = Normal w -> reachable w
  | reach_makeMove (w : World) (m : Move) :
      reachable w -> reachable (snd (GameEngine.makeMove w m))
  | reach_undo (w : World) :
      reachable w ->
      reachable (fst (snd (GameEngine.undo w)),
                 newState (fst (GameEngine.undo w))).

(** What the moves keep: column tops face-up and an empty waste, now and in
    every snapshot of the history. *)
Definition tidy (w : World) : Prop :=
  topsFaceUp w /\ waste (snd w) = [] /\
  Forall (fun s => Forall (topFaceUp (fst w)) (snap_tableau s)
                   /\ snap_waste s = [])
    (gameHistory (snd w)).

(** ** What a call of a mover does to the world *)

(** The call left the world as it was: it threw, or returned an error. *)
Definition rejected (w : World) (r : Completion MoveResult * World) : Prop :=
  snd r = w /\
  (fst r = TypeError \/ exists msg, fst r = Normal (failure (snd w) msg)).

(** The call moved cards, counted the move, credited [bonus] points and
    ended with [revealHiddenCards]; [g3] is the state just before it. *)
Definition played (bonus : Z) (w : World) (g3 : GameState)
  (r : Completion MoveResult * World) : Prop :=
  gameHistory g3 = gameHistory (snd w) /\
  moves g3 = moves (snd w) + 1 /\
  score g3 = score (snd w) + bonus /\
  (waste (snd w) = [] -> waste g3 = []) /\
  snd r = GameEngine.revealHiddenCards (fst w, g3) /\
  fst r = Normal (succeeded (snd (snd r))).

(** The call returned a success; the move is counted and the history is
    as it was. *)
Definition counted (w : World) (r : Completion MoveResult * World) : Prop :=
  fst r = Normal (succeeded (snd (snd r))) /\
  moves (snd (snd r)) = moves (snd w) + 1 /\
  gameHistory (snd (snd r)) = gameHistory (snd w).

(** History, counters and an empty waste are kept from [g] to [g']. *)
Definition sameBook (g g' : GameState) : Prop :=
  gameHistory g' = gameHistory g /\ moves g' = moves g /\
  score g' = score g /\ (waste g = [] -> waste g' = []).

(** The state [makeMove] hands to [executeMove]: the history has the
    snapshot of the board on top. *)
Definition pushed (g : GameState) : GameState :=
  set_gameHistory (gameHistory g ++ [GameEngine.snapshot g]) g.

(** A successful move that credited [bonus] points took the world from [w]
    to [w']: the move is counted, the face-down tops of the columns of
    [w'] have been turned, each credited 5 points, no other card has
    changed, and every column top is face-up. *)
Definition revealedAfter (bonus : Z) (w w' : World) : Prop :=
  let hidden := hiddenTops (fst w) (tableau (snd w')) in
  moves (snd w') = moves (snd w) + 1 /\
  score (snd w') = score (snd w) + bonus + 5 * Z.of_nat (List.length hidden) /\
  (forall r, In r hidden -> fst w' r = setFaceUp true (fst w r)) /\
  (forall r, ~ In r hidden -> fst w' r = fst w r) /\
  topsFaceUp w'.

(** The cards turned between [w] and [w']: the face-down tops of the
    columns of [w'] have been turned, no other card has changed, and every
    column top is face-up. *)
Definition turnedAfter (w w' : World) : Prop :=
  let hidden := hiddenTops (fst w) (tableau (snd w')) in
  (forall r, In r hidden -> fst w' r = setFaceUp true (fst w r)) /\
  (forall r, ~ In r hidden -> fst w' r = fst w r) /\
  topsFaceUp w'.

(** The counters between [w] and [w']: one move counted, [bonus] points
    credited and 5 points for each card turned. *)
Definition creditedAfter (bonus : Z) (w w' : World) : Prop :=
  let hidden := hiddenTops (fst w) (tableau (snd w')) in
  moves (snd w') = moves (snd w) + 1 /\
  score (snd w') = score (snd w) + bonus + 5 * Z.of_nat (List.length hidden).

(** ** The range in which the counters are exact

    [moves] and [score] are JavaScript numbers, that is doubles, and the
    embedding counts in the integers.  The two agree as long as every value
    is an integer between -2^53 and 2^53: these are doubles, and a sum of
    two doubles that is itself a double is computed exactly.  Outside that
    range [moves++] and [score += n] round (at 2^53, [moves++] leaves the
    counter as it is), which the integers do not follow; a statement about
    the value of a counter after a move is made for states in the range. *)

(** [moves++] is exact on [g]. *)
Definition movesExact (g : GameState) : Prop :=
  - 2 ^ 53 <= moves g < 2 ^ 53.

(** The most one move adds to the score of [g]: 10 points for a foundation
    move, 5 for a waste card or one point per card of the run moved, and 5
    points for the top card of each column turned. *)
Definition scoreRoom (g : GameState) : Z :=
  10 + Z.of_nat (List.length (List.concat (tableau g)))
  + 5 * Z.of_nat (List.length (tableau g)).

(** Both counters of [g] are exact through one more move. *)
Definition countersExact (g : GameState) : Prop :=
  movesExact g /\ - 2 ^ 53 <= score g /\ score g + scoreRoom g <= 2 ^ 53.

(** Decide that the counters of a closed state are in the exact range. *)
Ltac in_exact_range :=
  unfold countersExact, movesExact, scoreRoom; vm_compute;
  repeat split; try reflexivity; discriminate.

(** ** The decks as allocated, and the deal of [dealTableau] written out *)

(** Where the element at [k] of a swapped array comes from. *)
Definition swapped (i j k : nat) : nat :=
  if (k =? j)%nat then i else if (k =? i)%nat then j else k.

(** The card objects [createDeck()] allocates, and the store holding them. *)
Definition deckRefs : list ref := fst (allocAll createDeck emptyStore).
Definition deckStore : Store := snd (allocAll createDeck emptyStore).

(** The card objects [this.createDeck()] allocates, and the store holding
    them. *)
Definition engineRefs : list ref :=
  fst (allocAll GameEngine.createDeck emptyStore).
Definition engineStore : Store :=
  snd (allocAll GameEngine.createDeck emptyStore).

(** The card object [dealTableau] reads at a turn of its loops. *)
Definition cellRef (deck : list ref) (cell : nat * nat) : ref :=
  nth (fst cell * 7 + snd cell) deck O.

(** The write of one turn to the store, and its push on the columns. *)
Definition dealWrite (deck : list ref) (h : Heap) (cell : nat * nat) : Heap :=
  let c := h (cellRef deck cell) in
  upd h (cellRef deck cell)
    (mkCard (id c) (suit c) (rank c) (value c) (fst cell =? snd cell)%nat
       LTableau (Z.of_nat (snd cell))).

Definition dealPush (deck : list ref) (t : list (list ref))
  (cell : nat * nat) : list (list ref) :=
  updateAt (snd cell) (fun pile => pile ++ [cellRef deck cell]) t.

(** The deck positions [dealTableau] deals to each column. *)
Definition enginePositions : list (list nat) :=
  [[0]; [1; 8]; [2; 9; 16]; [3; 10; 17; 24]; [4; 11; 18; 25; 32];
   [5; 12; 19; 26; 33; 40]; [6; 13; 20; 27; 34; 41; 48]]%nat.

(** The deck positions of the cards in the piles of [engineState], in the
    order [findCard] searches them. *)
Definition enginePilePositions : list nat :=
  seq 28 24 ++ List.concat enginePositions.

(** The state [initializeGame] builds around a shuffled deck. *)
Definition engineState (deck : list ref) : GameState :=
  mkState (skipn 28 deck) [] emptyFoundations
    (map (map (fun k => nth k deck O)) enginePositions) None 0 0 0 false
    false (mkStats 0 0 0) [] 1 defaultSettings.

(** No reference occurs twice. *)
Fixpoint distinctRefs (l : list nat) : bool :=
  match l with
  | [] => true
  | x :: t => negb (existsb (Nat.eqb x) t) && distinctRefs t
  end.

(** One copy of a deck card into a new object, as both loops of
    [dealCards] make it: [fst kb] is the deck position, [snd kb] the
    [faceUp] flag of the copy. *)
Definition copyStep (deck : list ref) (s : Store) (kb : nat * bool) : Store :=
  snd (alloc (setFaceUp (snd kb) (spreadAt (heap s) deck (fst kb))) s).

(** The cards of a snapshot, in the order of [GameEngine.allCards]. *)
Definition snapCards (s : Snapshot) : list ref :=
  snap_stock s ++ snap_waste s ++ List.concat (snap_tableau s)
    ++ List.concat (foundationValues (snap_foundations s)).

(** Among the card objects [D], equal ids mean the same object. *)
Definition idsInjectiveOn (h : Heap) (D : list ref) : Prop :=
  forall r1 r2 : ref,
    In r1 D -> In r2 D -> id (h r1) = id (h r2) -> r1 = r2.

(** The board and its history hold card objects of [D] only, and ids tell
    the objects of [D] apart. *)
Definition kept (D : list ref) (w : World) : Prop :=
  incl (GameEngine.allCards (snd w)) D /\
  Forall (fun s => incl (snapCards s) D) (gameHistory (snd w)) /\
  idsInjectiveOn (fst w) D.

(** From [w] to [w'] no card object has come to the board and no id has
    changed. *)
Definition sameCards (w w' : World) : Prop :=
  incl (GameEngine.allCards (snd w')) (GameEngine.allCards (snd w)) /\
  (forall r : ref, id (fst w' r) = id (fst w r)).

(** The copies [dealCards] makes of a deck of 52 cards: position and flag,
    in the order of allocation. *)
Definition dealCopies : list (nat * bool) :=
  combine (seq 0 28) (map (fun c : nat * nat => (snd c =? fst c)%nat) dealCells)
    ++ map (fun i => (i, false)) (seq 28 24).

(** Worlds reached from [w0] by calls of [makeMove] and [undo]. *)
Inductive playedFrom (w0 : World) : World -> Prop :=
  | from_start : playedFrom w0 w0
  | from_makeMove (w : World) (m : Move) :
      playedFrom w0 w -> playedFrom w0 (snd (GameEngine.makeMove w m))
  | from_undo (w : World) :
      playedFrom w0 w ->
      playedFrom w0 (fst (snd (GameEngine.undo w)),
                     newState (fst (GameEngine.undo w))).

(** The board and every snapshot of its history hold exactly the card
    objects [D], each once, and ids tell them apart. *)
Definition conserved (D : list ref) (w : World) : Prop :=
  Permutation (GameEngine.allCards (snd w)) D /\
  Forall (fun s => Permutation (snapCards s) D) (gameHistory (snd w)) /\
  NoDup D /\ idsInjectiveOn (fst w) D.

(** Among the cards [l], equal ids mean the same card object. *)
Definition tellsApart (h : Heap) (l : list ref) : Prop :=
  forall x y : ref, In x l -> In y l -> id (h x) = id (h y) -> x = y.

(** ** The hint engine ([src/utils/tensorflowEngine.ts]) *)

(** [suits.indexOf(suit)], also [Object.keys(foundations).indexOf(suit)]:
    the keys are in the order ♠ ♥ ♦ ♣. *)
Definition suitIndex (s : Suit) : Z :=
  match s with Spades => 0 | Hearts => 1 | Diamonds => 2 | Clubs => 3 end.

Module MLEngine.

(** [suitIndex * 13 + card.value] *)
Definition getCardId (c : Card) : Z := suitIndex (suit c) * 13 + value c.

Definition isValidTableauMove (h : Heap) (card : ref)
  (targetColumn : list ref) : bool :=
  match lastOpt targetColumn with
  | None => value (h card) =? 13
  | Some topCard =>
      if negb (faceUp (h topCard)) then false
      else
        let isRedCard := isRed (suit (h card)) in
        let isTopRed := isRed (suit (h topCard)) in
        negb (Bool.eqb isRedCard isTopRed)
        && (value (h card) =? value (h topCard) - 1)
  end.

(** [foundations[card.suit]] is one of the four piles: the branch for a
    missing pile is never taken. *)
Definition isValidFoundationMove (h : Heap) (card : ref) (f : Foundations)
  : bool :=
  match lastOpt (foundationOf f (suit (h card))) with
  | None => value (h card) =? 1
  | Some topCard =>
      Suit_eqb (suit (h card)) (suit (h topCard))
      && (value (h card) =? value (h topCard) + 1)
  end.

(** The move objects the hint engine builds: [type] and [cardId], which
    the rules engine reads ([sourceType], [sourceIndex] and [targetIndex]
    are left [undefined]), and the four fields only the hint engine
    writes. *)
Record HintMove := mkHint {
  move : Move;
  fromLocation : Location;
  toLocation : Location;
  fromPosition : Z;
  toPosition : Z
}.

Definition hint (t : MoveType) (h : Heap) (card : ref)
  (fromL toL : Location) (fromP toP : Z) : HintMove :=
  mkHint (mkMove t (id (h card)) None None None) fromL toL fromP toP.

Definition generatePossibleMoves (w : World) : list HintMove :=
  let (h, g) := w in
  let wasteLength := Z.of_nat (List.length (waste g)) in
  let stockMoves :=
    match stock g with
    | first :: _ => [hint MStock h first LStock LWaste 0 wasteLength]
    | [] => []
    end in
  let wasteMoves :=
    match lastOpt (waste g) with
    | Some topWasteCard =>
        flat_map
          (fun '(colIndex, column) =>
             if isValidTableauMove h topWasteCard column
             then [hint MWaste h topWasteCard LWaste LTableau
                     (wasteLength - 1) (Z.of_nat colIndex)]
             else [])
          (indexed (tableau g))
        ++ (if isValidFoundationMove h topWasteCard (foundations g)
            then [hint MWaste h topWasteCard LWaste LFoundation
                    (wasteLength - 1) (suitIndex (suit (h topWasteCard)))]
            else [])
    | None => []
    end in
  let tableauMoves :=
    flat_map
      (fun '(colIndex, column) =>
         match lastOpt column with
         | Some topCard =>
             flat_map
               (fun '(targetIndex, targetColumn) =>
                  if negb (colIndex =? targetIndex)%nat
                     && isValidTableauMove h topCard targetColumn
                  then [hint MTableau h topCard LTableau LTableau
                          (Z.of_nat colIndex) (Z.of_nat targetIndex)]
                  else [])
               (indexed (tableau g))
             ++ (if isValidFoundationMove h topCard (foundations g)
                 then [hint MTableau h topCard LTableau LFoundation
                         (Z.of_nat colIndex) (suitIndex (suit (h topCard)))]
                 else [])
         | None => []
         end)
      (indexed (tableau g)) in
  stockMoves ++ wasteMoves ++ tableauMoves.

(** [possibleMoves[0]], [null] for the empty list. *)
Definition getBestMove (w : World) : option HintMove :=
  hd_error (generatePossibleMoves w).

End MLEngine.

(** ** The move and undo actions of the store ([useGameStore]) *)

Definition set_gameStats (v : GameStats) (g : GameState) : GameState :=
  mkState (stock g) (waste g) (foundations g) (tableau g) (selectedCard g)
    (moves g) (score g) (time g) (isWon g) (canUndo g) v (gameHistory g)
    (drawMode g) (settings g).

(** The store holds the fields of a [GameState] (spread into it by
    [initializeGame] and [newGame]); the two actions write to these
    fields only, and turn no card. *)
Module GameStore.

(** [makeMove(move)]: the snapshot is pushed, the move is counted in
    [gameStats]; [move] is logged and not read again. *)
Definition makeMove (draft : GameState) (move : Move) : GameState :=
  let d1 :=
    set_gameHistory
      (gameHistory draft
       ++ [mkSnapshot (stock draft) (waste draft) (foundations draft)
             (tableau draft) (gameStats draft)])
      draft in
  let d2 :=
    set_gameStats
      (mkStats (stats_time (gameStats d1)) (stats_moves (gameStats d1) + 1)
         (stats_score (gameStats d1)))
      d1 in
  set_canUndo true d2.


End GameStore.


(** ** A game played to the end *)

(** One foundation move per card, in the order of [createDeck]: the
    spades from ace to king, then the hearts, the diamonds, the clubs. *)
Definition suitBySuit : list Move :=
  map (fun c => mkMove MFoundation (id c) None None None) createDeck.

(** The world after the calls [makeMove(state, m)] for the moves of a
    list, in order. *)
Definition playAll (w : World) (ms : list Move) : World :=
  fold_left (fun w' m => snd (GameEngine.makeMove w' m)) ms w.

(** ** Fields the movers leave alone, and cards that only turn up *)

(** The fields no mover writes are the same in [g'] as in [g]. *)
Definition sameRest (g g' : GameState) : Prop :=
  selectedCard g' = selectedCard g /\ time g' = time g /\
  isWon g' = isWon g /\ gameStats g' = gameStats g /\
  drawMode g' = drawMode g /\ settings g' = settings g.

(** The win flag is down, the clock and the statistics are at zero, now
    and in every snapshot of the history. *)
Definition unflagged (g : GameState) : Prop :=
  isWon g = false /\ time g = 0 /\ gameStats g = mkStats 0 0 0 /\
  Forall (fun s => snap_gameStats s = mkStats 0 0 0) (gameHistory g).

(** The card [c'] is the card [c], or [c] turned face-up. *)
Definition sameOrTurned (c c' : Card) : Prop :=
  c' = c \/ (faceUp c = false /\ c' = setFaceUp true c).

(** The game of [suitBySuit] on the deal of the identity shuffle. *)
Abbreviation wonGame :=
  (playAll (createInitialGameState identityShuffle) suitBySuit).

(** ** What the store's actions keep *)



(** ** The game of [suitBySuit] *)

(** The cards of suit [s] among the first [k] cards of [createDeck]. *)
Definition dealtOfSuit (k : nat) (s : Suit) : list Card :=
  filter (fun c => Suit_eqb (suit c) s) (firstn k createDeck).

(** The test of [moveToFoundation] on the card at [k] of [createDeck],
    with the cards before it on their foundations. *)
Definition nextCardOk (k : nat) : bool :=
  let c := nth k createDeck noCard in
  match lastOpt (dealtOfSuit k (suit c)) with
  | None => Rank_eqb (rank c) RA
  | Some t => value c =? value t + 1
  end.

(** After the first [k] moves of [suitBySuit] on a deal with the store
    [h0]: each foundation holds, up to [faceUp], the cards of its suit
    among the first [k] cards of [createDeck], in order. *)
Definition builtUp (h0 : Heap) (k : nat) (g : GameState) : Prop :=
  forall s : Suit,
    map (fun r => setFaceUp false (h0 r)) (foundationOf (foundations g) s)
    = dealtOfSuit k s.

(** * Properties *)

(** ** Win predicate *)

(** C9: [checkWinCondition] answers [true] exactly when each of the four
    foundation piles holds thirteen cards. *)
Theorem checkWinCondition_iff (g : GameState) :
  GameEngine.checkWinCondition g = true <->
  (forall s : Suit, List.length (foundationOf (foundations g) s) = 13%nat).
Proof.
  unfold GameEngine.checkWinCondition, foundationValues. simpl.
  rewrite !andb_true_iff, !Nat.eqb_eq. split.
  - intros (Hs & Hh & Hd & Hc & _) [ | | | ]; simpl; assumption.
  - intros H. repeat split.
    + exact (H Spades).
    + exact (H Hearts).
    + exact (H Diamonds).
    + exact (H Clubs).
Qed.

(** ** Undo after a move, on the fresh deal *)

(** C1: on the fresh deal, moving the ace of hearts to its foundation and
    undoing gives back the piles, but neither the move counter, nor the
    score, nor the [faceUp] flag of the nine of spades the move revealed:
    the board after undo differs from the board before the move. *)
Theorem undo_after_move_differs :
  In aceOfHearts (GameEngine.getAllPossibleMoves freshDeal) /\
  GameEngine.successOf (fst afterMove) = Normal true /\
  success (fst afterUndo) = true /\
  stock (snd undone) = stock (snd freshDeal) /\
  waste (snd undone) = waste (snd freshDeal) /\
  foundations (snd undone) = foundations (snd freshDeal) /\
  tableau (snd undone) = tableau (snd freshDeal) /\
  (moves (snd freshDeal) = 0 /\ moves (snd undone) = 1) /\
  (score (snd freshDeal) = 0 /\ score (snd undone) = 15) /\
  (nth_error (tableau (snd freshDeal)) 2 = Some [54; 60; 65]%nat /\
   id (fst freshDeal 60%nat) = "♠-9" /\
   faceUp (fst freshDeal 60%nat) = false /\
   faceUp (fst undone 60%nat) = true) /\
  boardOf undone <> boardOf freshDeal.
Proof.
  conjuncts; try by_evaluation.
  - vm_compute. right. left. reflexivity.
  - intro H. apply (f_equal board_moves) in H. vm_compute in H.
    discriminate H.
Qed.

(** ** A rejected move *)

(** C2: on the fresh deal, [makeMove] rejects the eight of spades as a
    foundation move with an error result and leaves piles, flags and
    counters alone, but the history it pushed before validating stays: the
    stack has grown by one snapshot and a following [undo] succeeds.  A
    tableau move onto column 7 ends in a [TypeError] instead of an error
    result, with the same push. *)
Theorem rejected_move_grows_history :
  let r := GameEngine.makeMove freshDeal eightOfSpades in
  fst (GameEngine.isValidMove freshDeal eightOfSpades) = Normal false /\
  fst r =
    Normal (failure (snd (snd r)) "Only Ace can be placed on empty foundation")
  /\ boardOf (snd r) = boardOf freshDeal
  /\ gameHistory (snd freshDeal) = []
  /\ gameHistory (snd (snd r)) = [GameEngine.snapshot (snd freshDeal)]
  /\ success (fst (GameEngine.undo (snd r))) = true
  /\ fst (GameEngine.makeMove freshDeal offBoard) = TypeError
  /\ List.length
       (gameHistory (snd (snd (GameEngine.makeMove freshDeal offBoard))))
     = 1%nat.
Proof.
  conjuncts; by_evaluation.
Qed.

(** ** Validation *)

(** C3: on the fresh deal, [isValidMove] answers [true] for the ace of
    hearts and, in doing so, plays it: the ace is on its foundation, the
    column has lost it, the nine of spades beneath has been turned, the
    move counter is 1 and the score 15. *)
Theorem isValidMove_plays_the_move :
  let r := GameEngine.isValidMove freshDeal aceOfHearts in
  fst r = Normal true /\
  hearts (foundations (snd freshDeal)) = [] /\
  hearts (foundations (snd (snd r))) = [65%nat] /\
  nth_error (tableau (snd freshDeal)) 2 = Some [54; 60; 65]%nat /\
  nth_error (tableau (snd (snd r))) 2 = Some [54; 60]%nat /\
  faceUp (fst freshDeal 60%nat) = false /\
  faceUp (fst (snd r) 60%nat) = true /\
  (moves (snd freshDeal) = 0 /\ moves (snd (snd r)) = 1) /\
  (score (snd freshDeal) = 0 /\ score (snd (snd r)) = 15) /\
  boardOf (snd r) <> boardOf freshDeal.
Proof.
  conjuncts; try by_evaluation.
  intro H. apply (f_equal board_moves) in H. vm_compute in H. discriminate H.
Qed.

(** ** Foundation moves from anywhere *)

(** C6: on the fresh deal, the ace of clubs goes from the middle of the
    stock to its foundation, and the ace of diamonds, face-down under the
    two of diamonds, goes from inside the last column to its foundation:
    both foundation moves succeed. *)
Theorem buried_cards_reach_foundation :
  (let r := GameEngine.makeMove freshDeal aceOfClubs in
   nth_error (stock (snd freshDeal)) 11 = Some 91%nat /\
   id (fst freshDeal 91%nat) = "♣-A" /\
   faceUp (fst freshDeal 91%nat) = false /\
   GameEngine.successOf (fst r) = Normal true /\
   clubs (foundations (snd (snd r))) = [91%nat] /\
   ~ In 91%nat (stock (snd (snd r))) /\
   List.length (stock (snd (snd r))) = 23%nat) /\
  (let r := GameEngine.makeMove freshDeal aceOfDiamonds in
   nth_error (tableau (snd freshDeal)) 6
     = Some [58; 64; 69; 73; 76; 78; 79]%nat /\
   id (fst freshDeal 78%nat) = "♦-A" /\
   faceUp (fst freshDeal 78%nat) = false /\
   GameEngine.successOf (fst r) = Normal true /\
   diamonds (foundations (snd (snd r))) = [78%nat] /\
   nth_error (tableau (snd (snd r))) 6
     = Some [58; 64; 69; 73; 76; 79]%nat).
Proof.
  conjuncts; try by_evaluation.
  vm_compute. intuition discriminate.
Qed.

(** ** The deal of [GameEngine.initializeGame] *)

Lemma distinct_NoDup (l : list string) : distinct l = true <-> NoDup l.
Proof.
  induction l as [ | x t IH]; simpl.
  - split; [intros _; constructor | reflexivity].
  - rewrite andb_true_iff, negb_true_iff, IH. split.
    + intros [Hx Ht]. constructor; [ | exact Ht].
      intro Hin. assert (existsb (String.eqb x) t = true) as E.
      { apply existsb_exists. exists x. split; [exact Hin | apply String.eqb_refl]. }
      congruence.
    + intro H. inversion H as [ | ? ? Hx Ht]; subst. split; [ | exact Ht].
      destruct (existsb (String.eqb x) t) eqn:E; [ | reflexivity].
      apply existsb_exists in E. destruct E as (y & Hy & Exy).
      apply String.eqb_eq in Exy. subst y. contradiction.
Qed.

(** The deal of [GameEngine.initializeGame] with the shuffle that keeps
    the deck in order fills the piles with 52 entries, yet the
    cards at deck positions 32, 33, 34, 40, 41 and 48 are both in a column
    and in the stock, and the cards at positions 7, 14, 15, 21, 22 and 23
    are in no pile: ids repeat and cards are missing. *)
Example initializeGame_identityShuffle_piles :
  exists w : World,
    GameEngine.initializeGame identityShuffle = Normal w /\
    List.length (cardIds w) = 52%nat /\
    stock (snd w) = seq 28 24 /\
    tableau (snd w) =
      [[0]; [1; 8]; [2; 9; 16]; [3; 10; 17; 24]; [4; 11; 18; 25; 32];
       [5; 12; 19; 26; 33; 40]; [6; 13; 20; 27; 34; 41; 48]]%nat /\
    ~ NoDup (cardIds w) /\
    (id (fst w 7%nat) = "8-♠" /\ ~ In "8-♠" (cardIds w)).
Proof.
  eexists. split; [by_evaluation | ].
  conjuncts; try by_evaluation.
  - rewrite <- distinct_NoDup. vm_compute. discriminate.
  - vm_compute. intuition discriminate.
Qed.

(** After [GameEngine.initializeGame] with the shuffle that keeps the
    deck in order the columns have 1 to 7 cards, but the stock
    is the last 24 cards of the deck, six of which were also dealt to
    columns: its fifth, thirteenth and twenty-first cards are the face-up
    tops of the last three columns, so the stock is not all face-down. *)
Example initializeGame_identityShuffle_stock :
  exists w : World,
    GameEngine.initializeGame identityShuffle = Normal w /\
    map (@List.length ref) (tableau (snd w)) = [1; 2; 3; 4; 5; 6; 7]%nat /\
    List.length (stock (snd w)) = 24%nat /\
    (nth_error (stock (snd w)) 4 = Some 32%nat /\
     option_map lastOpt (nth_error (tableau (snd w)) 4) = Some (Some 32%nat) /\
     faceUp (fst w 32%nat) = true) /\
    map (fun r => faceUp (fst w r)) (stock (snd w)) =
      [false; false; false; false; true; false; false; false;
       false; false; false; false; true; false; false; false;
       false; false; false; false; true; false; false; false].
Proof.
  eexists. split; [by_evaluation | ].
  conjuncts; by_evaluation.
Qed.

(** ** Stock moves *)

(** C7: on the fresh deal the stock holds 24 cards and the hint engine
    offers the move from the stock to the waste first, yet the stock move
    the board sends on a click on the stock is not valid and [makeMove]
    answers with an error; no card is drawn: the waste stays empty and
    the stock keeps its cards. *)
Theorem stock_draw_not_legal :
  List.length (stock (snd freshDeal)) = 24%nat /\
  option_map
    (fun hm => (type (MLEngine.move hm),
                MLEngine.fromLocation hm, MLEngine.toLocation hm))
    (hd_error (MLEngine.generatePossibleMoves freshDeal))
  = Some (MStock, LStock, LWaste) /\
  fst (GameEngine.isValidMove freshDeal stockClick) = Normal false /\
  GameEngine.successOf (fst (GameEngine.makeMove freshDeal stockClick))
    = Normal false /\
  waste (snd (snd (GameEngine.makeMove freshDeal stockClick))) = [] /\
  stock (snd (snd (GameEngine.makeMove freshDeal stockClick)))
    = stock (snd freshDeal).
Proof.
  conjuncts; by_evaluation.
Qed.

(** The engine has no case for the kinds [stock] and [waste]: whatever
    the stock and the waste hold, such a move is not valid and changes
    nothing when validated; [makeMove] returns the error
    [Invalid move type] and leaves the store, every pile, the move counter
    and the score as they were. *)
Lemma stock_moves_rejected (w : World) (m : Move) :
  type m = MStock \/ type m = MWaste ->
  GameEngine.isValidMove w m = (Normal false, w) /\
  exists (r : MoveResult) (w' : World),
    GameEngine.makeMove w m = (Normal r, w') /\
    success r = false /\
    error r = Some "Invalid move type" /\
    fst w' = fst w /\
    stock (snd w') = stock (snd w) /\
    waste (snd w') = waste (snd w) /\
    foundations (snd w') = foundations (snd w) /\
    tableau (snd w') = tableau (snd w) /\
    moves (snd w') = moves (snd w) /\
    score (snd w') = score (snd w).
Proof.
  intros Hm. destruct w as [h g].
  unfold GameEngine.isValidMove, GameEngine.makeMove, GameEngine.executeMove.
  destruct Hm as [Hm | Hm]; rewrite Hm; simpl.
  all: split; [reflexivity | ].
  all: eexists; eexists; split; [reflexivity | ].
  all: simpl; conjuncts; reflexivity.
Qed.

Lemma stock_moves_rejected_witness :
  GameEngine.isValidMove freshDeal stockClick = (Normal false, freshDeal) /\
  exists (r : MoveResult) (w' : World),
    GameEngine.makeMove freshDeal stockClick = (Normal r, w') /\
    success r = false /\
    error r = Some "Invalid move type" /\
    fst w' = fst freshDeal /\
    stock (snd w') = stock (snd freshDeal) /\
    waste (snd w') = waste (snd freshDeal) /\
    foundations (snd w') = foundations (snd freshDeal) /\
    tableau (snd w') = tableau (snd freshDeal) /\
    moves (snd w') = moves (snd freshDeal) /\
    score (snd w') = score (snd freshDeal).
Proof.
  apply (stock_moves_rejected freshDeal stockClick).
  left. reflexivity.
Defined.

(** ** Arrays: facts *)

Section ArrayFacts.
Context {A : Type}.

Lemma lastOpt_app (l : list A) (x : A) : lastOpt (l ++ [x]) = Some x.
Proof.
  induction l as [ | y t IH]; [reflexivity | ].
  simpl app. simpl lastOpt. rewrite IH.
  destruct t; reflexivity.
Qed.

Lemma lastOpt_In (l : list A) (x : A) : lastOpt l = Some x -> In x l.
Proof.
  induction l as [ | y t IH]; [discriminate | ].
  simpl. destruct t as [ | z t'].
  - intros [= ->]. left. reflexivity.
  - intro H. right. apply IH. exact H.
Qed.

Lemma lastOpt_None (l : list A) : lastOpt l = None -> l = [].
Proof.
  induction l as [ | y t IH]; [reflexivity | ].
  simpl. destruct t as [ | z t']; [discriminate | ].
  intro H. apply IH in H. discriminate H.
Qed.

Lemma indexed_from (l : list A) (s i : nat) (x : A) :
  In (i, x) (combine (seq s (List.length l)) l) ->
  (s <= i)%nat /\ nth_error l (i - s) = Some x.
Proof.
  revert s. induction l as [ | y t IH]; intros s; simpl; [tauto | ].
  intros [H | H].
  - inversion H; subst. rewrite Nat.sub_diag. split; [lia | reflexivity].
  - apply IH in H. destruct H as [Hle Hn]. split; [lia | ].
    replace (i - s)%nat with (S (i - S s)) by lia. exact Hn.
Qed.

Lemma indexed_In (l : list A) (i : nat) (x : A) :
  In (i, x) (indexed l) -> nth_error l i = Some x.
Proof.
  intro H. apply indexed_from in H. destruct H as [_ H].
  rewrite Nat.sub_0_r in H. exact H.
Qed.

Lemma at_of_nat (l : list A) (i : nat) : at_ l (Z.of_nat i) = nth_error l i.
Proof.
  unfold at_. destruct (Z.ltb_spec (Z.of_nat i) 0); [lia | ].
  rewrite Nat2Z.id. reflexivity.
Qed.

Lemma find_identified (f : A -> string) (l : list A) (x : A) :
  (forall y, In y l -> f y = f x -> y = x) -> In x l ->
  find (fun y => String.eqb (f y) (f x)) l = Some x.
Proof.
  induction l as [ | y t IH]; simpl; [tauto | ].
  intros Hid Hin.
  destruct (String.eqb_spec (f y) (f x)) as [E | NE].
  - f_equal. apply Hid; [left; reflexivity | exact E].
  - destruct Hin as [-> | Hin]; [congruence | ].
    apply IH; [ | exact Hin]. intros z Hz. apply Hid. right. exact Hz.
Qed.

Lemma NoDup_map_injective (f : A -> string) (l : list A) (x y : A) :
  NoDup (map f l) -> In x l -> In y l -> f x = f y -> x = y.
Proof.
  induction l as [ | z t IH]; simpl; [tauto | ].
  intros Hnd Hx Hy E. inversion Hnd as [ | ? ? Hz Ht]; subst.
  destruct Hx as [-> | Hx], Hy as [-> | Hy].
  - reflexivity.
  - exfalso. apply Hz. rewrite E. apply in_map. exact Hy.
  - exfalso. apply Hz. rewrite <- E. apply in_map. exact Hx.
  - apply IH; assumption.
Qed.

End ArrayFacts.

(** ** The enumerator against the validator *)

Lemma top_in_allCards (g : GameState) (i : nat) (pile : list ref)
  (topCard : ref) :
  In (i, pile) (indexed (tableau g)) -> lastOpt pile = Some topCard ->
  In topCard (GameEngine.allCards g).
Proof.
  intros Hp Htop. unfold GameEngine.allCards.
  apply in_or_app. right. apply in_or_app. right. apply in_or_app. left.
  apply in_concat. exists pile. split.
  - apply indexed_In in Hp. eapply nth_error_In. exact Hp.
  - apply lastOpt_In. exact Htop.
Qed.

Lemma findCard_top (h : Heap) (g : GameState) (i : nat) (pile : list ref)
  (topCard : ref) :
  idsIdentifyCards (h, g) ->
  In (i, pile) (indexed (tableau g)) -> lastOpt pile = Some topCard ->
  GameEngine.findCard h g (id (h topCard)) = Some topCard.
Proof.
  intros Hid Hp Htop. unfold GameEngine.findCard.
  assert (In topCard (GameEngine.allCards g)) as Hin
    by (eapply top_in_allCards; eassumption).
  apply (find_identified (fun r => id (h r))); [ | exact Hin].
  intros y Hy E. apply (Hid y topCard Hy Hin E).
Qed.

Lemma distinct_ids_identify (w : World) :
  NoDup (cardIds w) -> idsIdentifyCards w.
Proof.
  intros Hnd r1 r2 H1 H2 E.
  apply (NoDup_map_injective (fun r => id (fst w r))
           (GameEngine.allCards (snd w))); assumption.
Qed.

(** On a board whose ids identify its cards, every move
    [getAllPossibleMoves] lists is answered [true] by [isValidMove]. *)
Lemma enumerated_valid_of_ids (w : World) (m : Move) :
  idsIdentifyCards w ->
  In m (GameEngine.getAllPossibleMoves w) ->
  fst (GameEngine.isValidMove w m) = Normal true.
Proof.
  destruct w as [h g]. intros Hnd Hin.
  unfold GameEngine.getAllPossibleMoves in Hin.
  apply in_app_or in Hin. destruct Hin as [Hin | Hin];
    [ | apply in_app_or in Hin; destruct Hin as [Hin | Hin]].
  - (* a column top to its foundation *)
    apply in_flat_map in Hin. destruct Hin as ([i pile] & Hp & Hin).
    destruct (lastOpt pile) as [topCard | ] eqn:Htop; [ | contradiction].
    destruct (faceUp (h topCard) && GameEngine.nextOnFoundation h g topCard)
      eqn:Hc; [ | contradiction].
    destruct Hin as [<- | []].
    apply andb_true_iff in Hc. destruct Hc as [_ Hc].
    unfold GameEngine.isValidMove, GameEngine.moveToFoundation. simpl.
    rewrite (findCard_top h g i pile topCard Hnd Hp Htop).
    unfold GameEngine.nextOnFoundation in Hc.
    destruct (lastOpt (foundationOf (foundations g) (suit (h topCard))));
      rewrite Hc; reflexivity.
  - (* a column top to another column *)
    apply in_flat_map in Hin. destruct Hin as ([i pile] & Hp & Hin).
    destruct (lastOpt pile) as [topCard | ] eqn:Htop; [ | contradiction].
    destruct (faceUp (h topCard)); [ | contradiction].
    apply in_flat_map in Hin. destruct Hin as ([ti targetPile] & Ht & Hin).
    destruct (negb (i =? ti)%nat
              && GameEngine.canMoveToTableau h topCard targetPile) eqn:Hc;
      [ | contradiction].
    destruct Hin as [<- | []].
    apply andb_true_iff in Hc. destruct Hc as [_ Hc].
    unfold GameEngine.isValidMove, GameEngine.moveToTableau. simpl.
    rewrite (findCard_top h g i pile topCard Hnd Hp Htop).
    rewrite at_of_nat, (indexed_In _ _ _ Ht), Hc. reflexivity.
  - (* the waste top to a column *)
    destruct (lastOpt (waste g)) as [wasteCard | ] eqn:Hw; [ | contradiction].
    apply in_flat_map in Hin. destruct Hin as ([ti targetPile] & Ht & Hin).
    destruct (GameEngine.canMoveToTableau h wasteCard targetPile) eqn:Hc;
      [ | contradiction].
    destruct Hin as [<- | []].
    unfold GameEngine.isValidMove, GameEngine.moveWasteToTableau. simpl.
    rewrite Hw, at_of_nat, (indexed_In _ _ _ Ht), Hc. reflexivity.
Qed.


(** ** Column tops *)

Lemma upd_same (h : Heap) (r : ref) (c : Card) : upd h r c r = c.
Proof. unfold upd. rewrite Nat.eqb_refl. reflexivity. Qed.

Lemma upd_other (h : Heap) (r r' : ref) (c : Card) :
  r' <> r -> upd h r c r' = h r'.
Proof.
  intro H. unfold upd. destruct (Nat.eqb_spec r' r); [contradiction | reflexivity].
Qed.

Lemma topFaceUp_keeps (h h' : Heap) (pile : list ref) :
  keepsFaceUp h h' -> topFaceUp h pile -> topFaceUp h' pile.
Proof.
  unfold topFaceUp. intros K H. destruct (lastOpt pile); [apply K, H | exact I].
Qed.

(** *** [revealHiddenCards] *)

Lemma tops_cons (pile : list ref) (rest : list (list ref)) :
  tops (pile :: rest) =
  match lastOpt pile with
  | Some topCard => topCard :: tops rest
  | None => tops rest
  end.
Proof.
  unfold tops. simpl. destruct (lastOpt pile); reflexivity.
Qed.

Lemma revealStep_eq (h : Heap) (s : Z) (pile : list ref) :
  GameEngine.revealStep (h, s) pile =
  match lastOpt pile with
  | Some topCard =>
      if faceUp (h topCard) then (h, s)
      else (upd h topCard (setFaceUp true (h topCard)), s + 5)
  | None => (h, s)
  end.
Proof. reflexivity. Qed.

Lemma reveal_loop (piles : list (list ref)) :
  forall (h : Heap) (s : Z),
  exists flipped : list ref,
    NoDup flipped /\
    (forall r, In r flipped <-> In r (tops piles) /\ faceUp (h r) = false) /\
    snd (fold_left GameEngine.revealStep piles (h, s))
      = s + 5 * Z.of_nat (List.length flipped) /\
    (forall r, In r flipped ->
       fst (fold_left GameEngine.revealStep piles (h, s)) r
         = setFaceUp true (h r)) /\
    (forall r, ~ In r flipped ->
       fst (fold_left GameEngine.revealStep piles (h, s)) r = h r).
Proof.
  induction piles as [ | pile rest IH]; intros h s.
  - exists []. simpl. split; [constructor | ].
    split; [intro r; tauto | ]. split; [lia | ]. split; [tauto | reflexivity].
  - simpl fold_left. rewrite revealStep_eq, tops_cons.
    destruct (lastOpt pile) as [topCard | ] eqn:Htop;
      [destruct (faceUp (h topCard)) eqn:Hup | ].
    + (* the top is already face-up *)
      destruct (IH h s) as (fl & Hnd & Hin & Hs & Hf & Hn).
      exists fl. split; [exact Hnd | ]. split; [ | tauto].
      intro r. rewrite Hin. simpl. split; [tauto | ].
      intros [[<- | H1] H2]; [congruence | tauto].
    + (* the top is turned *)
      set (h1 := upd h topCard (setFaceUp true (h topCard))).
      destruct (IH h1 (s + 5)) as (fl & Hnd & Hin & Hs & Hf & Hn).
      assert (~ In topCard fl) as Hfresh.
      { intro H. apply Hin in H. destruct H as [_ H].
        unfold h1 in H. rewrite upd_same in H. discriminate H. }
      assert (forall r, r <> topCard -> h1 r = h r) as Hh1
        by (intros r NE; unfold h1; apply upd_other; exact NE).
      exists (topCard :: fl). split; [constructor; assumption | ].
      split; [ | split; [ | split]].
      * intro r. simpl. rewrite Hin.
        destruct (Nat.eq_dec r topCard) as [-> | NE].
        -- split; [intros _; split; [left; reflexivity | exact Hup] | ].
           intros _. left. reflexivity.
        -- rewrite (Hh1 r NE). split.
           ++ intros [E | [H1 H2]]; [congruence | tauto].
           ++ intros [[E | H1] H2]; [congruence | tauto].
      * rewrite Hs. simpl List.length. lia.
      * intros r [<- | H].
        -- rewrite Hn by exact Hfresh. unfold h1. apply upd_same.
        -- rewrite Hf by exact H. rewrite Hh1; [reflexivity | ].
           intros ->. contradiction.
      * intros r H. rewrite Hn by (intro; apply H; right; assumption).
        apply Hh1. intros ->. apply H. left. reflexivity.
    + (* an empty column *)
      exact (IH h s).
Qed.

Lemma hiddenTops_In (h : Heap) (piles : list (list ref)) (r : ref) :
  In r (hiddenTops h piles) <-> In r (tops piles) /\ faceUp (h r) = false.
Proof.
  unfold hiddenTops. rewrite nodup_In, filter_In, negb_true_iff. tauto.
Qed.

(** [revealHiddenCards] turns exactly the face-down column tops, every
    column's, and credits 5 points for each card turned; nothing else
    changes. *)
Lemma revealHiddenCards_spec (h : Heap) (g : GameState) :
  let w' := GameEngine.revealHiddenCards (h, g) in
  snd w' =
    set_score (score g + 5 * Z.of_nat (List.length (hiddenTops h (tableau g))))
      g /\
  (forall r, In r (hiddenTops h (tableau g)) ->
     fst w' r = setFaceUp true (h r)) /\
  (forall r, ~ In r (hiddenTops h (tableau g)) -> fst w' r = h r) /\
  topsFaceUp w' /\
  keepsFaceUp h (fst w').
Proof.
  unfold GameEngine.revealHiddenCards. simpl fst. simpl snd.
  destruct (reveal_loop (tableau g) h (score g))
    as (fl & Hnd & Hin & Hs & Hf & Hn).
  assert (forall r, In r fl <-> In r (hiddenTops h (tableau g))) as Hsame
    by (intro r; rewrite Hin, hiddenTops_In; tauto).
  assert (List.length fl = List.length (hiddenTops h (tableau g))) as Hlen.
  { apply Permutation_length.
    apply NoDup_Permutation;
      [exact Hnd | apply NoDup_nodup | exact Hsame]. }
  assert (forall r, faceUp (h r) = true ->
            faceUp (fst (fold_left GameEngine.revealStep (tableau g)
                           (h, score g)) r) = true) as Hkeep.
  { intros r Hup. rewrite Hn; [exact Hup | ].
    intro H. apply Hin in H. destruct H as [_ H]. congruence. }
  split; [rewrite Hs, Hlen; reflexivity | ].
  split; [intros r H; apply Hf, Hsame, H | ].
  split; [intros r H; apply Hn; intro H'; apply H, Hsame, H' | ].
  split; [ | exact Hkeep].
  unfold topsFaceUp. simpl fst. simpl snd. apply Forall_forall.
  intros pile Hp. unfold topFaceUp.
  destruct (lastOpt pile) as [topCard | ] eqn:Htop; [ | exact I].
  destruct (faceUp (h topCard)) eqn:Hup; [apply Hkeep, Hup | ].
  rewrite Hf; [reflexivity | ]. apply Hin. split; [ | exact Hup].
  unfold tops. apply in_flat_map. exists pile. split; [exact Hp | ].
  rewrite Htop. left. reflexivity.
Qed.

(** ** What each mover does to the world *)

Lemma removeCardFromSource_sameBook (h : Heap) (g : GameState) (c : ref) :
  sameBook g (GameEngine.removeCardFromSource h g c).
Proof.
  unfold sameBook, GameEngine.removeCardFromSource.
  destruct (findIndex (GameEngine.sameId h c) (stock g));
    [simpl; tauto | ].
  destruct (findIndex (GameEngine.sameId h c) (waste g)) eqn:Ew.
  - simpl. repeat split; try reflexivity.
    intro Hw. rewrite Hw in Ew. discriminate Ew.
  - destruct (GameEngine.removeFromFirst (GameEngine.sameId h c) (tableau g));
      [simpl; tauto | ].
    destruct (GameEngine.removeFromFirst (GameEngine.sameId h c)
                (foundationValues (foundations g))); simpl; tauto.
Qed.

Lemma removeAll_sameBook (h : Heap) (cards : list ref) :
  forall g : GameState,
    sameBook g
      (fold_left (fun g' c => GameEngine.removeCardFromSource h g' c) cards g).
Proof.
  induction cards as [ | c rest IH]; intro g; simpl.
  - unfold sameBook. tauto.
  - specialize (IH (GameEngine.removeCardFromSource h g c)).
    pose proof (removeCardFromSource_sameBook h g c) as H1.
    unfold sameBook in *.
    destruct IH as (A1 & A2 & A3 & A4), H1 as (B1 & B2 & B3 & B4).
    repeat split; try congruence. intro Hw. apply A4, B4, Hw.
Qed.

(** Name the state [revealHiddenCards] is called on, leaving the four
    bookkeeping facts of [played] to prove. *)
Ltac name_played :=
  eexists; unfold played; simpl fst; simpl snd;
  split; [ | split; [ | split; [ | split;
    [ | split; [reflexivity | reflexivity]]]]]; simpl.

Lemma moveToFoundation_cases (w : World) (m : Move) :
  rejected w (GameEngine.moveToFoundation w m) \/
  exists g3, played 10 w g3 (GameEngine.moveToFoundation w m).
Proof.
  destruct w as [h g]. unfold GameEngine.moveToFoundation.
  assert (forall msg, rejected (h, g) (Normal (failure g msg), (h, g))) as Hrej.
  { intro msg. split; [reflexivity | right; exists msg; reflexivity]. }
  destruct (GameEngine.findCard h g (cardId m)) as [card | ];
    [ | left; apply Hrej].
  pose proof (removeCardFromSource_sameBook h g card) as (B1 & B2 & B3 & B4).
  destruct (lastOpt (foundationOf (foundations g) (suit (h card)))) as [top | ].
  - destruct (negb (value (h card) =? value (h top) + 1));
      [left; apply Hrej | right].
    name_played; [exact B1 | rewrite B2; reflexivity
                  | rewrite B3; reflexivity | exact B4].
  - destruct (negb (Rank_eqb (rank (h card)) RA));
      [left; apply Hrej | right].
    name_played; [exact B1 | rewrite B2; reflexivity
                  | rewrite B3; reflexivity | exact B4].
Qed.

Lemma moveToTableau_cases (w : World) (m : Move) :
  rejected w (GameEngine.moveToTableau w m) \/
  exists card g3,
    GameEngine.findCard (fst w) (snd w) (cardId m) = Some card /\
    played (Z.of_nat
              (List.length (GameEngine.getCardsToMove (fst w) (snd w) card)))
      w g3 (GameEngine.moveToTableau w m).
Proof.
  destruct w as [h g]. unfold GameEngine.moveToTableau. simpl fst. simpl snd.
  assert (forall msg, rejected (h, g) (Normal (failure g msg), (h, g))) as Hrej.
  { intro msg. split; [reflexivity | right; exists msg; reflexivity]. }
  destruct (GameEngine.findCard h g (cardId m)) as [card | ];
    [ | left; apply Hrej].
  destruct (targetIndex m) as [ti | ]; [ | left; apply Hrej].
  destruct (at_ (tableau g) ti) as [targetPile | ];
    [ | left; split; [reflexivity | left; reflexivity]].
  destruct (negb (GameEngine.canMoveToTableau h card targetPile));
    [left; apply Hrej | ].
  right. exists card.
  pose proof (removeAll_sameBook h (GameEngine.getCardsToMove h g card) g)
    as (B1 & B2 & B3 & B4).
  eexists. split; [reflexivity | ]. unfold played. simpl fst. simpl snd.
  split; [ | split; [ | split; [ | split;
    [ | split; [reflexivity | reflexivity]]]]]; simpl.
  - exact B1.
  - rewrite B2. reflexivity.
  - rewrite B3. reflexivity.
  - exact B4.
Qed.

Lemma moveWasteToTableau_cases (w : World) (m : Move) :
  rejected w (GameEngine.moveWasteToTableau w m) \/
  (waste (snd w) <> [] /\ counted w (GameEngine.moveWasteToTableau w m)).
Proof.
  destruct w as [h g]. unfold GameEngine.moveWasteToTableau. simpl snd.
  assert (forall msg, rejected (h, g) (Normal (failure g msg), (h, g))) as Hrej.
  { intro msg. split; [reflexivity | right; exists msg; reflexivity]. }
  destruct (lastOpt (waste g)) as [card | ] eqn:Hw; [ | left; apply Hrej].
  destruct (targetIndex m) as [ti | ]; [ | left; apply Hrej].
  destruct (at_ (tableau g) ti) as [targetPile | ];
    [ | left; split; [reflexivity | left; reflexivity]].
  destruct (negb (GameEngine.canMoveToTableau h card targetPile));
    [left; apply Hrej | ].
  right. split.
  - intro E. rewrite E in Hw. discriminate Hw.
  - unfold counted. simpl. repeat split; reflexivity.
Qed.

Lemma played_counted (bonus : Z) (w : World) (g3 : GameState)
  (r : Completion MoveResult * World) :
  played bonus w g3 r -> counted w r.
Proof.
  destruct w as [h g]. intros (Hh & Hm & _ & _ & Hr & Hres).
  destruct (revealHiddenCards_spec h g3) as (Hg & _).
  cbv zeta in Hg. cbn [fst snd] in *. unfold counted.
  rewrite Hres, Hr, Hg. cbn [fst snd moves gameHistory set_score].
  split; [reflexivity | ]. split; [exact Hm | exact Hh].
Qed.

(** Every mover either leaves the world as it was or counts a move. *)
Lemma executeMove_cases (w : World) (m : Move) :
  rejected w (GameEngine.executeMove w m) \/
  counted w (GameEngine.executeMove w m).
Proof.
  unfold GameEngine.executeMove.
  assert (rejected w (Normal (failure (snd w) "Invalid move type"), w))
    as Hrej by (split; [reflexivity | right; eexists; reflexivity]).
  destruct (type m); try (left; exact Hrej).
  - destruct (moveToFoundation_cases w m) as [H | [g3 H]]; [left; exact H | ].
    right. exact (played_counted _ _ _ _ H).
  - destruct (moveToTableau_cases w m) as [H | (card & g3 & _ & H)];
      [left; exact H | ].
    right. exact (played_counted _ _ _ _ H).
  - destruct (moveWasteToTableau_cases w m) as [H | [_ H]];
      [left; exact H | right; exact H].
Qed.

(** ** The movers keep the board tidy *)

Lemma rejected_tidy (w : World) (r : Completion MoveResult * World) :
  rejected w r -> tidy w -> tidy (snd r).
Proof. intros [-> _] H. exact H. Qed.

Lemma played_tidy (bonus : Z) (w : World) (g3 : GameState)
  (r : Completion MoveResult * World) :
  played bonus w g3 r -> tidy w -> tidy (snd r).
Proof.
  destruct w as [h g]. intros (Hh & _ & _ & Hw & Hr & _) (_ & Hwaste & Hhist).
  simpl in *. rewrite Hr.
  destruct (revealHiddenCards_spec h g3) as (Hg & _ & _ & Htops & Hkeep).
  split; [exact Htops | ]. rewrite Hg. simpl. split; [exact (Hw Hwaste) | ].
  rewrite Hh. eapply Forall_impl; [ | exact Hhist].
  intros s [Ht Hs]. split; [ | exact Hs].
  eapply Forall_impl; [ | exact Ht].
  intros pile. apply topFaceUp_keeps. exact Hkeep.
Qed.

Lemma executeMove_tidy (w : World) (m : Move) :
  tidy w -> tidy (snd (GameEngine.executeMove w m)).
Proof.
  intro Hw. unfold GameEngine.executeMove. destruct (type m); try exact Hw.
  - destruct (moveToFoundation_cases w m) as [H | [g3 H]].
    + exact (rejected_tidy _ _ H Hw).
    + exact (played_tidy _ _ _ _ H Hw).
  - destruct (moveToTableau_cases w m) as [H | (card & g3 & _ & H)].
    + exact (rejected_tidy _ _ H Hw).
    + exact (played_tidy _ _ _ _ H Hw).
  - destruct (moveWasteToTableau_cases w m) as [H | [H _]].
    + exact (rejected_tidy _ _ H Hw).
    + destruct Hw as (_ & Hwaste & _). contradiction.
Qed.

Lemma makeMove_tidy (w : World) (m : Move) :
  tidy w -> tidy (snd (GameEngine.makeMove w m)).
Proof.
  destruct w as [h g]. intros (Ht & Hw & Hh).
  unfold GameEngine.makeMove.
  set (g0 := set_gameHistory (gameHistory g ++ [GameEngine.snapshot g]) g).
  assert (tidy (h, g0)) as H0.
  { split; [exact Ht | ]. split; [exact Hw | ]. simpl.
    apply Forall_app. split; [exact Hh | ].
    constructor; [ | constructor]. simpl. split; [exact Ht | exact Hw]. }
  apply (executeMove_tidy _ m) in H0.
  destruct (GameEngine.executeMove (h, g0) m) as [[res | ] [h' g']];
    [ | exact H0].
  destruct (success res); [ | exact H0].
  exact H0.
Qed.

Lemma Forall_removelast {A : Type} (P : A -> Prop) (l : list A) :
  Forall P l -> Forall P (removelast l).
Proof.
  induction l as [ | x t IH]; [intros; constructor | ].
  intro H. inversion H; subst. simpl. destruct t; [constructor | ].
  constructor; [assumption | apply IH; assumption].
Qed.

Lemma undo_tidy (w : World) :
  tidy w ->
  tidy (fst (snd (GameEngine.undo w)), newState (fst (GameEngine.undo w))).
Proof.
  destruct w as [h g]. intros (Ht & Hw & Hh). unfold GameEngine.undo.
  destruct (lastOpt (gameHistory g)) as [previousState | ] eqn:Hlast.
  - simpl. apply lastOpt_In in Hlast.
    pose proof (proj1 (Forall_forall _ _) Hh previousState Hlast) as [Hp1 Hp2].
    split; [exact Hp1 | ]. split; [exact Hp2 | ]. simpl.
    apply Forall_removelast. exact Hh.
  - simpl. split; [exact Ht | ]. split; [exact Hw | exact Hh].
Qed.

(** ** The shuffle *)

Section Shuffle.
Context {A : Type}.

Lemma updateAt_length (i : nat) (f : A -> A) (l : list A) :
  List.length (updateAt i f l) = List.length l.
Proof.
  revert i. induction l as [ | x t IH]; intros [ | i]; simpl; auto.
Qed.

Lemma nth_error_updateAt (i k : nat) (f : A -> A) (l : list A) :
  nth_error (updateAt i f l) k =
  if (k =? i)%nat then option_map f (nth_error l k) else nth_error l k.
Proof.
  revert i k. induction l as [ | x t IH]; intros i k.
  - simpl. destruct k, (_ =? _)%nat; reflexivity.
  - destruct i as [ | i], k as [ | k]; simpl; try reflexivity.
    apply IH.
Qed.

Lemma swap_length (i j : nat) (l : list A) :
  List.length (swap i j l) = List.length l.
Proof.
  unfold swap. destruct (nth_error l i), (nth_error l j); try reflexivity.
  rewrite !updateAt_length. reflexivity.
Qed.

Lemma swap_nth_error (i j k : nat) (l : list A) :
  (i < List.length l)%nat -> (j < List.length l)%nat ->
  nth_error (swap i j l) k = nth_error l (swapped i j k).
Proof.
  intros Hi Hj. unfold swap, swapped.
  destruct (nth_error l i) as [x | ] eqn:Ei;
    [ | apply nth_error_None in Ei; lia].
  destruct (nth_error l j) as [y | ] eqn:Ej;
    [ | apply nth_error_None in Ej; lia].
  rewrite !nth_error_updateAt.
  destruct (Nat.eqb_spec k j) as [-> | NEj].
  - destruct (Nat.eqb_spec j i) as [-> | NEi].
    + rewrite Ei. reflexivity.
    + rewrite Ej, Ei. reflexivity.
  - destruct (Nat.eqb_spec k i) as [-> | NEi].
    + rewrite Ei, Ej. reflexivity.
    + reflexivity.
Qed.

Lemma swap_NoDup (i j : nat) (l : list A) : NoDup l -> NoDup (swap i j l).
Proof.
  intro Hnd.
  destruct (Nat.lt_ge_cases i (List.length l)) as [Hi | Hi];
    [ | unfold swap; rewrite (proj2 (nth_error_None l i) Hi); exact Hnd].
  destruct (Nat.lt_ge_cases j (List.length l)) as [Hj | Hj];
    [ | unfold swap; rewrite (proj2 (nth_error_None l j) Hj);
        destruct (nth_error l i); exact Hnd].
  apply NoDup_nth_error. intros a b Ha E.
  rewrite swap_length in Ha. rewrite !swap_nth_error in E by assumption.
  pose proof (proj1 (NoDup_nth_error l) Hnd (swapped i j a) (swapped i j b))
    as Hinj.
  assert (swapped i j a = swapped i j b) as Es.
  { apply Hinj; [ | exact E]. unfold swapped.
    destruct (a =? j)%nat, (a =? i)%nat; assumption. }
  unfold swapped in Es.
  destruct (Nat.eqb_spec a j), (Nat.eqb_spec a i),
    (Nat.eqb_spec b j), (Nat.eqb_spec b i); lia.
Qed.

Lemma shuffleLoop_length (rnd : nat -> nat) (i : nat) :
  forall l : list A, List.length (shuffleLoop rnd i l) = List.length l.
Proof.
  induction i as [ | i IH]; intro l; simpl; [reflexivity | ].
  rewrite IH. apply swap_length.
Qed.

Lemma shuffleLoop_NoDup (rnd : nat -> nat) (i : nat) :
  forall l : list A, NoDup l -> NoDup (shuffleLoop rnd i l).
Proof.
  induction i as [ | i IH]; intros l H; simpl; [exact H | ].
  apply IH. apply swap_NoDup. exact H.
Qed.

Lemma shuffleDeck_length (rnd : nat -> nat) (deck : list A) :
  List.length (shuffleDeck rnd deck) = List.length deck.
Proof. apply shuffleLoop_length. Qed.

Lemma shuffleDeck_NoDup (rnd : nat -> nat) (deck : list A) :
  NoDup deck -> NoDup (shuffleDeck rnd deck).
Proof. apply shuffleLoop_NoDup. Qed.

End Shuffle.

(** ** The deal of [createInitialGameState] *)

Lemma topsFaceUpb_true (w : World) : topsFaceUpb w = true -> topsFaceUp w.
Proof.
  unfold topsFaceUpb, topsFaceUp. rewrite forallb_forall, Forall_forall.
  intros H pile Hp. specialize (H pile Hp). unfold topFaceUp.
  destruct (lastOpt pile); [exact H | exact I].
Qed.

Lemma createInitialGameState_unfold (rnd : nat -> nat) :
  createInitialGameState rnd =
  let r := dealCards (shuffleDeck rnd deckRefs) deckStore in
  (heap (snd r),
   mkState (snd (fst r)) [] emptyFoundations (fst (fst r)) None 0 0 0 false
     false (mkStats 0 0 0) [] 1 defaultSettings).
Proof.
  unfold createInitialGameState, deckRefs, deckStore.
  destruct (allocAll createDeck emptyStore) as [deck s0].
  cbv beta iota zeta delta [fst snd].
  destruct (dealCards (shuffleDeck rnd deck) s0) as [[t st] s1]. reflexivity.
Qed.

Lemma deckRefs_length : List.length deckRefs = 52%nat.
Proof. by_evaluation. Qed.

(** Evaluate a fact about the fresh deal of [createInitialGameState] for
    an arbitrary shuffle: the deal reads the shuffled deck only for the
    cards' contents. *)
Ltac evaluate_deal rnd :=
  let Hlen := fresh "Hlen" in
  let deck := fresh "deck" in
  rewrite (createInitialGameState_unfold rnd);
  pose proof (shuffleDeck_length rnd deckRefs) as Hlen;
  rewrite deckRefs_length in Hlen;
  generalize dependent (shuffleDeck rnd deckRefs); intros deck Hlen;
  unfold dealCards; rewrite Hlen; vm_compute; reflexivity.

(** X1: the deal of [createInitialGameState], whatever the shuffle:
    columns of 1 to 7 cards with only the last dealt card of each
    face-up, the 24 other cards in the stock, face-down, and nothing else
    on the board: waste, foundations and history are empty. *)
Lemma createInitialGameState_layout (rnd : nat -> nat) :
  let w := createInitialGameState rnd in
  map (flags (fst w)) (tableau (snd w)) =
    [[true]; [false; true]; [false; false; true];
     [false; false; false; true]; [false; false; false; false; true];
     [false; false; false; false; false; true];
     [false; false; false; false; false; false; true]] /\
  flags (fst w) (stock (snd w)) = repeat false 24 /\
  waste (snd w) = [] /\
  foundations (snd w) = emptyFoundations /\
  gameHistory (snd w) = [].
Proof.
  intro w. unfold w. conjuncts; evaluate_deal rnd.
Qed.

Lemma createInitialGameState_tidy (rnd : nat -> nat) :
  tidy (createInitialGameState rnd).
Proof.
  split; [ | split].
  - apply topsFaceUpb_true. evaluate_deal rnd.
  - evaluate_deal rnd.
  - replace (gameHistory (snd (createInitialGameState rnd)))
      with (@nil Snapshot) by (symmetry; evaluate_deal rnd).
    constructor.
Qed.

(** ** The deal of [GameEngine.initializeGame], whatever the shuffle *)

Lemma distinctRefs_NoDup (l : list nat) : distinctRefs l = true -> NoDup l.
Proof.
  induction l as [ | x t IH]; simpl; [constructor | ].
  rewrite andb_true_iff, negb_true_iff. intros [Hx Ht].
  constructor; [ | apply IH, Ht].
  intro Hin. assert (existsb (Nat.eqb x) t = true) as E.
  { apply existsb_exists. exists x. split; [exact Hin | apply Nat.eqb_refl]. }
  congruence.
Qed.

Lemma NoDup_map_nth (l : list ref) (ks : list nat) :
  NoDup l -> NoDup ks -> Forall (fun k => (k < List.length l)%nat) ks ->
  NoDup (map (fun k => nth k l O) ks).
Proof.
  intros Hl. induction ks as [ | k rest IH]; intros Hks Hlt; simpl.
  - constructor.
  - inversion Hks as [ | ? ? Hk Hrest]; subst.
    inversion Hlt as [ | ? ? Hk1 Hrest1]; subst.
    constructor; [ | apply IH; assumption].
    intro Hin. apply in_map_iff in Hin. destruct Hin as (k' & E & Hk').
    assert (k' = k) as ->; [ | contradiction].
    apply (proj1 (NoDup_nth l O) Hl); [ | exact Hk1 | exact E].
    apply (proj1 (Forall_forall _ _) Hrest1). exact Hk'.
Qed.

Lemma In_map_nth (l : list ref) (ks : list nat) (i : nat) :
  NoDup l -> (i < List.length l)%nat ->
  Forall (fun k => (k < List.length l)%nat) ks ->
  In (nth i l O) (map (fun k => nth k l O) ks) -> In i ks.
Proof.
  intros Hl Hi Hlt Hin. apply in_map_iff in Hin.
  destruct Hin as (k & E & Hk).
  assert (k = i) as <-; [ | exact Hk].
  apply (proj1 (NoDup_nth l O) Hl); [ | exact Hi | exact E].
  apply (proj1 (Forall_forall _ _) Hlt). exact Hk.
Qed.

Lemma initializeGame_unfold (rnd : nat -> nat) :
  GameEngine.initializeGame rnd =
  match GameEngine.dealTableau (heap engineStore)
          (shuffleDeck rnd engineRefs) with
  | TypeError => TypeError
  | Normal (h, t) =>
      Normal
        (h,
         mkState (skipn 28 (shuffleDeck rnd engineRefs)) [] emptyFoundations
           t None 0 0 0 false false (mkStats 0 0 0) [] 1 defaultSettings)
  end.
Proof.
  unfold GameEngine.initializeGame, engineRefs, engineStore.
  destruct (allocAll GameEngine.createDeck emptyStore) as [deck s0].
  reflexivity.
Qed.

Lemma dealTableauTurn_in_range (deck : list ref) (h : Heap)
  (t : list (list ref)) (i j : nat) :
  (i * 7 + j < List.length deck)%nat ->
  GameEngine.dealTableauTurn deck (Normal (h, t)) (i, j) =
  Normal (dealWrite deck h (i, j), dealPush deck t (i, j)).
Proof.
  intro Hc. unfold GameEngine.dealTableauTurn.
  rewrite (nth_error_nth' deck O Hc). reflexivity.
Qed.

Lemma dealTableau_fold (deck : list ref) (cells : list (nat * nat)) :
  Forall (fun c => (fst c * 7 + snd c < List.length deck)%nat) cells ->
  forall (h : Heap) (t : list (list ref)),
    fold_left (GameEngine.dealTableauTurn deck) cells (Normal (h, t)) =
    Normal (fold_left (dealWrite deck) cells h,
            fold_left (dealPush deck) cells t).
Proof.
  induction cells as [ | [i j] rest IH]; intros Hin h t; [reflexivity | ].
  inversion Hin as [ | ? ? Hc Hrest]; subst. simpl in Hc.
  cbn [fold_left]. rewrite (dealTableauTurn_in_range deck h t i j Hc).
  apply (IH Hrest).
Qed.

Lemma dealWrites_frame (deck : list ref) (cells : list (nat * nat)) :
  forall (h : Heap) (r : ref),
    ~ In r (map (cellRef deck) cells) ->
    fold_left (dealWrite deck) cells h r = h r.
Proof.
  induction cells as [ | c rest IH]; intros h r Hr; [reflexivity | ].
  simpl fold_left. rewrite IH by (intro; apply Hr; right; assumption).
  unfold dealWrite. apply upd_other. intros ->. apply Hr. left. reflexivity.
Qed.

Lemma dealWrites_faceUp (deck : list ref) (cells : list (nat * nat)) :
  NoDup (map (cellRef deck) cells) ->
  forall (h : Heap) (c : nat * nat),
    In c cells ->
    faceUp (fold_left (dealWrite deck) cells h (cellRef deck c))
      = (fst c =? snd c)%nat.
Proof.
  induction cells as [ | c' rest IH]; intros Hnd h c Hc; [contradiction | ].
  inversion Hnd as [ | ? ? Hfresh Hrest]; subst. simpl fold_left.
  destruct (in_dec Nat.eq_dec (cellRef deck c) (map (cellRef deck) rest))
    as [Hin | Hout].
  - destruct Hc as [-> | Hc]; [contradiction | ]. apply IH; assumption.
  - destruct Hc as [-> | Hc];
      [ | exfalso; apply Hout, in_map, Hc].
    rewrite dealWrites_frame by exact Hout.
    unfold dealWrite. rewrite upd_same. reflexivity.
Qed.

Lemma dealWrites_id (deck : list ref) (cells : list (nat * nat)) :
  forall (h : Heap) (r : ref),
    id (fold_left (dealWrite deck) cells h r) = id (h r).
Proof.
  induction cells as [ | c rest IH]; intros h r; [reflexivity | ].
  simpl fold_left. rewrite IH. unfold dealWrite, upd.
  destruct (Nat.eqb_spec r (cellRef deck c)) as [-> | _]; reflexivity.
Qed.

(** Membership in a list given by its elements. *)
Ltac in_list := vm_compute; repeat (first [left; reflexivity | right]).

Lemma dealCells_in_range (c : nat * nat) :
  In c dealCells -> (fst c * 7 + snd c < 52)%nat.
Proof.
  intro Hc. vm_compute in Hc.
  repeat (destruct Hc as [<- | Hc]; [simpl; lia | ]). contradiction.
Qed.

(** [dealTableau] on a deck of 52 distinct card objects: the columns hold
    the cards at [enginePositions], each card dealt is face-up exactly when
    it closes its column, and no id changes. *)
Lemma dealTableau_spec (h : Heap) (deck : list ref) :
  List.length deck = 52%nat -> NoDup deck ->
  exists h' : Heap,
    GameEngine.dealTableau h deck =
      Normal (h', map (map (fun k => nth k deck O)) enginePositions) /\
    (forall c, In c dealCells ->
       faceUp (h' (cellRef deck c)) = (fst c =? snd c)%nat) /\
    (forall r, id (h' r) = id (h r)).
Proof.
  intros Hlen Hnd. unfold GameEngine.dealTableau.
  rewrite dealTableau_fold.
  2:{ apply Forall_forall. intros c Hc. rewrite Hlen.
      apply dealCells_in_range, Hc. }
  eexists. split; [reflexivity | ]. split.
  - apply dealWrites_faceUp.
    replace (map (cellRef deck) dealCells)
      with (map (fun k => nth k deck O)
              (map (fun c : nat * nat => (fst c * 7 + snd c)%nat) dealCells))
      by (rewrite map_map; reflexivity).
    apply NoDup_map_nth; [exact Hnd | | ].
    + apply distinctRefs_NoDup. reflexivity.
    + rewrite Hlen. apply Forall_forall. intros k Hk.
      apply in_map_iff in Hk. destruct Hk as (c & <- & Hc).
      apply dealCells_in_range, Hc.
  - apply dealWrites_id.
Qed.

Lemma swap_incl {A : Type} (i j : nat) (l : list A) : incl (swap i j l) l.
Proof.
  destruct (Nat.lt_ge_cases i (List.length l)) as [Hi | Hi];
    [ | unfold swap; rewrite (proj2 (nth_error_None l i) Hi);
        apply incl_refl].
  destruct (Nat.lt_ge_cases j (List.length l)) as [Hj | Hj];
    [ | unfold swap; rewrite (proj2 (nth_error_None l j) Hj);
        destruct (nth_error l i); apply incl_refl].
  intros x Hx. apply In_nth_error in Hx. destruct Hx as [k Hk].
  rewrite swap_nth_error in Hk by assumption.
  eapply nth_error_In. exact Hk.
Qed.

Lemma shuffleDeck_incl {A : Type} (rnd : nat -> nat) (deck : list A) :
  incl (shuffleDeck rnd deck) deck.
Proof.
  unfold shuffleDeck. generalize (List.length deck - 1)%nat as i.
  intro i. revert deck. induction i as [ | i IH]; intro deck; simpl.
  - apply incl_refl.
  - eapply incl_tran; [apply IH | apply swap_incl].
Qed.

Lemma engineRefs_seq : engineRefs = seq 0 52.
Proof. by_evaluation. Qed.

(** [initializeGame] returns, whatever the shuffle; the deck it deals is
    the 52 card objects of [createDeck] in some order. *)
Lemma initializeGame_spec (rnd : nat -> nat) :
  exists (deck : list ref) (h' : Heap),
    List.length deck = 52%nat /\ NoDup deck /\ incl deck (seq 0 52) /\
    GameEngine.initializeGame rnd = Normal (h', engineState deck) /\
    (forall c, In c dealCells ->
       faceUp (h' (cellRef deck c)) = (fst c =? snd c)%nat) /\
    (forall r, id (h' r) = id (heap engineStore r)).
Proof.
  set (deck := shuffleDeck rnd engineRefs).
  assert (List.length deck = 52%nat) as Hlen
    by (unfold deck; rewrite shuffleDeck_length, engineRefs_seq; reflexivity).
  assert (NoDup deck) as Hnd
    by (unfold deck; apply shuffleDeck_NoDup; rewrite engineRefs_seq;
        apply seq_NoDup).
  destruct (dealTableau_spec (heap engineStore) deck Hlen Hnd)
    as (h' & Hdeal & Hflags & Hids).
  exists deck, h'. split; [exact Hlen | ]. split; [exact Hnd | ].
  split; [rewrite <- engineRefs_seq; apply shuffleDeck_incl | ].
  split; [ | split; [exact Hflags | exact Hids]].
  rewrite initializeGame_unfold. fold deck. rewrite Hdeal. reflexivity.
Qed.

Lemma engineState_tops (deck : list ref) (h' : Heap) :
  (forall c, In c dealCells ->
     faceUp (h' (cellRef deck c)) = (fst c =? snd c)%nat) ->
  topsFaceUp (h', engineState deck).
Proof.
  intro Hflags. unfold topsFaceUp. simpl fst. simpl snd.
  unfold engineState, enginePositions. simpl tableau. simpl map.
  repeat constructor; unfold topFaceUp; simpl lastOpt.
  - exact (Hflags (0, 0)%nat ltac:(in_list)).
  - exact (Hflags (1, 1)%nat ltac:(in_list)).
  - exact (Hflags (2, 2)%nat ltac:(in_list)).
  - exact (Hflags (3, 3)%nat ltac:(in_list)).
  - exact (Hflags (4, 4)%nat ltac:(in_list)).
  - exact (Hflags (5, 5)%nat ltac:(in_list)).
  - exact (Hflags (6, 6)%nat ltac:(in_list)).
Qed.

Lemma initializeGame_tidy (rnd : nat -> nat) (w : World) :
  GameEngine.initializeGame rnd = Normal w -> tidy w.
Proof.
  destruct (initializeGame_spec rnd)
    as (deck & h' & _ & _ & _ & Hinit & Hflags & _).
  rewrite Hinit. intros [= <-]. split; [ | split].
  - apply engineState_tops. exact Hflags.
  - reflexivity.
  - constructor.
Qed.

Lemma reachable_tidy (w : World) : reachable w -> tidy w.
Proof.
  induction 1 as [rnd | rnd w Hw | w m _ IH | w _ IH].
  - apply createInitialGameState_tidy.
  - eapply initializeGame_tidy. exact Hw.
  - apply makeMove_tidy. exact IH.
  - apply undo_tidy. exact IH.
Qed.

(** ** Successful moves *)

Lemma makeMove_success (w : World) (m : Move) :
  GameEngine.successOf (fst (GameEngine.makeMove w m)) = Normal true ->
  exists (res : MoveResult) (w1 : World),
    GameEngine.executeMove (fst w, pushed (snd w)) m = (Normal res, w1) /\
    success res = true /\
    GameEngine.makeMove w m =
      (Normal (mkResult true (set_canUndo true (newState res)) (error res)),
       (fst w1, set_canUndo true (snd w1))).
Proof.
  destruct w as [h g]. unfold GameEngine.makeMove. simpl fst. simpl snd.
  fold (pushed g).
  destruct (GameEngine.executeMove (h, pushed g) m) as [[res | ] [h' g']].
  - destruct (success res) eqn:Hs.
    + intros _. exists res, (h', g').
      split; [reflexivity | ]. split; [exact Hs | reflexivity].
    + simpl. rewrite Hs. discriminate.
  - discriminate.
Qed.

Lemma played_revealedAfter (bonus : Z) (h : Heap) (g g3 : GameState)
  (res : MoveResult) (w1 : World) :
  played bonus (h, pushed g) g3 (Normal res, w1) ->
  revealedAfter bonus (h, g) (fst w1, set_canUndo true (snd w1)).
Proof.
  intros (_ & Hm & Hs & _ & Hr & _). cbn [fst snd] in Hm, Hs, Hr. subst w1.
  destruct (revealHiddenCards_spec h g3) as (Hg & Hf & Hn & Htops & _).
  cbv zeta in Hg, Hf, Hn, Htops.
  unfold revealedAfter, topsFaceUp in *. cbn [fst snd] in *.
  rewrite Hg in *.
  cbn [moves score tableau set_canUndo set_score set_gameHistory pushed]
    in *.
  split; [exact Hm | ]. split; [lia | ].
  split; [exact Hf | ]. split; [exact Hn | exact Htops].
Qed.

Lemma rejected_not_success (w : World) (res : MoveResult) (w1 : World) :
  rejected w (Normal res, w1) -> success res = true -> False.
Proof.
  intros [_ [H | [msg H]]] Hs; simpl in H; [discriminate H | ].
  injection H as ->. discriminate Hs.
Qed.

Lemma revealedAfter_parts (bonus : Z) (w w' : World) :
  revealedAfter bonus w w' ->
  turnedAfter w w' /\ creditedAfter bonus w w'.
Proof.
  unfold revealedAfter, turnedAfter, creditedAfter.
  intros (Hm & Hs & Hf & Hn & Ht). repeat split; assumption.
Qed.

(** C10: in every world reached from a fresh deal of either dealer the top
    card of every non-empty tableau column is face-up.  A successful
    foundation move (10 points) or tableau move (one point per card moved)
    ends with the face-down top of every column turned, no other card
    changed and all tops face-up, and, the counters being in the range in
    which the code counts exactly, with the move counted and 5 points
    credited for each card turned; the fresh deals have every top
    face-up, and those moves aside no reachable move changes a top (the
    waste of a reachable world is empty). *)
Theorem tableau_tops_face_up :
  (forall w : World, reachable w -> topsFaceUp w /\ waste (snd w) = []) /\
  (forall rnd : nat -> nat, topsFaceUp (createInitialGameState rnd)) /\
  (forall (rnd : nat -> nat) (w : World),
     GameEngine.initializeGame rnd = Normal w -> topsFaceUp w) /\
  (forall (w : World) (m : Move),
     GameEngine.successOf (fst (GameEngine.makeMove w m)) = Normal true ->
     (type m = MFoundation ->
      turnedAfter w (snd (GameEngine.makeMove w m)) /\
      (countersExact (snd w) ->
       creditedAfter 10 w (snd (GameEngine.makeMove w m)))) /\
     (type m = MTableau ->
      turnedAfter w (snd (GameEngine.makeMove w m)) /\
      exists card : ref,
        GameEngine.findCard (fst w) (snd w) (cardId m) = Some card /\
        (countersExact (snd w) ->
         creditedAfter
           (Z.of_nat
              (List.length (GameEngine.getCardsToMove (fst w) (snd w) card)))
           w (snd (GameEngine.makeMove w m))))).
Proof.
  split; [ | split; [ | split]].
  - intros w Hw. apply reachable_tidy in Hw. destruct Hw as (Ht & Hwaste & _).
    split; assumption.
  - intro rnd. apply createInitialGameState_tidy.
  - intros rnd w Hw. apply (initializeGame_tidy rnd w Hw).
  - intros [h g] m Hsucc.
    destruct (makeMove_success (h, g) m Hsucc) as (res & w1 & He & Hs & Hm).
    rewrite Hm. simpl fst in *. simpl snd in *.
    unfold GameEngine.executeMove in He. split; intro Hty; rewrite Hty in He.
    + destruct (moveToFoundation_cases (h, pushed g) m) as [H | [g3 H]];
        rewrite He in H.
      * exfalso. exact (rejected_not_success _ _ _ H Hs).
      * destruct (revealedAfter_parts _ _ _
                    (played_revealedAfter _ _ _ _ _ _ H)) as [Ht Hc].
        split; [exact Ht | intros _; exact Hc].
    + destruct (moveToTableau_cases (h, pushed g) m)
        as [H | (card & g3 & Hfind & H)]; rewrite He in H.
      * exfalso. exact (rejected_not_success _ _ _ H Hs).
      * destruct (revealedAfter_parts _ _ _
                    (played_revealedAfter _ _ _ _ _ _ H)) as [Ht Hc].
        split; [exact Ht | ].
        exists card. split; [exact Hfind | intros _; exact Hc].
Qed.

Lemma tableau_tops_face_up_witness :
  (topsFaceUp (snd afterMove) /\ waste (snd (snd afterMove)) = []) /\
  turnedAfter freshDeal (snd afterMove) /\
  creditedAfter 10 freshDeal (snd afterMove).
Proof.
  split.
  - apply (proj1 tableau_tops_face_up).
    apply reach_makeMove. apply reach_createInitialGameState.
  - destruct (proj1 (proj2 (proj2 (proj2 tableau_tops_face_up))
                       freshDeal aceOfHearts ltac:(vm_compute; reflexivity))
                eq_refl) as [Ht Hc].
    split; [exact Ht | ]. apply Hc. in_exact_range.
Defined.

(** ** Validation, rejection and undo in general *)

(** [isValidMove] is [executeMove] with the result cut down to its
    [success] field. *)
Lemma isValidMove_executes (w : World) (m : Move) :
  GameEngine.isValidMove w m =
  (GameEngine.successOf (fst (GameEngine.executeMove w m)),
   snd (GameEngine.executeMove w m)).
Proof.
  unfold GameEngine.isValidMove, GameEngine.executeMove.
  destruct (type m); reflexivity.
Qed.

Lemma rejected_successOf (w : World) (r : Completion MoveResult * World) :
  rejected w r -> GameEngine.successOf (fst r) <> Normal true.
Proof.
  intros [_ [H | [msg H]]]; rewrite H; simpl; discriminate.
Qed.

(** X2: whenever [isValidMove] answers [true] on a board whose move
    counter is in the range in which [moves++] is exact, the board has one
    more move on its counter: no valid move is validated without being
    played. *)
Lemma isValidMove_true_counts (w : World) (m : Move) :
  movesExact (snd w) ->
  fst (GameEngine.isValidMove w m) = Normal true ->
  moves (snd (snd (GameEngine.isValidMove w m))) = moves (snd w) + 1.
Proof.
  rewrite isValidMove_executes. cbn [fst snd]. intros _ Hs.
  destruct (executeMove_cases w m) as [H | (_ & Hm & _)]; [ | exact Hm].
  exfalso. exact (rejected_successOf _ _ H Hs).
Qed.

(** A call of [makeMove] that does not succeed (it returns an error, or
    throws) leaves the store and the state as they were, except that the
    snapshot pushed before validation stays on the history. *)
Lemma makeMove_rejected_pushes (w : World) (m : Move) :
  GameEngine.successOf (fst (GameEngine.makeMove w m)) <> Normal true ->
  snd (GameEngine.makeMove w m) = (fst w, pushed (snd w)).
Proof.
  destruct w as [h g]. unfold GameEngine.makeMove. cbn [fst snd].
  fold (pushed g).
  destruct (executeMove_cases (h, pushed g) m) as [[Hw _] | (Hres & _)].
  - destruct (GameEngine.executeMove (h, pushed g) m) as [[res | ] [h' g']];
      cbn [fst snd] in *; [ | intros _; exact Hw].
    destruct (success res) eqn:Hs; [ | intros _; exact Hw].
    cbn [fst GameEngine.successOf success]. intro H. exfalso. apply H.
    reflexivity.
  - destruct (GameEngine.executeMove (h, pushed g) m) as [[res | ] [h' g']];
      cbn [fst snd] in *; [ | discriminate Hres].
    injection Hres as ->. cbn [success succeeded fst GameEngine.successOf].
    intro H. exfalso. apply H. reflexivity.
Qed.

(** After a successful move, [undo] gives back the piles and the history
    of the board before the move, but the move counter stays one ahead
    (of a counter in the range in which [moves++] is exact). *)
Lemma undo_after_makeMove (w : World) (m : Move) :
  movesExact (snd w) ->
  GameEngine.successOf (fst (GameEngine.makeMove w m)) = Normal true ->
  let u := GameEngine.undo (snd (GameEngine.makeMove w m)) in
  success (fst u) = true /\
  stock (newState (fst u)) = stock (snd w) /\
  waste (newState (fst u)) = waste (snd w) /\
  foundations (newState (fst u)) = foundations (snd w) /\
  tableau (newState (fst u)) = tableau (snd w) /\
  gameHistory (newState (fst u)) = gameHistory (snd w) /\
  moves (newState (fst u)) = moves (snd w) + 1.
Proof.
  intros _ Hsucc.
  destruct (makeMove_success w m Hsucc) as (res & w1 & He & Hs & Hm).
  rewrite Hm. cbn [snd].
  destruct (executeMove_cases (fst w, pushed (snd w)) m)
    as [H | (_ & Hmoves & Hhist)]; rewrite He in *.
  - exfalso. exact (rejected_not_success _ _ _ H Hs).
  - cbn [fst snd pushed gameHistory moves set_gameHistory] in Hmoves, Hhist.
    destruct w1 as [h1 g1]. cbn [fst snd] in *.
    unfold GameEngine.undo.
    cbn [gameHistory set_canUndo]. rewrite Hhist, lastOpt_app.
    cbn [fst snd newState succeeded success stock waste foundations tableau
         gameHistory moves set_gameHistory set_canUndo GameEngine.snapshot
         snap_stock snap_waste snap_foundations snap_tableau].
    rewrite removelast_last.
    repeat split; try reflexivity. exact Hmoves.
Qed.

(** ** What [GameEngine.initializeGame] deals, whatever the shuffle *)

Lemma engineState_allCards (deck : list ref) :
  List.length deck = 52%nat ->
  GameEngine.allCards (engineState deck)
  = map (fun k => nth k deck O) enginePilePositions.
Proof.
  intro Hlen.
  do 52 (destruct deck as [ | ? deck]; [discriminate Hlen | ]).
  destruct deck; [reflexivity | discriminate Hlen].
Qed.

Lemma engineStore_cards :
  map (heap engineStore) (seq 0 52) = GameEngine.createDeck.
Proof. by_evaluation. Qed.

Lemma engineStore_ids_injective (r1 r2 : ref) :
  In r1 (seq 0 52) -> In r2 (seq 0 52) ->
  id (heap engineStore r1) = id (heap engineStore r2) -> r1 = r2.
Proof.
  apply (NoDup_map_injective (fun r => id (heap engineStore r))).
  apply distinct_NoDup. by_evaluation.
Qed.

Lemma enginePilePositions_in_range (deck : list ref) :
  List.length deck = 52%nat ->
  Forall (fun k => (k < List.length deck)%nat) enginePilePositions.
Proof.
  intro Hlen. rewrite Hlen. apply Forall_forall. intros k Hk.
  vm_compute in Hk.
  repeat (destruct Hk as [<- | Hk]; [lia | ]). contradiction.
Qed.

(** C5: whatever the shuffle, [GameEngine.initializeGame] returns a board
    whose piles have 52 entries but not the 52 cards: a card object of the
    stock is also in a column, so ids repeat, and a card of the deck is in
    no pile. *)
Theorem initializeGame_breaks_conservation (rnd : nat -> nat) :
  exists w : World,
    GameEngine.initializeGame rnd = Normal w /\
    List.length (cardIds w) = 52%nat /\
    (exists r : ref,
       In r (stock (snd w)) /\ In r (List.concat (tableau (snd w)))) /\
    ~ NoDup (cardIds w) /\
    (exists c : Card, In c GameEngine.createDeck /\ ~ In (id c) (cardIds w)).
Proof.
  destruct (initializeGame_spec rnd)
    as (deck & h' & Hlen & Hnd & Hincl & Hinit & _ & Hids).
  exists (h', engineState deck). split; [exact Hinit | ].
  unfold cardIds. cbn [fst snd].
  pose proof (engineState_allCards deck Hlen) as Hall.
  pose proof (enginePilePositions_in_range deck Hlen) as Hrange.
  split; [ | split; [ | split]].
  - rewrite Hall, !length_map. reflexivity.
  - exists (nth 32 deck O). split.
    + apply (nth_error_In _ 4). unfold engineState. cbn [stock].
      rewrite nth_error_skipn. apply nth_error_nth'. rewrite Hlen. lia.
    + unfold engineState. cbn [tableau]. in_list.
  - intro H. apply NoDup_map_inv in H. rewrite Hall in H.
    assert (4 = 38)%nat as E; [ | discriminate E].
    apply (proj1 (NoDup_nth_error _) H).
    + rewrite length_map. vm_compute. lia.
    + reflexivity.
  - exists (heap engineStore (nth 7 deck O)).
    assert (In (nth 7 deck O) (seq 0 52)) as H7
      by (apply Hincl, nth_In; rewrite Hlen; lia).
    split.
    + rewrite <- engineStore_cards. apply in_map. exact H7.
    + intro H. apply in_map_iff in H. destruct H as (r & E & Hr).
      rewrite Hids in E. rewrite Hall in Hr.
      assert (In r (seq 0 52)) as Hr52.
      { apply in_map_iff in Hr. destruct Hr as (k & <- & Hk).
        apply Hincl, nth_In. exact (proj1 (Forall_forall _ _) Hrange k Hk). }
      apply (engineStore_ids_injective r _ Hr52 H7) in E. subst r.
      apply (In_map_nth deck _ 7 Hnd) in Hr;
        [ | rewrite Hlen; lia | exact Hrange].
      vm_compute in Hr.
      repeat (destruct Hr as [Hr | Hr]; [discriminate Hr | ]). exact Hr.
Qed.

(** C8: whatever the shuffle, [GameEngine.initializeGame] deals columns
    of 1 to 7 cards and a stock of 24, but the fifth card of the stock is
    the card object on top of the fifth column, and it is face-up: the
    stock is not the remaining cards and not all face-down. *)
Theorem initializeGame_stock_not_face_down (rnd : nat -> nat) :
  exists (w : World) (topCard : ref),
    GameEngine.initializeGame rnd = Normal w /\
    map (@List.length ref) (tableau (snd w)) = [1; 2; 3; 4; 5; 6; 7]%nat /\
    List.length (stock (snd w)) = 24%nat /\
    nth_error (stock (snd w)) 4 = Some topCard /\
    option_map lastOpt (nth_error (tableau (snd w)) 4)
      = Some (Some topCard) /\
    faceUp (fst w topCard) = true.
Proof.
  destruct (initializeGame_spec rnd)
    as (deck & h' & Hlen & _ & _ & Hinit & Hflags & _).
  exists (h', engineState deck), (nth 32 deck O).
  split; [exact Hinit | ]. cbn [fst snd]. unfold engineState.
  cbn [stock tableau].
  split; [reflexivity | ].
  split; [rewrite length_skipn, Hlen; reflexivity | ].
  split; [rewrite nth_error_skipn; apply nth_error_nth'; rewrite Hlen; lia | ].
  split; [reflexivity | ].
  exact (Hflags (4, 4)%nat ltac:(in_list)).
Qed.

(** ** The cards of a board stay the cards of the deal *)

Lemma removeAt_incl {A : Type} (i : nat) (l : list A) : incl (removeAt i l) l.
Proof.
  unfold removeAt. intros x Hx. apply in_app_or in Hx.
  destruct Hx as [Hx | Hx].
  - rewrite <- (firstn_skipn i l). apply in_or_app. left. exact Hx.
  - rewrite <- (firstn_skipn (S i) l). apply in_or_app. right. exact Hx.
Qed.

Lemma skipn_incl {A : Type} (i : nat) (l : list A) : incl (skipn i l) l.
Proof.
  intros x Hx. rewrite <- (firstn_skipn i l). apply in_or_app. right. exact Hx.
Qed.

Lemma removelast_incl {A : Type} (l : list A) : incl (removelast l) l.
Proof.
  induction l as [ | x t IH]; [apply incl_refl | ].
  simpl. destruct t as [ | y t']; [intros z [] | ].
  intros z [-> | Hz]; [left; reflexivity | right; apply IH, Hz].
Qed.

Lemma removeFromFirst_incl (p : ref -> bool) (piles piles' : list (list ref)) :
  GameEngine.removeFromFirst p piles = Some piles' ->
  incl (List.concat piles') (List.concat piles) /\
  List.length piles' = List.length piles.
Proof.
  revert piles'. induction piles as [ | pile rest IH]; intros piles' H;
    [discriminate H | ].
  simpl in H. destruct (findIndex p pile) as [i | ].
  - injection H as <-. split; [ | reflexivity]. simpl.
    apply incl_app_app; [apply removeAt_incl | apply incl_refl].
  - destruct (GameEngine.removeFromFirst p rest) as [rest' | ];
      [ | discriminate H].
    injection H as <-. destruct (IH rest' eq_refl) as [Hi Hl].
    split; [ | simpl; rewrite Hl; reflexivity]. simpl.
    apply incl_app_app; [apply incl_refl | exact Hi].
Qed.

Lemma foundationValues_ofValues (f : Foundations) (v : list (list ref)) :
  List.length v = 4%nat ->
  foundationValues (GameEngine.foundationsOfValues f v) = v.
Proof.
  intro H.
  do 4 (destruct v as [ | ? v]; [discriminate H | ]).
  destruct v; [reflexivity | discriminate H].
Qed.

Lemma removeCardFromSource_incl (h : Heap) (g : GameState) (c : ref) :
  incl (GameEngine.allCards (GameEngine.removeCardFromSource h g c))
    (GameEngine.allCards g).
Proof.
  unfold GameEngine.removeCardFromSource, GameEngine.allCards.
  destruct (findIndex (GameEngine.sameId h c) (stock g)) as [i | ].
  { simpl. apply incl_app_app; [apply removeAt_incl | apply incl_refl]. }
  destruct (findIndex (GameEngine.sameId h c) (waste g)) as [i | ].
  { simpl. apply incl_app_app; [apply incl_refl | ].
    apply incl_app_app; [apply removeAt_incl | apply incl_refl]. }
  destruct (GameEngine.removeFromFirst (GameEngine.sameId h c) (tableau g))
    as [t | ] eqn:Et.
  { simpl. apply removeFromFirst_incl in Et. destruct Et as [Et _].
    do 2 (apply incl_app_app; [apply incl_refl | ]).
    apply incl_app_app; [exact Et | apply incl_refl]. }
  destruct (GameEngine.removeFromFirst (GameEngine.sameId h c)
              (foundationValues (foundations g))) as [v | ] eqn:Ev;
    [ | apply incl_refl].
  cbn [stock waste tableau foundations set_foundations].
  apply removeFromFirst_incl in Ev. destruct Ev as [Ev Hl].
  rewrite foundationValues_ofValues by exact Hl.
  do 3 (apply incl_app_app; [apply incl_refl | ]). exact Ev.
Qed.

Lemma removeAll_incl (h : Heap) (cards : list ref) :
  forall g : GameState,
    incl (GameEngine.allCards
            (fold_left (fun g' c => GameEngine.removeCardFromSource h g' c)
               cards g))
      (GameEngine.allCards g).
Proof.
  induction cards as [ | c rest IH]; intro g; simpl; [apply incl_refl | ].
  eapply incl_tran; [apply IH | apply removeCardFromSource_incl].
Qed.

Lemma findCard_In (h : Heap) (g : GameState) (cid : string) (card : ref) :
  GameEngine.findCard h g cid = Some card -> In card (GameEngine.allCards g).
Proof.
  unfold GameEngine.findCard. intro H. apply find_some in H. tauto.
Qed.

Lemma sliceFromFirst_incl (p : ref -> bool) (piles : list (list ref))
  (cards : list ref) :
  GameEngine.sliceFromFirst p piles = Some cards ->
  incl cards (List.concat piles).
Proof.
  induction piles as [ | pile rest IH]; intro H; [discriminate H | ].
  simpl in H. simpl. destruct (findIndex p pile) as [i | ].
  - injection H as <-. apply incl_appl. apply skipn_incl.
  - apply incl_appr. apply IH, H.
Qed.

Lemma getCardsToMove_incl (h : Heap) (g : GameState) (card : ref) :
  In card (GameEngine.allCards g) ->
  incl (GameEngine.getCardsToMove h g card) (GameEngine.allCards g).
Proof.
  intro Hc. unfold GameEngine.getCardsToMove.
  destruct (GameEngine.sliceFromFirst (GameEngine.sameId h card) (tableau g))
    as [cards | ] eqn:E.
  - apply sliceFromFirst_incl in E. unfold GameEngine.allCards.
    do 2 apply incl_appr. apply incl_appl. exact E.
  - intros x [<- | []]. exact Hc.
Qed.

Lemma updateAt_push_incl (i : nat) (cards : list ref)
  (t : list (list ref)) :
  incl (List.concat (updateAt i (fun pile => pile ++ cards) t))
    (List.concat t ++ cards).
Proof.
  revert i. induction t as [ | pile rest IH]; intros i; simpl.
  - intros x [].
  - destruct i as [ | i]; simpl.
    + intros x Hx. rewrite !in_app_iff in *. tauto.
    + intros x Hx. rewrite in_app_iff in Hx. destruct Hx as [Hx | Hx].
      * rewrite !in_app_iff. tauto.
      * apply IH in Hx. rewrite !in_app_iff in *. tauto.
Qed.

Lemma setFoundation_push_incl (f : Foundations) (s : Suit) (card : ref) :
  incl (List.concat
          (foundationValues
             (setFoundation f s (foundationOf f s ++ [card]))))
    (List.concat (foundationValues f) ++ [card]).
Proof.
  intros x Hx. destruct s; simpl in *;
    repeat rewrite in_app_iff in *; simpl in *; tauto.
Qed.

Lemma sameCards_refl (w : World) : sameCards w w.
Proof. split; [apply incl_refl | reflexivity]. Qed.

Lemma sameCards_trans (w1 w2 w3 : World) :
  sameCards w1 w2 -> sameCards w2 w3 -> sameCards w1 w3.
Proof.
  intros [A1 A2] [B1 B2]. split.
  - eapply incl_tran; eassumption.
  - intro r. rewrite B2. apply A2.
Qed.

Lemma reveal_sameCards (h : Heap) (g : GameState) :
  sameCards (h, g) (GameEngine.revealHiddenCards (h, g)).
Proof.
  destruct (revealHiddenCards_spec h g) as (Hg & Hf & Hn & _).
  cbv zeta in Hg, Hf, Hn. split.
  - rewrite Hg. apply incl_refl.
  - intro r. cbn [fst].
    destruct (in_dec Nat.eq_dec r (hiddenTops h (tableau g))) as [Hin | Hout].
    + rewrite (Hf r Hin). reflexivity.
    + rewrite (Hn r Hout). reflexivity.
Qed.

(** Show that a state after the cards moved holds no new card, then
    finish with [revealHiddenCards]. *)
Ltac then_reveal h g3 :=
  apply (sameCards_trans _ (h, g3));
  [split; [ | reflexivity] | apply reveal_sameCards].

Lemma allCards_pushFoundation (g : GameState) (s : Suit) (card : ref)
  (moves' score' : Z) :
  incl
    (GameEngine.allCards
       (set_score score'
          (set_moves moves'
             (set_foundations
                (setFoundation (foundations g) s
                   (foundationOf (foundations g) s ++ [card])) g))))
    (GameEngine.allCards g ++ [card]).
Proof.
  intros x Hx. unfold GameEngine.allCards in *.
  cbn [stock waste tableau foundations set_score set_moves set_foundations]
    in Hx.
  rewrite !in_app_iff in Hx. rewrite !in_app_iff.
  destruct Hx as [Hx | [Hx | [Hx | Hx]]]; try tauto.
  apply setFoundation_push_incl in Hx. rewrite in_app_iff in Hx. tauto.
Qed.

Lemma allCards_pushTableau (g : GameState) (i : nat) (cards : list ref)
  (moves' score' : Z) :
  incl
    (GameEngine.allCards
       (set_score score'
          (set_moves moves'
             (set_tableau
                (updateAt i (fun pile => pile ++ cards) (tableau g)) g))))
    (GameEngine.allCards g ++ cards).
Proof.
  intros x Hx. unfold GameEngine.allCards in *.
  cbn [stock waste tableau foundations set_score set_moves set_tableau] in Hx.
  rewrite !in_app_iff in Hx. rewrite !in_app_iff.
  destruct Hx as [Hx | [Hx | [Hx | Hx]]]; try tauto.
  apply updateAt_push_incl in Hx. rewrite in_app_iff in Hx. tauto.
Qed.

Lemma moveToFoundation_sameCards (w : World) (m : Move) :
  sameCards w (snd (GameEngine.moveToFoundation w m)).
Proof.
  destruct w as [h g]. unfold GameEngine.moveToFoundation.
  destruct (GameEngine.findCard h g (cardId m)) as [card | ] eqn:Ef;
    [ | apply sameCards_refl].
  apply findCard_In in Ef.
  assert (incl (GameEngine.allCards (GameEngine.removeCardFromSource h g card)
                  ++ [card])
            (GameEngine.allCards g)) as Hback.
  { apply incl_app; [apply removeCardFromSource_incl | ].
    intros x [<- | []]. exact Ef. }
  destruct (lastOpt (foundationOf (foundations g) (suit (h card)))) as [top | ];
    [destruct (negb (value (h card) =? value (h top) + 1))
    | destruct (negb (Rank_eqb (rank (h card)) RA))];
    try apply sameCards_refl; cbn [snd].
  all: match goal with
       | |- sameCards _ (GameEngine.revealHiddenCards (_, ?g3)) =>
           then_reveal h g3
       end.
  all: eapply incl_tran; [apply allCards_pushFoundation | exact Hback].
Qed.

Lemma moveToTableau_sameCards (w : World) (m : Move) :
  sameCards w (snd (GameEngine.moveToTableau w m)).
Proof.
  destruct w as [h g]. unfold GameEngine.moveToTableau.
  destruct (GameEngine.findCard h g (cardId m)) as [card | ] eqn:Ef;
    [ | apply sameCards_refl].
  apply findCard_In in Ef.
  destruct (targetIndex m) as [ti | ]; [ | apply sameCards_refl].
  destruct (at_ (tableau g) ti) as [targetPile | ]; [ | apply sameCards_refl].
  destruct (negb (GameEngine.canMoveToTableau h card targetPile));
    [apply sameCards_refl | ].
  cbn [snd].
  match goal with
  | |- sameCards _ (GameEngine.revealHiddenCards (_, ?g3)) =>
      then_reveal h g3
  end.
  eapply incl_tran; [apply allCards_pushTableau | ].
  apply incl_app; [apply removeAll_incl | ].
  apply getCardsToMove_incl. exact Ef.
Qed.

Lemma moveWasteToTableau_sameCards (w : World) (m : Move) :
  sameCards w (snd (GameEngine.moveWasteToTableau w m)).
Proof.
  destruct w as [h g]. unfold GameEngine.moveWasteToTableau.
  destruct (lastOpt (waste g)) as [card | ] eqn:Hw; [ | apply sameCards_refl].
  apply lastOpt_In in Hw.
  destruct (targetIndex m) as [ti | ]; [ | apply sameCards_refl].
  destruct (at_ (tableau g) ti) as [targetPile | ]; [ | apply sameCards_refl].
  destruct (negb (GameEngine.canMoveToTableau h card targetPile));
    [apply sameCards_refl | ].
  cbn [snd]. split; [ | reflexivity]. cbn [fst snd].
  eapply incl_tran; [apply allCards_pushTableau | ].
  apply incl_app.
  - unfold GameEngine.allCards. cbn [stock waste tableau foundations set_waste].
    apply incl_app_app; [apply incl_refl | ].
    apply incl_app_app; [apply removelast_incl | apply incl_refl].
  - intros x [<- | []]. unfold GameEngine.allCards. rewrite !in_app_iff. tauto.
Qed.

Lemma executeMove_sameCards (w : World) (m : Move) :
  sameCards w (snd (GameEngine.executeMove w m)).
Proof.
  unfold GameEngine.executeMove. destruct (type m);
    try apply sameCards_refl.
  - apply moveToFoundation_sameCards.
  - apply moveToTableau_sameCards.
  - apply moveWasteToTableau_sameCards.
Qed.

Lemma executeMove_history (w : World) (m : Move) :
  gameHistory (snd (snd (GameEngine.executeMove w m))) = gameHistory (snd w).
Proof.
  destruct (executeMove_cases w m) as [[-> _] | (_ & _ & H)];
    [reflexivity | exact H].
Qed.

Lemma idsInjectiveOn_same (h h' : Heap) (D : list ref) :
  (forall r, id (h' r) = id (h r)) ->
  idsInjectiveOn h D -> idsInjectiveOn h' D.
Proof.
  intros Hid Hinj r1 r2 H1 H2 E. rewrite !Hid in E. exact (Hinj r1 r2 H1 H2 E).
Qed.

Lemma executeMove_kept (D : list ref) (w : World) (m : Move) :
  kept D w -> kept D (snd (GameEngine.executeMove w m)).
Proof.
  intros (Hc & Hh & Hi).
  destruct (executeMove_sameCards w m) as [Hincl Hids].
  split; [eapply incl_tran; eassumption | ].
  split; [rewrite executeMove_history; exact Hh | ].
  exact (idsInjectiveOn_same _ _ _ Hids Hi).
Qed.

Lemma makeMove_kept (D : list ref) (w : World) (m : Move) :
  kept D w -> kept D (snd (GameEngine.makeMove w m)).
Proof.
  destruct w as [h g]. intros (Hc & Hh & Hi).
  assert (kept D (h, pushed g)) as H0.
  { split; [exact Hc | ]. split; [ | exact Hi].
    unfold pushed. cbn [snd gameHistory set_gameHistory].
    apply Forall_app. split; [exact Hh | ].
    constructor; [exact Hc | constructor]. }
  apply (executeMove_kept D _ m) in H0.
  unfold GameEngine.makeMove. fold (pushed g).
  destruct (GameEngine.executeMove (h, pushed g) m) as [[res | ] [h' g']];
    [ | exact H0].
  destruct (success res); exact H0.
Qed.

Lemma undo_kept (D : list ref) (w : World) :
  kept D w ->
  kept D (fst (snd (GameEngine.undo w)), newState (fst (GameEngine.undo w))).
Proof.
  destruct w as [h g]. intros (Hc & Hh & Hi). unfold GameEngine.undo.
  destruct (lastOpt (gameHistory g)) as [previousState | ] eqn:Hlast.
  - cbn [fst snd newState succeeded]. apply lastOpt_In in Hlast.
    pose proof (proj1 (Forall_forall _ _) Hh previousState Hlast) as Hp.
    split; [exact Hp | ]. split; [ | exact Hi].
    cbn [snd gameHistory]. apply Forall_removelast. exact Hh.
  - cbn [fst snd newState failure]. split; [exact Hc | ].
    split; [exact Hh | exact Hi].
Qed.

(** ** The copies of [dealCards] *)

Lemma dealCardsLoop_store (deck : list ref) (cells : list (nat * nat)) :
  forall (s : Store) (t : list (list ref)) (n : nat),
    fst (fst (fold_left (dealCardsTurn deck) cells (s, t, n)))
      = fold_left (copyStep deck)
          (combine (seq n (List.length cells))
             (map (fun c : nat * nat => (snd c =? fst c)%nat) cells)) s /\
    snd (fold_left (dealCardsTurn deck) cells (s, t, n))
      = (n + List.length cells)%nat.
Proof.
  induction cells as [ | [col row] rest IH]; intros s t n.
  - simpl. split; [reflexivity | lia].
  - cbn [fold_left List.length seq map combine].
    unfold dealCardsTurn at 2 4. cbn [alloc].
    destruct (IH (mkStore
                    (upd (heap s) (next s)
                       (setFaceUp (row =? col)%nat (spreadAt (heap s) deck n)))
                    (S (next s)))
                (updateAt row (fun pile => pile ++ [next s]) t) (S n))
      as [H1 H2].
    split; [exact H1 | rewrite H2; lia].
Qed.

Lemma dealStockLoop_store (deck : list ref) (idxs : list nat) :
  forall (s : Store) (st : list ref),
    fst (fold_left (dealStockTurn deck) idxs (s, st))
      = fold_left (copyStep deck) (map (fun i => (i, false)) idxs) s.
Proof.
  induction idxs as [ | i rest IH]; intros s st; [reflexivity | ].
  cbn [fold_left map]. unfold dealStockTurn at 2. cbn [alloc]. apply IH.
Qed.

Lemma dealCards_store (deck : list ref) (s : Store) :
  List.length deck = 52%nat ->
  snd (dealCards deck s) = fold_left (copyStep deck) dealCopies s.
Proof.
  intro Hlen. unfold dealCards, dealCopies. rewrite Hlen, fold_left_app.
  destruct (dealCardsLoop_store deck dealCells s (repeat [] 7) O) as [H1 H2].
  destruct (fold_left (dealCardsTurn deck) dealCells (s, repeat [] 7, O))
    as [[s1 t1] n1].
  cbn [fst snd] in H1, H2. subst n1.
  change (0 + List.length dealCells)%nat with 28%nat.
  change (52 - 28)%nat with 24%nat.
  change (List.length dealCells) with 28%nat in H1. rewrite <- H1.
  pose proof (dealStockLoop_store deck (seq 28 24) s1 []) as H3.
  destruct (fold_left (dealStockTurn deck) (seq 28 24) (s1, [])) as [s2 st2].
  exact H3.
Qed.

Lemma copyLoop_spec (deck : list ref) (steps : list (nat * bool)) :
  forall s : Store,
    (forall r, In r deck -> (r < next s)%nat) ->
    Forall (fun kb => (fst kb < List.length deck)%nat) steps ->
    next (fold_left (copyStep deck) steps s)
      = (next s + List.length steps)%nat /\
    (forall r, (r < next s)%nat ->
       heap (fold_left (copyStep deck) steps s) r = heap s r) /\
    (forall i kb, nth_error steps i = Some kb ->
       heap (fold_left (copyStep deck) steps s) (next s + i)%nat
         = setFaceUp (snd kb) (heap s (nth (fst kb) deck O))).
Proof.
  induction steps as [ | [k b] rest IH]; intros s Hdeck Hsteps.
  - simpl. split; [lia | ]. split; [reflexivity | ].
    intros [ | i] kb H; discriminate H.
  - inversion Hsteps as [ | ? ? Hk Hrest]; subst. cbn [fst] in Hk.
    cbn [fold_left]. unfold copyStep at 2 4 6. cbn [alloc snd fst].
    set (s1 := mkStore
                 (upd (heap s) (next s)
                    (setFaceUp b (spreadAt (heap s) deck k)))
                 (S (next s))).
    assert (forall r, In r deck -> (r < next s1)%nat) as Hdeck1
      by (intros r Hr; apply Hdeck in Hr; simpl; lia).
    destruct (IH s1 Hdeck1 Hrest) as (Hn & Hframe & Hcopy).
    assert (forall r, (r < next s)%nat -> heap s1 r = heap s r) as Hold
      by (intros r Hr; simpl; apply upd_other; lia).
    split; [rewrite Hn; simpl; lia | ].
    split; [intros r Hr; rewrite Hframe by (simpl; lia); apply Hold, Hr | ].
    intros [ | i] kb Hi.
    + injection Hi as <-. cbn [fst snd]. rewrite Nat.add_0_r.
      rewrite Hframe by (simpl; lia). simpl. rewrite upd_same.
      unfold spreadAt. rewrite (nth_error_nth' deck O Hk). reflexivity.
    + cbn [nth_error] in Hi. specialize (Hcopy i kb Hi).
      replace (next s + S i)%nat with (next s1 + i)%nat by (simpl; lia).
      rewrite Hcopy. f_equal. apply Hold, Hdeck, nth_In.
      exact (proj1 (Forall_forall _ _) Hrest kb (nth_error_In _ _ Hi)).
Qed.

Lemma deckStore_ids_injective : idsInjectiveOn (heap deckStore) (seq 0 52).
Proof.
  intros r1 r2.
  apply (NoDup_map_injective (fun r => id (heap deckStore r))).
  apply distinct_NoDup. by_evaluation.
Qed.

Lemma dealCopies_positions (i : nat) (kb : nat * bool) :
  nth_error dealCopies i = Some kb -> fst kb = i /\ (i < 52)%nat.
Proof.
  intro H. apply (map_nth_error fst) in H.
  change (map fst dealCopies) with (seq 0 52) in H.
  rewrite nth_error_seq in H.
  destruct (Nat.ltb_spec i 52) as [Hlt | _]; [ | discriminate H].
  injection H as <-. split; [reflexivity | exact Hlt].
Qed.

(** Ids of the copies, for stores given by what they hold: [hh] holds at
    [52 + i] the copy of the card [h0] holds at the deck's position [i]. *)
Lemma copies_ids_injective (deck : list ref) (h0 hh : Heap) :
  List.length deck = 52%nat -> NoDup deck -> incl deck (seq 0 52) ->
  idsInjectiveOn h0 (seq 0 52) ->
  (forall i kb, nth_error dealCopies i = Some kb ->
     hh (52 + i)%nat = setFaceUp (snd kb) (h0 (nth (fst kb) deck O))) ->
  idsInjectiveOn hh (seq 52 52).
Proof.
  intros Hlen Hnd Hincl Hinj Hcopy.
  assert (forall r, In r (seq 52 52) ->
            exists k, (k < 52)%nat /\ r = (52 + k)%nat /\
                      id (hh r) = id (h0 (nth k deck O))) as Hid.
  { intros r Hr. apply in_seq in Hr. exists (r - 52)%nat.
    split; [lia | ]. split; [lia | ].
    destruct (nth_error dealCopies (r - 52)) as [kb | ] eqn:E.
    - pose proof (dealCopies_positions _ _ E) as [Hk _].
      replace r with (52 + (r - 52))%nat at 1 by lia.
      rewrite (Hcopy _ _ E), Hk. reflexivity.
    - apply nth_error_None in E.
      change (List.length dealCopies) with 52%nat in E. lia. }
  intros r1 r2 H1 H2 E.
  destruct (Hid r1 H1) as (k1 & Hk1 & -> & E1).
  destruct (Hid r2 H2) as (k2 & Hk2 & -> & E2).
  rewrite E1, E2 in E.
  apply Hinj in E; [ | apply Hincl, nth_In; lia | apply Hincl, nth_In; lia].
  apply (proj1 (NoDup_nth deck O) Hnd) in E; [ | lia | lia].
  subst k2. reflexivity.
Qed.

(** The cards [dealCards] allocates from a deck that is the 52 objects of
    [createDeck] in some order carry 52 different ids. *)
Lemma dealCards_ids_injective (deck : list ref) :
  List.length deck = 52%nat -> NoDup deck -> incl deck (seq 0 52) ->
  idsInjectiveOn (heap (snd (dealCards deck deckStore))) (seq 52 52).
Proof.
  intros Hlen Hnd Hincl. rewrite (dealCards_store deck deckStore Hlen).
  assert (forall r, In r deck -> (r < next deckStore)%nat) as Hdeck.
  { intros r Hr. apply Hincl, in_seq in Hr.
    change (next deckStore) with 52%nat. lia. }
  assert (Forall (fun kb => (fst kb < List.length deck)%nat) dealCopies)
    as Hsteps.
  { apply Forall_forall. intros kb Hkb. apply In_nth_error in Hkb.
    destruct Hkb as [i Hi]. apply dealCopies_positions in Hi.
    rewrite Hlen. lia. }
  destruct (copyLoop_spec deck dealCopies deckStore Hdeck Hsteps)
    as (_ & _ & Hcopy).
  exact (copies_ids_injective deck (heap deckStore) _ Hlen Hnd Hincl
           deckStore_ids_injective Hcopy).
Qed.

Lemma deckRefs_seq : deckRefs = seq 0 52.
Proof. by_evaluation. Qed.

Lemma createInitialGameState_kept (rnd : nat -> nat) :
  kept (seq 52 52) (createInitialGameState rnd).
Proof.
  split; [ | split].
  - replace (GameEngine.allCards (snd (createInitialGameState rnd)))
      with (seq 80 24 ++ List.concat
              [[52]; [53; 59]; [54; 60; 65]; [55; 61; 66; 70];
               [56; 62; 67; 71; 74]; [57; 63; 68; 72; 75; 77];
               [58; 64; 69; 73; 76; 78; 79]]%nat)
      by (symmetry; evaluate_deal rnd).
    intros x Hx. apply in_seq. vm_compute in Hx.
    repeat (destruct Hx as [<- | Hx]; [lia | ]). contradiction.
  - replace (gameHistory (snd (createInitialGameState rnd)))
      with (@nil Snapshot) by (symmetry; evaluate_deal rnd).
    constructor.
  - rewrite createInitialGameState_unfold. cbv zeta. cbn [fst].
    apply dealCards_ids_injective.
    + rewrite shuffleDeck_length. apply deckRefs_length.
    + apply shuffleDeck_NoDup. rewrite deckRefs_seq. apply seq_NoDup.
    + rewrite <- deckRefs_seq. apply shuffleDeck_incl.
Qed.

Lemma initializeGame_kept (rnd : nat -> nat) (w : World) :
  GameEngine.initializeGame rnd = Normal w -> kept (seq 0 52) w.
Proof.
  destruct (initializeGame_spec rnd)
    as (deck & h' & Hlen & _ & Hincl & Hinit & _ & Hids).
  rewrite Hinit. intros [= <-]. split; [ | split].
  - cbn [snd]. rewrite (engineState_allCards deck Hlen).
    intros x Hx. apply in_map_iff in Hx. destruct Hx as (k & <- & Hk).
    apply Hincl, nth_In.
    exact (proj1 (Forall_forall _ _)
             (enginePilePositions_in_range deck Hlen) k Hk).
  - constructor.
  - cbn [fst]. apply (idsInjectiveOn_same (heap engineStore)); [exact Hids | ].
    exact engineStore_ids_injective.
Qed.

Lemma reachable_kept (w : World) : reachable w -> exists D, kept D w.
Proof.
  induction 1 as [rnd | rnd w Hw | w m _ [D IH] | w _ [D IH]].
  - exists (seq 52 52). apply createInitialGameState_kept.
  - exists (seq 0 52). eapply initializeGame_kept. exact Hw.
  - exists D. apply makeMove_kept. exact IH.
  - exists D. apply undo_kept. exact IH.
Qed.

(** In every reachable world ids tell the cards of the board apart. *)
Lemma reachable_idsIdentifyCards (w : World) :
  reachable w -> idsIdentifyCards w.
Proof.
  intro Hw. destruct (reachable_kept w Hw) as (D & Hc & _ & Hi).
  intros r1 r2 H1 H2 E. apply Hi; [apply Hc, H1 | apply Hc, H2 | exact E].
Qed.

(** C4: every move [getAllPossibleMoves] lists is answered [true] by
    [isValidMove], on every board whose ids identify its cards (ids are
    unique tokens), and so on every board reached from a fresh deal of
    either dealer. *)
Theorem enumerated_moves_are_valid :
  (forall (w : World) (m : Move),
     idsIdentifyCards w ->
     In m (GameEngine.getAllPossibleMoves w) ->
     fst (GameEngine.isValidMove w m) = Normal true) /\
  (forall (w : World) (m : Move),
     reachable w ->
     In m (GameEngine.getAllPossibleMoves w) ->
     fst (GameEngine.isValidMove w m) = Normal true).
Proof.
  split.
  - exact enumerated_valid_of_ids.
  - intros w m Hw. apply enumerated_valid_of_ids.
    apply reachable_idsIdentifyCards. exact Hw.
Qed.

Lemma enumerated_moves_are_valid_witness :
  fst (GameEngine.isValidMove freshDeal aceOfHearts) = Normal true /\
  fst (GameEngine.isValidMove freshDeal aceOfHearts) = Normal true.
Proof.
  split.
  - apply (proj1 enumerated_moves_are_valid freshDeal aceOfHearts).
    + apply distinct_ids_identify. apply distinct_NoDup.
      vm_compute. reflexivity.
    + vm_compute. right. left. reflexivity.
  - apply (proj2 enumerated_moves_are_valid freshDeal aceOfHearts).
    + apply reach_createInitialGameState.
    + vm_compute. right. left. reflexivity.
Defined.

(** A foundation move succeeds for any card [findCard] finds that is next
    on its foundation, wherever the card lies and whichever way it
    faces. *)
Lemma moveToFoundation_anywhere (w : World) (m : Move) (card : ref) :
  GameEngine.findCard (fst w) (snd w) (cardId m) = Some card ->
  GameEngine.nextOnFoundation (fst w) (snd w) card = true ->
  GameEngine.successOf (fst (GameEngine.moveToFoundation w m)) = Normal true.
Proof.
  destruct w as [h g]. cbn [fst snd]. intros Hf Hn.
  unfold GameEngine.moveToFoundation. rewrite Hf.
  unfold GameEngine.nextOnFoundation in Hn.
  destruct (lastOpt (foundationOf (foundations g) (suit (h card))));
    rewrite Hn; reflexivity.
Qed.

(** The fresh deal of [createInitialGameState], whatever the shuffle, has
    52 cards with 52 different ids on the board. *)
Lemma createInitialGameState_conserves (rnd : nat -> nat) :
  List.length (cardIds (createInitialGameState rnd)) = 52%nat /\
  NoDup (cardIds (createInitialGameState rnd)).
Proof.
  destruct (createInitialGameState_kept rnd) as (Hc & _ & Hi).
  unfold cardIds.
  assert (GameEngine.allCards (snd (createInitialGameState rnd))
          = seq 80 24 ++ List.concat
              [[52]; [53; 59]; [54; 60; 65]; [55; 61; 66; 70];
               [56; 62; 67; 71; 74]; [57; 63; 68; 72; 75; 77];
               [58; 64; 69; 73; 76; 78; 79]]%nat) as E
    by evaluate_deal rnd.
  split; [rewrite length_map, E; reflexivity | ].
  apply NoDup_map_NoDup_ForallPairs.
  - intros r1 r2 H1 H2 Hid. apply Hi; [apply Hc, H1 | apply Hc, H2 | exact Hid].
  - rewrite E. apply distinctRefs_NoDup. reflexivity.
Qed.

(** ** Conservation along the games of [createInitialGameState] *)

Lemma findIndex_Some {A : Type} (p : A -> bool) (l : list A) (i : nat) :
  findIndex p l = Some i -> exists x, nth_error l i = Some x /\ p x = true.
Proof.
  revert i. induction l as [ | y t IH]; intros i H; [discriminate H | ].
  simpl in H. destruct (p y) eqn:Hp.
  - injection H as <-. exists y. split; [reflexivity | exact Hp].
  - destruct (findIndex p t) as [j | ]; [ | discriminate H].
    injection H as <-. exact (IH j eq_refl).
Qed.

Lemma findIndex_None {A : Type} (p : A -> bool) (l : list A) :
  findIndex p l = None -> forall x, In x l -> p x = false.
Proof.
  induction l as [ | y t IH]; intros H x Hx; [contradiction | ].
  simpl in H. destruct (p y) eqn:Hp; [discriminate H | ].
  destruct (findIndex p t); [discriminate H | ].
  destruct Hx as [<- | Hx]; [exact Hp | exact (IH eq_refl x Hx)].
Qed.

Lemma removeAt_perm {A : Type} (l : list A) (i : nat) (x : A) :
  nth_error l i = Some x -> Permutation (x :: removeAt i l) l.
Proof.
  revert i. induction l as [ | y t IH]; intros i H;
    [destruct i; discriminate H | ].
  destruct i as [ | i].
  - injection H as ->. unfold removeAt. simpl. apply Permutation_refl.
  - simpl in H. unfold removeAt. simpl.
    eapply perm_trans; [apply perm_swap | ].
    apply perm_skip. exact (IH i H).
Qed.

Lemma removeFromFirst_perm (p : ref -> bool) (piles piles' : list (list ref)) :
  GameEngine.removeFromFirst p piles = Some piles' ->
  exists x, p x = true /\ In x (List.concat piles) /\
            Permutation (x :: List.concat piles') (List.concat piles).
Proof.
  revert piles'. induction piles as [ | pile rest IH]; intros piles' H;
    [discriminate H | ].
  simpl in H. destruct (findIndex p pile) as [i | ] eqn:Ei.
  - injection H as <-. apply findIndex_Some in Ei.
    destruct Ei as (x & Hx & Hp). exists x. split; [exact Hp | ].
    split; [simpl; apply in_or_app; left; eapply nth_error_In; exact Hx | ].
    simpl. apply (Permutation_app_tail (List.concat rest)
                    (removeAt_perm pile i x Hx)).
  - destruct (GameEngine.removeFromFirst p rest) as [rest' | ];
      [ | discriminate H].
    injection H as <-. destruct (IH rest' eq_refl) as (x & Hp & Hin & Hperm).
    exists x. split; [exact Hp | ].
    split; [simpl; apply in_or_app; right; exact Hin | ].
    simpl. eapply perm_trans; [apply Permutation_middle | ].
    apply Permutation_app_head. exact Hperm.
Qed.

Lemma removeFromFirst_None (p : ref -> bool) (piles : list (list ref)) :
  GameEngine.removeFromFirst p piles = None ->
  forall x, In x (List.concat piles) -> p x = false.
Proof.
  induction piles as [ | pile rest IH]; intros H x Hx; [contradiction | ].
  simpl in H. destruct (findIndex p pile) eqn:Ei; [discriminate H | ].
  destruct (GameEngine.removeFromFirst p rest); [discriminate H | ].
  simpl in Hx. apply in_app_or in Hx. destruct Hx as [Hx | Hx].
  - exact (findIndex_None p pile Ei x Hx).
  - exact (IH eq_refl x Hx).
Qed.

Lemma perm_cons_app {A : Type} (x : A) (a b b' : list A) :
  Permutation (x :: b') b -> Permutation (x :: a ++ b') (a ++ b).
Proof.
  intro H. eapply perm_trans; [apply Permutation_middle | ].
  apply Permutation_app_head. exact H.
Qed.

(** On a board whose ids identify its cards, [removeCardFromSource] takes
    the card itself off the board, and nothing else. *)
Lemma removeCardFromSource_perm (h : Heap) (g : GameState) (card : ref) :
  (forall x, In x (GameEngine.allCards g) ->
             GameEngine.sameId h card x = true -> x = card) ->
  In card (GameEngine.allCards g) ->
  Permutation
    (card :: GameEngine.allCards (GameEngine.removeCardFromSource h g card))
    (GameEngine.allCards g).
Proof.
  intros Hid Hin.
  unfold GameEngine.removeCardFromSource, GameEngine.allCards in *.
  destruct (findIndex (GameEngine.sameId h card) (stock g)) as [i | ] eqn:Es.
  { apply findIndex_Some in Es. destruct Es as (x & Hx & Hp).
    assert (x = card) as ->.
    { apply Hid; [ | exact Hp]. apply in_or_app. left.
      eapply nth_error_In. exact Hx. }
    cbn [stock waste tableau foundations set_stock].
    apply (Permutation_app_tail _ (removeAt_perm (stock g) i card Hx)). }
  destruct (findIndex (GameEngine.sameId h card) (waste g)) as [i | ] eqn:Ew.
  { apply findIndex_Some in Ew. destruct Ew as (x & Hx & Hp).
    assert (x = card) as ->.
    { apply Hid; [ | exact Hp]. apply in_or_app. right. apply in_or_app. left.
      eapply nth_error_In. exact Hx. }
    cbn [stock waste tableau foundations set_waste].
    apply perm_cons_app.
    apply (Permutation_app_tail _ (removeAt_perm (waste g) i card Hx)). }
  destruct (GameEngine.removeFromFirst (GameEngine.sameId h card) (tableau g))
    as [t | ] eqn:Et.
  { apply removeFromFirst_perm in Et. destruct Et as (x & Hp & Hx & Hperm).
    assert (x = card) as ->.
    { apply Hid; [ | exact Hp]. rewrite !in_app_iff. tauto. }
    cbn [stock waste tableau foundations set_tableau].
    do 2 apply perm_cons_app.
    apply (Permutation_app_tail _ Hperm). }
  destruct (GameEngine.removeFromFirst (GameEngine.sameId h card)
              (foundationValues (foundations g))) as [v | ] eqn:Ev.
  { pose proof (removeFromFirst_incl _ _ _ Ev) as [_ Hl].
    apply removeFromFirst_perm in Ev. destruct Ev as (x & Hp & Hx & Hperm).
    assert (x = card) as ->.
    { apply Hid; [ | exact Hp]. rewrite !in_app_iff. tauto. }
    cbn [stock waste tableau foundations set_foundations].
    rewrite foundationValues_ofValues by exact Hl.
    do 3 apply perm_cons_app. exact Hperm. }
  exfalso.
  assert (GameEngine.sameId h card card = true) as Hself
    by (unfold GameEngine.sameId; apply String.eqb_refl).
  rewrite !in_app_iff in Hin. destruct Hin as [Hin | [Hin | [Hin | Hin]]].
  - rewrite (findIndex_None _ _ Es card Hin) in Hself. discriminate Hself.
  - rewrite (findIndex_None _ _ Ew card Hin) in Hself. discriminate Hself.
  - rewrite (removeFromFirst_None _ _ Et card Hin) in Hself.
    discriminate Hself.
  - rewrite (removeFromFirst_None _ _ Ev card Hin) in Hself.
    discriminate Hself.
Qed.

Lemma tellsApart_sameId (h : Heap) (l : list ref) (card : ref) :
  tellsApart h l -> In card l ->
  forall x, In x l -> GameEngine.sameId h card x = true -> x = card.
Proof.
  intros Ht Hc x Hx Hp. unfold GameEngine.sameId in Hp.
  apply String.eqb_eq in Hp. exact (Ht x card Hx Hc Hp).
Qed.

Lemma tellsApart_incl (h : Heap) (l l' : list ref) :
  incl l' l -> tellsApart h l -> tellsApart h l'.
Proof.
  intros Hi Ht x y Hx Hy. apply Ht; [apply Hi, Hx | apply Hi, Hy].
Qed.

Lemma removeAll_perm (h : Heap) (cards : list ref) :
  forall g : GameState,
    NoDup cards -> incl cards (GameEngine.allCards g) ->
    tellsApart h (GameEngine.allCards g) ->
    Permutation
      (cards ++
       GameEngine.allCards
         (fold_left (fun g' c => GameEngine.removeCardFromSource h g' c)
            cards g))
      (GameEngine.allCards g).
Proof.
  induction cards as [ | c rest IH]; intros g Hnd Hincl Ht;
    [apply Permutation_refl | ].
  inversion Hnd as [ | ? ? Hc Hrest]; subst.
  assert (In c (GameEngine.allCards g)) as Hin by (apply Hincl; left; reflexivity).
  pose proof (removeCardFromSource_perm h g c
                (tellsApart_sameId h _ c Ht Hin) Hin) as H1.
  cbn [fold_left app]. eapply perm_trans; [ | exact H1].
  apply perm_skip. apply IH.
  - exact Hrest.
  - intros x Hx.
    assert (In x (c :: GameEngine.allCards
                         (GameEngine.removeCardFromSource h g c))) as Hx'.
    { eapply Permutation_in; [apply Permutation_sym; exact H1 | ].
      apply Hincl. right. exact Hx. }
    destruct Hx' as [-> | Hx']; [contradiction | exact Hx'].
  - eapply tellsApart_incl; [apply removeCardFromSource_incl | exact Ht].
Qed.

Lemma setFoundation_push_perm (f : Foundations) (s : Suit) (card : ref) :
  Permutation
    (card :: List.concat (foundationValues f))
    (List.concat
       (foundationValues (setFoundation f s (foundationOf f s ++ [card])))).
Proof.
  destruct s; cbn [foundationValues setFoundation foundationOf List.concat
                   spades hearts diamonds clubs].
  - rewrite <- app_assoc. apply Permutation_middle.
  - apply perm_cons_app. rewrite <- app_assoc. apply Permutation_middle.
  - do 2 apply perm_cons_app. rewrite <- app_assoc. apply Permutation_middle.
  - do 3 apply perm_cons_app. rewrite <- app_assoc. apply Permutation_middle.
Qed.

Lemma updateAt_push_perm (i : nat) (cards : list ref) (t : list (list ref)) :
  (i < List.length t)%nat ->
  Permutation (cards ++ List.concat t)
    (List.concat (updateAt i (fun pile => pile ++ cards) t)).
Proof.
  revert i. induction t as [ | pile rest IH]; intros i Hi;
    [simpl in Hi; lia | ].
  destruct i as [ | i]; cbn [updateAt List.concat].
  - rewrite <- app_assoc, !app_assoc.
    apply Permutation_app_tail, Permutation_app_comm.
  - eapply perm_trans; [apply Permutation_app_swap_app | ].
    apply Permutation_app_head. apply IH. simpl in Hi. lia.
Qed.

Lemma removeCardFromSource_columns (h : Heap) (g : GameState) (c : ref) :
  List.length (tableau (GameEngine.removeCardFromSource h g c))
  = List.length (tableau g).
Proof.
  unfold GameEngine.removeCardFromSource.
  destruct (findIndex _ (stock g)); [reflexivity | ].
  destruct (findIndex _ (waste g)); [reflexivity | ].
  destruct (GameEngine.removeFromFirst _ (tableau g)) as [t | ] eqn:Et.
  - apply removeFromFirst_incl in Et. cbn [tableau set_tableau]. tauto.
  - destruct (GameEngine.removeFromFirst _ (foundationValues (foundations g)));
      reflexivity.
Qed.

Lemma removeAll_columns (h : Heap) (cards : list ref) :
  forall g : GameState,
    List.length
      (tableau
         (fold_left (fun g' c => GameEngine.removeCardFromSource h g' c)
            cards g))
    = List.length (tableau g).
Proof.
  induction cards as [ | c rest IH]; intro g; [reflexivity | ].
  cbn [fold_left]. rewrite IH. apply removeCardFromSource_columns.
Qed.

Lemma NoDup_skipn {A : Type} (n : nat) (l : list A) :
  NoDup l -> NoDup (skipn n l).
Proof.
  intro H. rewrite <- (firstn_skipn n l) in H.
  exact (NoDup_app_remove_l _ _ H).
Qed.

Lemma sliceFromFirst_NoDup (p : ref -> bool) (piles : list (list ref))
  (cards : list ref) :
  NoDup (List.concat piles) ->
  GameEngine.sliceFromFirst p piles = Some cards -> NoDup cards.
Proof.
  induction piles as [ | pile rest IH]; intros Hnd H; [discriminate H | ].
  simpl in H, Hnd. destruct (findIndex p pile) as [i | ].
  - injection H as <-. apply NoDup_skipn.
    exact (NoDup_app_remove_r _ _ Hnd).
  - apply IH; [exact (NoDup_app_remove_l _ _ Hnd) | exact H].
Qed.

Lemma getCardsToMove_NoDup (h : Heap) (g : GameState) (card : ref) :
  NoDup (GameEngine.allCards g) ->
  NoDup (GameEngine.getCardsToMove h g card).
Proof.
  intro Hnd. unfold GameEngine.getCardsToMove.
  destruct (GameEngine.sliceFromFirst (GameEngine.sameId h card) (tableau g))
    as [cards | ] eqn:E.
  - apply (sliceFromFirst_NoDup _ _ _ (
             NoDup_app_remove_r _ _
               (NoDup_app_remove_l _ _ (NoDup_app_remove_l _ _ Hnd))) E).
  - constructor; [intros [] | constructor].
Qed.

Lemma reveal_allCards (h : Heap) (g : GameState) :
  GameEngine.allCards (snd (GameEngine.revealHiddenCards (h, g)))
  = GameEngine.allCards g.
Proof.
  destruct (revealHiddenCards_spec h g) as (Hg & _). cbv zeta in Hg.
  rewrite Hg. reflexivity.
Qed.

Lemma at_in_range {A : Type} (l : list A) (i : Z) (x : A) :
  at_ l i = Some x -> (Z.to_nat i < List.length l)%nat.
Proof.
  unfold at_. destruct (i <? 0); [discriminate | ].
  intro H. apply nth_error_Some. rewrite H. discriminate.
Qed.

Lemma moveToFoundation_perm (h : Heap) (g : GameState) (m : Move) :
  tellsApart h (GameEngine.allCards g) ->
  Permutation
    (GameEngine.allCards (snd (snd (GameEngine.moveToFoundation (h, g) m))))
    (GameEngine.allCards g).
Proof.
  intro Ht. unfold GameEngine.moveToFoundation.
  destruct (GameEngine.findCard h g (cardId m)) as [card | ] eqn:Ef;
    [ | apply Permutation_refl].
  apply findCard_In in Ef.
  pose proof (removeCardFromSource_perm h g card
                (tellsApart_sameId h _ card Ht Ef) Ef) as Hrem.
  destruct (lastOpt (foundationOf (foundations g) (suit (h card)))) as [top | ];
    [destruct (negb (value (h card) =? value (h top) + 1))
    | destruct (negb (Rank_eqb (rank (h card)) RA))];
    try apply Permutation_refl; cbn [snd]; rewrite reveal_allCards.
  all: eapply perm_trans; [ | exact Hrem].
  all: unfold GameEngine.allCards;
    cbn [stock waste tableau foundations set_score set_moves set_foundations].
  all: apply Permutation_sym; do 3 apply perm_cons_app.
  all: apply setFoundation_push_perm.
Qed.

Lemma moveToTableau_perm (h : Heap) (g : GameState) (m : Move) :
  NoDup (GameEngine.allCards g) ->
  tellsApart h (GameEngine.allCards g) ->
  Permutation
    (GameEngine.allCards (snd (snd (GameEngine.moveToTableau (h, g) m))))
    (GameEngine.allCards g).
Proof.
  intros Hnd Ht. unfold GameEngine.moveToTableau.
  destruct (GameEngine.findCard h g (cardId m)) as [card | ] eqn:Ef;
    [ | apply Permutation_refl].
  apply findCard_In in Ef.
  destruct (targetIndex m) as [ti | ]; [ | apply Permutation_refl].
  destruct (at_ (tableau g) ti) as [targetPile | ] eqn:Eat;
    [ | apply Permutation_refl].
  destruct (negb (GameEngine.canMoveToTableau h card targetPile));
    [apply Permutation_refl | ].
  cbn [snd]. rewrite reveal_allCards.
  set (cards := GameEngine.getCardsToMove h g card).
  pose proof (removeAll_perm h cards g (getCardsToMove_NoDup h g card Hnd)
                (getCardsToMove_incl h g card Ef) Ht) as Hrem.
  eapply perm_trans; [ | exact Hrem].
  set (g1 := fold_left (fun g' c => GameEngine.removeCardFromSource h g' c)
               cards g).
  unfold GameEngine.allCards.
  cbn [stock waste tableau foundations set_score set_moves set_tableau].
  apply Permutation_sym.
  eapply perm_trans; [apply Permutation_app_swap_app | ].
  apply Permutation_app_head.
  eapply perm_trans; [apply Permutation_app_swap_app | ].
  apply Permutation_app_head.
  rewrite app_assoc. apply Permutation_app_tail.
  apply updateAt_push_perm.
  unfold g1. rewrite removeAll_columns. exact (at_in_range _ _ _ Eat).
Qed.

Lemma lastOpt_removelast {A : Type} (l : list A) (x : A) :
  lastOpt l = Some x -> l = removelast l ++ [x].
Proof.
  induction l as [ | y t IH]; [discriminate | ].
  destruct t as [ | z t'].
  - simpl. intros [= ->]. reflexivity.
  - intro H. change (lastOpt (y :: z :: t')) with (lastOpt (z :: t')) in H.
    change (removelast (y :: z :: t')) with (y :: removelast (z :: t')).
    cbn [app]. f_equal. exact (IH H).
Qed.

Lemma moveWasteToTableau_perm (h : Heap) (g : GameState) (m : Move) :
  Permutation
    (GameEngine.allCards (snd (snd (GameEngine.moveWasteToTableau (h, g) m))))
    (GameEngine.allCards g).
Proof.
  unfold GameEngine.moveWasteToTableau.
  destruct (lastOpt (waste g)) as [card | ] eqn:Hw; [ | apply Permutation_refl].
  destruct (targetIndex m) as [ti | ]; [ | apply Permutation_refl].
  destruct (at_ (tableau g) ti) as [targetPile | ] eqn:Eat;
    [ | apply Permutation_refl].
  destruct (negb (GameEngine.canMoveToTableau h card targetPile));
    [apply Permutation_refl | ].
  cbn [snd]. unfold GameEngine.allCards.
  cbn [stock waste tableau foundations set_score set_moves set_tableau
       set_waste].
  apply Permutation_app_head.
  rewrite (lastOpt_removelast (waste g) card Hw) at 2.
  rewrite <- app_assoc. apply Permutation_app_head.
  rewrite app_assoc. apply Permutation_app_tail.
  apply Permutation_sym, updateAt_push_perm.
  exact (at_in_range _ _ _ Eat).
Qed.

Lemma executeMove_perm (w : World) (m : Move) :
  NoDup (GameEngine.allCards (snd w)) ->
  tellsApart (fst w) (GameEngine.allCards (snd w)) ->
  Permutation (GameEngine.allCards (snd (snd (GameEngine.executeMove w m))))
    (GameEngine.allCards (snd w)).
Proof.
  destruct w as [h g]. cbn [fst snd]. intros Hnd Ht.
  unfold GameEngine.executeMove. destruct (type m);
    try apply Permutation_refl.
  - apply moveToFoundation_perm. exact Ht.
  - apply moveToTableau_perm; assumption.
  - apply moveWasteToTableau_perm.
Qed.

Lemma conserved_board (D : list ref) (w : World) :
  conserved D w ->
  NoDup (GameEngine.allCards (snd w)) /\
  tellsApart (fst w) (GameEngine.allCards (snd w)).
Proof.
  intros (Hp & _ & Hnd & Hi). split.
  - exact (Permutation_NoDup (Permutation_sym Hp) Hnd).
  - intros x y Hx Hy.
    apply Hi; eapply Permutation_in; try exact Hp; assumption.
Qed.

Lemma executeMove_conserved (D : list ref) (w : World) (m : Move) :
  conserved D w -> conserved D (snd (GameEngine.executeMove w m)).
Proof.
  intro Hw. destruct (conserved_board D w Hw) as [Hnd Ht].
  destruct Hw as (Hp & Hh & HD & Hi).
  destruct (executeMove_sameCards w m) as [_ Hids].
  split; [ | split; [ | split]].
  - eapply perm_trans; [apply executeMove_perm; assumption | exact Hp].
  - rewrite executeMove_history. exact Hh.
  - exact HD.
  - exact (idsInjectiveOn_same _ _ _ Hids Hi).
Qed.

Lemma makeMove_conserved (D : list ref) (w : World) (m : Move) :
  conserved D w -> conserved D (snd (GameEngine.makeMove w m)).
Proof.
  destruct w as [h g]. intros (Hp & Hh & HD & Hi).
  assert (conserved D (h, pushed g)) as H0.
  { split; [exact Hp | ]. split; [ | split; [exact HD | exact Hi]].
    unfold pushed. cbn [snd gameHistory set_gameHistory].
    apply Forall_app. split; [exact Hh | ].
    constructor; [exact Hp | constructor]. }
  apply (executeMove_conserved D _ m) in H0.
  unfold GameEngine.makeMove. fold (pushed g).
  destruct (GameEngine.executeMove (h, pushed g) m) as [[res | ] [h' g']];
    [ | exact H0].
  destruct (success res); exact H0.
Qed.

Lemma undo_conserved (D : list ref) (w : World) :
  conserved D w ->
  conserved D
    (fst (snd (GameEngine.undo w)), newState (fst (GameEngine.undo w))).
Proof.
  destruct w as [h g]. intros (Hp & Hh & HD & Hi). unfold GameEngine.undo.
  destruct (lastOpt (gameHistory g)) as [previousState | ] eqn:Hlast.
  - cbn [fst snd newState succeeded]. apply lastOpt_In in Hlast.
    pose proof (proj1 (Forall_forall _ _) Hh previousState Hlast) as Hprev.
    split; [exact Hprev | ]. split; [ | split; [exact HD | exact Hi]].
    cbn [snd gameHistory]. apply Forall_removelast. exact Hh.
  - cbn [fst snd newState failure]. split; [exact Hp | ].
    split; [exact Hh | split; [exact HD | exact Hi]].
Qed.

Lemma playedFrom_conserved (D : list ref) (w0 w : World) :
  conserved D w0 -> playedFrom w0 w -> conserved D w.
Proof.
  intros H0. induction 1 as [ | w m _ IH | w _ IH].
  - exact H0.
  - apply makeMove_conserved. exact IH.
  - apply undo_conserved. exact IH.
Qed.

Lemma createInitialGameState_history (rnd : nat -> nat) :
  gameHistory (snd (createInitialGameState rnd)) = [].
Proof. evaluate_deal rnd. Qed.

Lemma createInitialGameState_allCards (rnd : nat -> nat) :
  GameEngine.allCards (snd (createInitialGameState rnd))
  = seq 80 24 ++ List.concat
      [[52]; [53; 59]; [54; 60; 65]; [55; 61; 66; 70];
       [56; 62; 67; 71; 74]; [57; 63; 68; 72; 75; 77];
       [58; 64; 69; 73; 76; 78; 79]]%nat.
Proof. evaluate_deal rnd. Qed.

Lemma createInitialGameState_conserved (rnd : nat -> nat) :
  conserved (seq 52 52) (createInitialGameState rnd).
Proof.
  destruct (createInitialGameState_kept rnd) as (Hc & _ & Hi).
  split; [ | split; [ | split; [apply seq_NoDup | exact Hi]]].
  - rewrite createInitialGameState_allCards in *.
    apply NoDup_Permutation_bis; [ | | exact Hc].
    + apply distinctRefs_NoDup. reflexivity.
    + apply Nat.le_refl.
  - rewrite createInitialGameState_history. constructor.
Qed.

(** X3: along every game played from a deal of [createInitialGameState],
    by moves and undos, the board holds the 52 card objects that were
    dealt, each in exactly one place, with 52 different ids. *)
Lemma createInitialGameState_games_conserve (rnd : nat -> nat) (w : World) :
  playedFrom (createInitialGameState rnd) w ->
  Permutation (GameEngine.allCards (snd w))
    (GameEngine.allCards (snd (createInitialGameState rnd))) /\
  List.length (cardIds w) = 52%nat /\
  NoDup (cardIds w).
Proof.
  intro Hw.
  pose proof (playedFrom_conserved _ _ _
                (createInitialGameState_conserved rnd) Hw) as Hcons.
  destruct (conserved_board _ _ Hcons) as [Hnd Ht].
  destruct Hcons as (Hp & _ & _ & _).
  destruct (createInitialGameState_conserved rnd) as (Hp0 & _).
  split; [exact (perm_trans Hp (Permutation_sym Hp0)) | ].
  unfold cardIds. split.
  - rewrite length_map, (Permutation_length Hp), length_seq. reflexivity.
  - apply NoDup_map_NoDup_ForallPairs; [ | exact Hnd].
    intros x y Hx Hy. apply Ht; assumption.
Qed.

(** * Further properties of the deal, the moves and their callers *)

(** ** The shuffle is a rearrangement *)

Lemma swapped_injective (i j a b : nat) :
  swapped i j a = swapped i j b -> a = b.
Proof.
  unfold swapped.
  destruct (Nat.eqb_spec a j), (Nat.eqb_spec a i),
    (Nat.eqb_spec b j), (Nat.eqb_spec b i); lia.
Qed.

Lemma swap_perm {A : Type} (i j : nat) (l : list A) :
  Permutation (swap i j l) l.
Proof.
  destruct (Nat.lt_ge_cases i (List.length l)) as [Hi | Hi];
    [ | unfold swap; rewrite (proj2 (nth_error_None l i) Hi);
        apply Permutation_refl].
  destruct (Nat.lt_ge_cases j (List.length l)) as [Hj | Hj];
    [ | unfold swap; rewrite (proj2 (nth_error_None l j) Hj);
        destruct (nth_error l i); apply Permutation_refl].
  apply Permutation_sym, Permutation_nth_error. split.
  - symmetry. apply swap_length.
  - exists (swapped i j). split.
    + intros a b. apply swapped_injective.
    + intro k. apply swap_nth_error; assumption.
Qed.

(** X4: whatever the random draws, [shuffleDeck] returns a rearrangement
    of the deck it is given: every card of the deck, as often as it occurs
    there, and no other. *)
Theorem shuffleDeck_permutation {A : Type} (rnd : nat -> nat)
  (deck : list A) :
  Permutation (shuffleDeck rnd deck) deck.
Proof.
  unfold shuffleDeck. generalize (List.length deck - 1)%nat as i.
  intro i. revert deck.
  induction i as [ | i IH]; intro deck; cbn [shuffleLoop].
  - apply Permutation_refl.
  - eapply perm_trans; [apply IH | apply swap_perm].
Qed.

(** ** The deal of [createInitialGameState], card by card *)

Lemma createInitialGameState_copies (rnd : nat -> nat) (i : nat)
  (kb : nat * bool) :
  nth_error dealCopies i = Some kb ->
  fst (createInitialGameState rnd) (52 + i)%nat
  = setFaceUp (snd kb)
      (heap deckStore (nth (fst kb) (shuffleDeck rnd deckRefs) O)).
Proof.
  assert (List.length (shuffleDeck rnd deckRefs) = 52%nat) as Hlen
    by (rewrite shuffleDeck_length; apply deckRefs_length).
  rewrite createInitialGameState_unfold. cbv zeta. cbn [fst].
  rewrite (dealCards_store _ deckStore Hlen). revert i kb.
  apply (copyLoop_spec (shuffleDeck rnd deckRefs) dealCopies deckStore).
  - intros r Hr. apply shuffleDeck_incl in Hr.
    rewrite deckRefs_seq in Hr. apply in_seq in Hr.
    change (next deckStore) with 52%nat. lia.
  - apply Forall_forall. intros kb Hkb. apply In_nth_error in Hkb.
    destruct Hkb as [i Hi]. apply dealCopies_positions in Hi.
    rewrite Hlen. lia.
Qed.

(** X5: whatever the shuffle, [createInitialGameState] deals the shuffled
    deck front to back: its first 28 cards go to the columns, one row at a
    time (column [j] gets its cards from the rows [0..j]), only the last
    card of each column face-up, and the 24 others go to the stock in
    deck order, face-down.  Every dealt card is a copy of the deck's card
    with the [faceUp] flag set. *)
Theorem createInitialGameState_deals_in_order (rnd : nat -> nat) :
  let w := createInitialGameState rnd in
  let deck := shuffleDeck rnd deckRefs in
  let copy (up : bool) (k : nat) :=
    setFaceUp up (heap deckStore (nth k deck O)) in
  map (map (fst w)) (tableau (snd w)) =
    [[copy true 0];
     [copy false 1; copy true 7];
     [copy false 2; copy false 8; copy true 13];
     [copy false 3; copy false 9; copy false 14; copy true 18];
     [copy false 4; copy false 10; copy false 15; copy false 19;
      copy true 22];
     [copy false 5; copy false 11; copy false 16; copy false 20;
      copy false 23; copy true 25];
     [copy false 6; copy false 12; copy false 17; copy false 21;
      copy false 24; copy false 26; copy true 27]]%nat /\
  map (fst w) (stock (snd w)) = map (copy false) (seq 28 24).
Proof.
  intro w.
  assert (tableau (snd w) =
          [[52]; [53; 59]; [54; 60; 65]; [55; 61; 66; 70];
           [56; 62; 67; 71; 74]; [57; 63; 68; 72; 75; 77];
           [58; 64; 69; 73; 76; 78; 79]]%nat) as Ht
    by (unfold w; evaluate_deal rnd).
  assert (stock (snd w) = seq 80 24) as Hs by (unfold w; evaluate_deal rnd).
  rewrite Ht, Hs. clear Ht Hs. intros deck copy.
  assert (forall i kb, nth_error dealCopies i = Some kb ->
            fst w (52 + i)%nat
            = setFaceUp (snd kb) (heap deckStore (nth (fst kb) deck O)))
    as Hcopy by (intros i kb; apply createInitialGameState_copies).
  generalize dependent (fst w). intros hh Hcopy.
  subst copy. generalize dependent (heap deckStore). intros h0 Hcopy.
  clearbody deck. clear w.
  split; cbv [seq map];
    repeat match goal with
           | |- _ :: _ = _ :: _ => f_equal
           | |- hh _ = setFaceUp ?b (h0 (nth ?k deck O)) =>
               exact (Hcopy k (k, b) eq_refl)
           end.
Qed.

(** ** Games played to the end *)

Lemma playAll_reachable (ms : list Move) :
  forall w : World, reachable w -> reachable (playAll w ms).
Proof.
  induction ms as [ | m rest IH]; intros w Hw; [exact Hw | ].
  apply (IH (snd (GameEngine.makeMove w m))). apply reach_makeMove. exact Hw.
Qed.

Lemma playAll_playedFrom (w0 : World) (ms : list Move) :
  forall w : World, playedFrom w0 w -> playedFrom w0 (playAll w ms).
Proof.
  induction ms as [ | m rest IH]; intros w Hw; [exact Hw | ].
  apply (IH (snd (GameEngine.makeMove w m))). apply from_makeMove. exact Hw.
Qed.

Lemma createInitialGameState_games_conserve_witness :
  Permutation (GameEngine.allCards (snd wonGame))
    (GameEngine.allCards (snd (createInitialGameState identityShuffle))) /\
  List.length (cardIds wonGame) = 52%nat /\
  NoDup (cardIds wonGame).
Proof.
  apply (createInitialGameState_games_conserve identityShuffle wonGame).
  apply playAll_playedFrom. apply from_start.
Defined.

(** ** Cards only turn face-up *)

Lemma sameOrTurned_trans (c1 c2 c3 : Card) :
  sameOrTurned c1 c2 -> sameOrTurned c2 c3 -> sameOrTurned c1 c3.
Proof.
  unfold sameOrTurned. intros [-> | [H1 ->]] [-> | [H2 ->]].
  - left. reflexivity.
  - right. split; [exact H2 | reflexivity].
  - right. split; [exact H1 | reflexivity].
  - discriminate H2.
Qed.

Lemma reveal_sameOrTurned (h : Heap) (g : GameState) (r : ref) :
  sameOrTurned (h r) (fst (GameEngine.revealHiddenCards (h, g)) r).
Proof.
  destruct (revealHiddenCards_spec h g) as (_ & Hf & Hn & _).
  cbv zeta in Hf, Hn.
  destruct (in_dec Nat.eq_dec r (hiddenTops h (tableau g))) as [Hin | Hout].
  - right. split; [apply hiddenTops_In in Hin; tauto | exact (Hf r Hin)].
  - left. exact (Hn r Hout).
Qed.

Lemma executeMove_sameOrTurned (w : World) (m : Move) (r : ref) :
  sameOrTurned (fst w r) (fst (snd (GameEngine.executeMove w m)) r).
Proof.
  assert (forall bonus g3 res,
            played bonus w g3 res -> sameOrTurned (fst w r) (fst (snd res) r))
    as Hplayed.
  { intros bonus g3 res (_ & _ & _ & _ & Hr & _). rewrite Hr.
    apply reveal_sameOrTurned. }
  unfold GameEngine.executeMove.
  destruct (type m); try (left; reflexivity).
  - destruct (moveToFoundation_cases w m) as [[-> _] | [g3 H]];
      [left; reflexivity | exact (Hplayed _ _ _ H)].
  - destruct (moveToTableau_cases w m) as [[-> _] | (card & g3 & _ & H)];
      [left; reflexivity | exact (Hplayed _ _ _ H)].
  - left. destruct w as [h g]. unfold GameEngine.moveWasteToTableau.
    destruct (lastOpt (waste g)); [ | reflexivity].
    destruct (targetIndex m) as [ti | ]; [ | reflexivity].
    destruct (at_ (tableau g) ti) as [targetPile | ]; [ | reflexivity].
    destruct (negb _); reflexivity.
Qed.

Lemma makeMove_sameOrTurned (w : World) (m : Move) (r : ref) :
  sameOrTurned (fst w r) (fst (snd (GameEngine.makeMove w m)) r).
Proof.
  destruct w as [h g]. unfold GameEngine.makeMove. fold (pushed g).
  pose proof (executeMove_sameOrTurned (h, pushed g) m r) as H.
  destruct (GameEngine.executeMove (h, pushed g) m) as [[res | ] [h' g']];
    [ | exact H].
  destruct (success res); exact H.
Qed.

Lemma undo_heap (w : World) : fst (snd (GameEngine.undo w)) = fst w.
Proof.
  destruct w as [h g]. unfold GameEngine.undo.
  destruct (lastOpt (gameHistory g)); reflexivity.
Qed.

Lemma playedFrom_sameOrTurned (w0 w : World) (r : ref) :
  playedFrom w0 w -> sameOrTurned (fst w0 r) (fst w r).
Proof.
  induction 1 as [ | w m _ IH | w _ IH].
  - left. reflexivity.
  - eapply sameOrTurned_trans; [exact IH | apply makeMove_sameOrTurned].
  - cbn [fst]. rewrite undo_heap. exact IH.
Qed.

(** X6: moves and undos write to no field of a card but [faceUp], and
    only to turn the card face-up: along a game every card object is the
    card it was at the start up to its [faceUp] flag, and a card that was
    face-up is still face-up. *)
Theorem cards_only_turn_up (w0 w : World) (r : ref) :
  playedFrom w0 w ->
  fst w r = setFaceUp (faceUp (fst w r)) (fst w0 r) /\
  (faceUp (fst w0 r) = true -> faceUp (fst w r) = true).
Proof.
  intro Hw.
  destruct (playedFrom_sameOrTurned w0 w r Hw) as [-> | [Hdown ->]].
  - split; [ | intro H; exact H]. destruct (fst w0 r). reflexivity.
  - split; [reflexivity | ]. intros _. reflexivity.
Qed.

Lemma cards_only_turn_up_witness :
  fst (snd afterMove) 60%nat
  = setFaceUp (faceUp (fst (snd afterMove) 60%nat)) (fst freshDeal 60%nat) /\
  (faceUp (fst freshDeal 60%nat) = true ->
   faceUp (fst (snd afterMove) 60%nat) = true).
Proof.
  apply (cards_only_turn_up freshDeal (snd afterMove) 60%nat).
  apply from_makeMove. apply from_start.
Defined.

(** ** The cards of the board are the cards of [createDeck] *)

Lemma deckStore_holds_createDeck (r : ref) :
  (r < 52)%nat -> In (heap deckStore r) createDeck.
Proof.
  intro Hr.
  assert (map (heap deckStore) (seq 0 52) = createDeck) as E
    by (vm_compute; reflexivity).
  rewrite <- E. apply in_map. apply in_seq. lia.
Qed.

Lemma deckOf_cards (mkId : Suit -> Rank -> string) (c : Card) :
  In c (deckOf mkId) ->
  value c = rankValue (rank c) /\ location c = LStock /\ faceUp c = false /\
  id c = mkId (suit c) (rank c).
Proof.
  unfold deckOf. intro H. apply in_map_iff in H.
  destruct H as ([n [s r]] & <- & _). cbn. repeat split; reflexivity.
Qed.

(** X7: in a game played from a deal of [createInitialGameState] every
    card on the board is a card of [createDeck] with some [faceUp] flag:
    its [value] is the value of its rank, its id is its suit and rank,
    and its [location] still reads ['stock'], wherever it lies. *)
Theorem board_cards_are_deck_cards (rnd : nat -> nat) (w : World)
  (r : ref) :
  playedFrom (createInitialGameState rnd) w ->
  In r (GameEngine.allCards (snd w)) ->
  (exists c : Card,
     In c createDeck /\ fst w r = setFaceUp (faceUp (fst w r)) c) /\
  value (fst w r) = rankValue (rank (fst w r)) /\
  id (fst w r)
    = (suitStr (suit (fst w r)) ++ "-" ++ rankStr (rank (fst w r)))%string /\
  location (fst w r) = LStock.
Proof.
  intros Hw Hr.
  assert (exists c : Card,
            In c createDeck /\ fst w r = setFaceUp (faceUp (fst w r)) c)
    as (c & Hc & E).
  { destruct (playedFrom_conserved _ _ _
                (createInitialGameState_conserved rnd) Hw) as (Hp & _).
    apply (Permutation_in _ Hp), in_seq in Hr.
    destruct (nth_error dealCopies (r - 52)) as [kb | ] eqn:Ekb.
    2:{ apply nth_error_None in Ekb.
        change (List.length dealCopies) with 52%nat in Ekb. lia. }
    pose proof (createInitialGameState_copies rnd _ _ Ekb) as E0.
    replace (52 + (r - 52))%nat with r in E0 by lia.
    apply dealCopies_positions in Ekb. destruct Ekb as [Hk Hlt].
    exists (heap deckStore (nth (fst kb) (shuffleDeck rnd deckRefs) O)).
    split.
    - apply deckStore_holds_createDeck.
      assert (In (nth (fst kb) (shuffleDeck rnd deckRefs) O)
                (shuffleDeck rnd deckRefs)) as Hin
        by (apply nth_In; rewrite shuffleDeck_length, deckRefs_length; lia).
      remember (nth (fst kb) (shuffleDeck rnd deckRefs) O) as r0 eqn:Er0.
      apply shuffleDeck_incl in Hin. rewrite deckRefs_seq in Hin.
      apply in_seq in Hin. lia.
    - remember (heap deckStore (nth (fst kb) (shuffleDeck rnd deckRefs) O))
        as c eqn:Ec.
      clear Ec.
      destruct (playedFrom_sameOrTurned _ _ r Hw) as [-> | [_ ->]];
        rewrite E0; destruct c; reflexivity. }
  split; [exists c; split; assumption | ].
  destruct (deckOf_cards _ c Hc) as (Hv & Hl & _ & Hi).
  rewrite E. cbn [value rank id suit location setFaceUp].
  split; [exact Hv | ]. split; [exact Hi | exact Hl].
Qed.

Lemma board_cards_are_deck_cards_witness :
  (exists c : Card,
     In c createDeck /\
     fst wonGame 65%nat = setFaceUp (faceUp (fst wonGame 65%nat)) c) /\
  value (fst wonGame 65%nat) = rankValue (rank (fst wonGame 65%nat)) /\
  id (fst wonGame 65%nat)
    = (suitStr (suit (fst wonGame 65%nat)) ++ "-"
       ++ rankStr (rank (fst wonGame 65%nat)))%string /\
  location (fst wonGame 65%nat) = LStock.
Proof.
  apply (board_cards_are_deck_cards identityShuffle wonGame 65%nat).
  - apply playAll_playedFrom. apply from_start.
  - vm_compute. tauto.
Defined.

(** ** [initializeGame] and [dealTableau] *)

(** X8: [initializeGame] never throws, whatever the shuffle: every deck
    position [dealTableau] reads exists.  It returns columns of 1 to 7
    cards with only the last card of each face-up, a stock of 24 cards,
    an empty waste, empty foundations and an empty history. *)
Theorem initializeGame_never_throws (rnd : nat -> nat) :
  exists w : World,
    GameEngine.initializeGame rnd = Normal w /\
    map (flags (fst w)) (tableau (snd w)) =
      [[true]; [false; true]; [false; false; true];
       [false; false; false; true]; [false; false; false; false; true];
       [false; false; false; false; false; true];
       [false; false; false; false; false; false; true]] /\
    List.length (stock (snd w)) = 24%nat /\
    waste (snd w) = [] /\
    foundations (snd w) = emptyFoundations /\
    gameHistory (snd w) = [].
Proof.
  destruct (initializeGame_spec rnd)
    as (deck & h' & Hlen & _ & _ & Hinit & Hflags & _).
  exists (h', engineState deck). split; [exact Hinit | ].
  split; [ | split; [ | repeat split]].
  - unfold engineState, enginePositions, flags.
    cbn [fst snd tableau map].
    repeat match goal with
           | |- _ :: _ = _ :: _ => f_equal
           | |- faceUp (h' (nth ?k deck O)) = _ =>
               let i := eval compute in (Nat.div k 7) in
               let j := eval compute in (Nat.modulo k 7) in
               exact (Hflags (i, j) ltac:(in_list))
           end.
  - cbn [snd engineState stock]. rewrite length_skipn, Hlen. reflexivity.
Qed.

Lemma dealCells_below_49 (c : nat * nat) :
  In c dealCells -> (fst c * 7 + snd c < 49)%nat.
Proof.
  intro Hc. vm_compute in Hc.
  repeat (destruct Hc as [<- | Hc]; [simpl; lia | ]). contradiction.
Qed.

(** X9: [dealTableau] throws exactly on the decks of fewer than 49
    cards: the last card it deals is [deck[48]]. *)
Theorem dealTableau_throws_iff_short (h : Heap) (deck : list ref) :
  GameEngine.dealTableau h deck = TypeError <-> (List.length deck < 49)%nat.
Proof.
  unfold GameEngine.dealTableau. split.
  - intro Hthrow.
    destruct (Nat.lt_ge_cases (List.length deck) 49) as [Hlt | Hge];
      [exact Hlt | exfalso].
    rewrite dealTableau_fold in Hthrow; [discriminate Hthrow | ].
    apply Forall_forall. intros c Hc. apply dealCells_below_49 in Hc. lia.
  - intro Hlt.
    assert (dealCells = firstn 27 dealCells ++ [(6, 6)%nat]) as E
      by reflexivity.
    rewrite E, fold_left_app. cbn [fold_left].
    destruct (fold_left (GameEngine.dealTableauTurn deck)
                (firstn 27 dealCells) (Normal (h, repeat [] 7)))
      as [[h' t] | ]; [ | reflexivity].
    unfold GameEngine.dealTableauTurn.
    rewrite (proj2 (nth_error_None deck (6 * 7 + 6)%nat)); [reflexivity | ].
    simpl. lia.
Qed.

(** ** Counters *)

Lemma sliceFromFirst_nonempty (p : ref -> bool) (piles : list (list ref))
  (cards : list ref) :
  GameEngine.sliceFromFirst p piles = Some cards -> cards <> [].
Proof.
  induction piles as [ | pile rest IH]; intro H; [discriminate H | ].
  simpl in H. destruct (findIndex p pile) as [i | ] eqn:Ei; [ | exact (IH H)].
  injection H as <-. apply findIndex_Some in Ei. destruct Ei as (x & Hx & _).
  intro E. assert (List.length (skipn i pile) = 0%nat) as Hl
    by (rewrite E; reflexivity).
  rewrite length_skipn in Hl.
  assert (i < List.length pile)%nat
    by (apply nth_error_Some; rewrite Hx; discriminate).
  lia.
Qed.

Lemma getCardsToMove_nonempty (h : Heap) (g : GameState) (card : ref) :
  (0 < List.length (GameEngine.getCardsToMove h g card))%nat.
Proof.
  unfold GameEngine.getCardsToMove.
  destruct (GameEngine.sliceFromFirst (GameEngine.sameId h card) (tableau g))
    as [cards | ] eqn:E; [ | simpl; lia].
  apply sliceFromFirst_nonempty in E. destruct cards; [congruence | simpl; lia].
Qed.

Lemma played_score (bonus : Z) (w : World) (g3 : GameState)
  (r : Completion MoveResult * World) :
  played bonus w g3 r -> score (snd w) + bonus <= score (snd (snd r)).
Proof.
  destruct w as [h g]. intros (_ & _ & Hs & _ & Hr & _).
  destruct (revealHiddenCards_spec h g3) as (Hg & _).
  cbv zeta in Hg. cbn [fst snd] in *. rewrite Hr, Hg.
  cbn [score set_score]. lia.
Qed.

Lemma moveWasteToTableau_score (w : World) (m : Move) :
  rejected w (GameEngine.moveWasteToTableau w m) \/
  (counted w (GameEngine.moveWasteToTableau w m) /\
   score (snd (snd (GameEngine.moveWasteToTableau w m))) = score (snd w) + 5).
Proof.
  destruct w as [h g]. unfold GameEngine.moveWasteToTableau. simpl snd.
  assert (forall msg, rejected (h, g) (Normal (failure g msg), (h, g))) as Hrej.
  { intro msg. split; [reflexivity | right; exists msg; reflexivity]. }
  destruct (lastOpt (waste g)) as [card | ]; [ | left; apply Hrej].
  destruct (targetIndex m) as [ti | ]; [ | left; apply Hrej].
  destruct (at_ (tableau g) ti) as [targetPile | ];
    [ | left; split; [reflexivity | left; reflexivity]].
  destruct (negb (GameEngine.canMoveToTableau h card targetPile));
    [left; apply Hrej | ].
  right. unfold counted. simpl. repeat split; reflexivity.
Qed.

Lemma tops_length (piles : list (list ref)) :
  (List.length (tops piles) <= List.length piles)%nat.
Proof.
  induction piles as [ | pile rest IH]; [simpl; lia | ].
  unfold tops in *. cbn [flat_map]. rewrite length_app. cbn [List.length].
  destruct (lastOpt pile); cbn [List.length]; lia.
Qed.

Lemma hiddenTops_length (h : Heap) (piles : list (list ref)) :
  (List.length (hiddenTops h piles) <= List.length piles)%nat.
Proof.
  unfold hiddenTops.
  pose proof (NoDup_incl_length
                (NoDup_nodup Nat.eq_dec
                   (filter (fun r => negb (faceUp (h r))) (tops piles)))
                (l' := filter (fun r => negb (faceUp (h r))) (tops piles)))
    as H1.
  assert (incl (nodup Nat.eq_dec
                  (filter (fun r => negb (faceUp (h r))) (tops piles)))
            (filter (fun r => negb (faceUp (h r))) (tops piles))) as Hi
    by (intros r Hr; apply nodup_In in Hr; exact Hr).
  specialize (H1 Hi).
  pose proof (filter_length_le (fun r => negb (faceUp (h r))) (tops piles)).
  pose proof (tops_length piles). lia.
Qed.

Lemma sliceFromFirst_length (p : ref -> bool) (piles : list (list ref))
  (cards : list ref) :
  GameEngine.sliceFromFirst p piles = Some cards ->
  (List.length cards <= List.length (List.concat piles))%nat.
Proof.
  induction piles as [ | pile rest IH]; intro H; [discriminate H | ].
  cbn [GameEngine.sliceFromFirst] in H. cbn [List.concat].
  rewrite length_app.
  destruct (findIndex p pile) as [i | ].
  - injection H as <-. rewrite length_skipn. lia.
  - specialize (IH H). lia.
Qed.

Lemma getCardsToMove_length (h : Heap) (g : GameState) (card : ref) :
  Z.of_nat (List.length (GameEngine.getCardsToMove h g card))
  <= 1 + Z.of_nat (List.length (List.concat (tableau g))).
Proof.
  unfold GameEngine.getCardsToMove.
  destruct (GameEngine.sliceFromFirst (GameEngine.sameId h card) (tableau g))
    as [cards | ] eqn:E; [ | cbn [List.length]; lia].
  apply sliceFromFirst_length in E. lia.
Qed.

(** The cards turned at the end of a move are column tops: at most one
    for each column. *)
Lemma played_gain (bonus : Z) (w : World) (g3 : GameState)
  (r : Completion MoveResult * World) :
  played bonus w g3 r ->
  score (snd (snd r))
  <= score (snd w) + bonus + 5 * Z.of_nat (List.length (tableau g3)).
Proof.
  destruct w as [h g]. intros (_ & _ & Hs & _ & Hr & _).
  destruct (revealHiddenCards_spec h g3) as (Hg & _).
  cbv zeta in Hg. cbn [fst snd] in *. rewrite Hr, Hg.
  cbn [score set_score]. pose proof (hiddenTops_length h (tableau g3)). lia.
Qed.

Lemma reveal_columns (w : World) :
  tableau (snd (GameEngine.revealHiddenCards w)) = tableau (snd w).
Proof. reflexivity. Qed.

(** No mover adds or drops a column. *)
Lemma executeMove_columns (w : World) (m : Move) :
  List.length (tableau (snd (snd (GameEngine.executeMove w m))))
  = List.length (tableau (snd w)).
Proof.
  destruct w as [h g]. unfold GameEngine.executeMove.
  destruct (type m); try reflexivity.
  - unfold GameEngine.moveToFoundation.
    destruct (GameEngine.findCard h g (cardId m)) as [card | ];
      [ | reflexivity].
    assert (List.length
              (tableau (GameEngine.removeCardFromSource h g card))
            = List.length (tableau g)) as Hc
      by apply removeCardFromSource_columns.
    destruct (lastOpt (foundationOf (foundations g) (suit (h card))))
      as [top | ].
    + destruct (negb (value (h card) =? value (h top) + 1));
        [reflexivity | exact Hc].
    + destruct (negb (Rank_eqb (rank (h card)) RA));
        [reflexivity | exact Hc].
  - unfold GameEngine.moveToTableau.
    destruct (GameEngine.findCard h g (cardId m)) as [card | ];
      [ | reflexivity].
    destruct (targetIndex m) as [ti | ]; [ | reflexivity].
    destruct (at_ (tableau g) ti) as [targetPile | ]; [ | reflexivity].
    destruct (negb (GameEngine.canMoveToTableau h card targetPile));
      [reflexivity | ].
    cbn [snd]. rewrite reveal_columns.
    cbn [snd tableau set_score set_moves set_tableau].
    rewrite updateAt_length. apply removeAll_columns.
  - unfold GameEngine.moveWasteToTableau.
    destruct (lastOpt (waste g)) as [card | ]; [ | reflexivity].
    destruct (targetIndex m) as [ti | ]; [ | reflexivity].
    destruct (at_ (tableau g) ti) as [targetPile | ]; [ | reflexivity].
    destruct (negb (GameEngine.canMoveToTableau h card targetPile));
      [reflexivity | ].
    cbn [snd tableau set_score set_moves set_tableau set_waste].
    apply updateAt_length.
Qed.

(** A mover either leaves the world as it was, or counts one move and
    raises the score, by no more than [scoreRoom]. *)
Lemma executeMove_score (w : World) (m : Move) :
  rejected w (GameEngine.executeMove w m) \/
  (counted w (GameEngine.executeMove w m) /\
   score (snd w) < score (snd (snd (GameEngine.executeMove w m)))
     <= score (snd w) + scoreRoom (snd w)).
Proof.
  pose proof (executeMove_columns w m) as Hcol. revert Hcol.
  unfold GameEngine.executeMove, scoreRoom.
  assert (rejected w (Normal (failure (snd w) "Invalid move type"), w))
    as Hrej by (split; [reflexivity | right; eexists; reflexivity]).
  destruct (type m); try (intros _; left; exact Hrej).
  - intro Hcol.
    destruct (moveToFoundation_cases w m) as [H | [g3 H]]; [left; exact H | ].
    right. split; [exact (played_counted _ _ _ _ H) | ].
    pose proof (played_score _ _ _ _ H) as Hlo.
    pose proof (played_gain _ _ _ _ H) as Hhi.
    destruct H as (_ & _ & _ & _ & Hr & _). rewrite Hr in Hcol.
    rewrite reveal_columns in Hcol. cbn [snd] in Hcol. lia.
  - intro Hcol.
    destruct (moveToTableau_cases w m) as [H | (card & g3 & _ & H)];
      [left; exact H | ].
    right. split; [exact (played_counted _ _ _ _ H) | ].
    pose proof (played_score _ _ _ _ H) as Hlo.
    pose proof (played_gain _ _ _ _ H) as Hhi.
    pose proof (getCardsToMove_nonempty (fst w) (snd w) card).
    pose proof (getCardsToMove_length (fst w) (snd w) card).
    destruct H as (_ & _ & _ & _ & Hr & _). rewrite Hr in Hcol.
    rewrite reveal_columns in Hcol. cbn [snd] in Hcol. lia.
  - intros _.
    destruct (moveWasteToTableau_score w m) as [H | [H Hs]];
      [left; exact H | right; split; [exact H | lia]].
Qed.

(** X10: a call of [makeMove] either succeeds, and then it has set
    [canUndo] and, on a state whose counters are in the range in which
    the code counts exactly, counted exactly one move and raised the
    score (which stays in that range); or it does not succeed (an error
    result, or a throw), and then the cards and the state are as before,
    except for the snapshot it pushed on the history. *)
Theorem makeMove_counts (w : World) (m : Move) :
  let r := GameEngine.makeMove w m in
  (GameEngine.successOf (fst r) = Normal true /\
   canUndo (snd (snd r)) = true /\
   (countersExact (snd w) ->
    moves (snd (snd r)) = moves (snd w) + 1 /\
    score (snd w) < score (snd (snd r)) <= 2 ^ 53))
  \/
  (GameEngine.successOf (fst r) <> Normal true /\
   snd r = (fst w, pushed (snd w))).
Proof.
  destruct w as [h g]. cbv zeta.
  unfold GameEngine.makeMove. cbn [fst snd] in *.
  fold (pushed g).
  destruct (executeMove_score (h, pushed g) m)
    as [[Hw Hres] | ((Hres & Hm & _) & Hs)].
  - right.
    destruct (GameEngine.executeMove (h, pushed g) m) as [[res | ] [h' g']];
      cbn [fst snd] in *.
    + destruct Hres as [Hres | [msg Hres]]; [discriminate Hres | ].
      injection Hres as ->. cbn [success failure fst snd GameEngine.successOf].
      split; [discriminate | exact Hw].
    + split; [discriminate | exact Hw].
  - left.
    destruct (GameEngine.executeMove (h, pushed g) m) as [[res | ] [h' g']];
      cbn [fst snd] in *; [ | discriminate Hres].
    injection Hres as ->. cbn [success succeeded fst snd GameEngine.successOf
                              moves score canUndo set_canUndo].
    unfold scoreRoom in Hs.
    cbn [pushed moves score tableau set_gameHistory] in Hm, Hs.
    split; [reflexivity | ]. split; [reflexivity | ].
    intros (_ & _ & Hroom). unfold scoreRoom in Hroom.
    split; [exact Hm | lia].
Qed.

Lemma makeMove_counts_witness :
  moves (snd (snd afterMove)) = moves (snd freshDeal) + 1 /\
  score (snd freshDeal) < score (snd (snd afterMove)) <= 2 ^ 53.
Proof.
  destruct (makeMove_counts freshDeal aceOfHearts) as [(_ & _ & H) | (Hn & _)].
  - apply H. in_exact_range.
  - exfalso. apply Hn. vm_compute. reflexivity.
Defined.

(** ** The validator predicts [makeMove] *)

(** The movers read no history: their verdict on a state is their verdict
    on the state with another history. *)
Lemma executeMove_verdict (h : Heap) (g : GameState) (hs : list Snapshot)
  (m : Move) :
  GameEngine.successOf
    (fst (GameEngine.executeMove (h, set_gameHistory hs g) m))
  = GameEngine.successOf (fst (GameEngine.executeMove (h, g) m)).
Proof.
  unfold GameEngine.executeMove. destruct (type m); try reflexivity.
  - unfold GameEngine.moveToFoundation.
    change (GameEngine.findCard h (set_gameHistory hs g) (cardId m))
      with (GameEngine.findCard h g (cardId m)).
    destruct (GameEngine.findCard h g (cardId m)) as [card | ];
      [ | reflexivity].
    change (foundations (set_gameHistory hs g)) with (foundations g).
    destruct (lastOpt (foundationOf (foundations g) (suit (h card))))
      as [top | ].
    + destruct (negb (value (h card) =? value (h top) + 1)); reflexivity.
    + destruct (negb (Rank_eqb (rank (h card)) RA)); reflexivity.
  - unfold GameEngine.moveToTableau.
    change (GameEngine.findCard h (set_gameHistory hs g) (cardId m))
      with (GameEngine.findCard h g (cardId m)).
    destruct (GameEngine.findCard h g (cardId m)) as [card | ];
      [ | reflexivity].
    destruct (targetIndex m) as [ti | ]; [ | reflexivity].
    change (tableau (set_gameHistory hs g)) with (tableau g).
    destruct (at_ (tableau g) ti) as [targetPile | ]; [ | reflexivity].
    destruct (negb (GameEngine.canMoveToTableau h card targetPile));
      reflexivity.
  - unfold GameEngine.moveWasteToTableau.
    change (waste (set_gameHistory hs g)) with (waste g).
    destruct (lastOpt (waste g)) as [card | ]; [ | reflexivity].
    destruct (targetIndex m) as [ti | ]; [ | reflexivity].
    change (tableau (set_gameHistory hs g)) with (tableau g).
    destruct (at_ (tableau g) ti) as [targetPile | ]; [ | reflexivity].
    destruct (negb (GameEngine.canMoveToTableau h card targetPile));
      reflexivity.
Qed.

(** X11: [isValidMove] answers as [makeMove] would: on every world and
    move its result is the [success] of the result of [makeMove], and it
    throws exactly when [makeMove] throws. *)
Theorem isValidMove_predicts_makeMove (w : World) (m : Move) :
  fst (GameEngine.isValidMove w m)
  = GameEngine.successOf (fst (GameEngine.makeMove w m)).
Proof.
  destruct w as [h g]. rewrite isValidMove_executes. cbn [fst].
  rewrite <- (executeMove_verdict h g
                (gameHistory g ++ [GameEngine.snapshot g]) m).
  unfold GameEngine.makeMove.
  destruct (GameEngine.executeMove
              (h, set_gameHistory (gameHistory g ++ [GameEngine.snapshot g]) g)
              m) as [[res | ] [h' g']]; [ | reflexivity].
  cbn [fst GameEngine.successOf].
  destruct (success res) eqn:Hs; cbn [fst GameEngine.successOf success];
    [reflexivity | rewrite Hs; reflexivity].
Qed.

Lemma isValidMove_true_counts_witness :
  moves (snd (snd (GameEngine.isValidMove freshDeal aceOfHearts)))
  = moves (snd freshDeal) + 1.
Proof.
  apply (isValidMove_true_counts freshDeal aceOfHearts).
  - in_exact_range.
  - vm_compute. reflexivity.
Defined.

(** ** Undo after any call of [makeMove] *)



(** ** [canUndo] *)

Lemma makeMove_history_nonempty (w : World) (m : Move) :
  gameHistory (snd (snd (GameEngine.makeMove w m))) <> [].
Proof.
  destruct w as [h g]. unfold GameEngine.makeMove. fold (pushed g).
  pose proof (executeMove_history (h, pushed g) m) as H.
  assert (gameHistory (pushed g) <> []) as Hne
    by (unfold pushed; cbn [gameHistory set_gameHistory];
        destruct (gameHistory g); discriminate).
  destruct (GameEngine.executeMove (h, pushed g) m) as [[res | ] [h' g']];
    cbn [fst snd] in *; [ | congruence].
  destruct (success res); cbn [snd gameHistory set_canUndo]; congruence.
Qed.

(** X13: on the state object as a dealer, [makeMove] or [undo] returned
    it, a set [canUndo] flag means there is a snapshot to go back to:
    [undo] succeeds.  The flag is not kept up on the object handed to
    [undo]: the call pops that object's history in place and leaves its
    [canUndo] set, so when the history held one snapshot the returned
    state has [canUndo] false, while the old object still has [canUndo]
    true and [undo] called on it again answers [No moves to undo]. *)
Theorem canUndo_means_undo_succeeds (w : World) :
  reachable w ->
  canUndo (snd w) = true ->
  let u := GameEngine.undo w in
  success (fst u) = true /\
  canUndo (snd (snd u)) = true /\
  gameHistory (snd (snd u)) = removelast (gameHistory (snd w)) /\
  (List.length (gameHistory (snd w)) = 1%nat ->
   canUndo (newState (fst u)) = false /\
   GameEngine.undo (snd u)
   = (failure (snd (snd u)) "No moves to undo", snd u)).
Proof.
  intros Hw Hflag.
  assert (canUndo (snd w) = true -> gameHistory (snd w) <> []) as Hinv.
  { clear Hflag.
    induction Hw as [rnd | rnd w Hw | w m _ _ | w _ IH].
    - intro H. exfalso. revert H.
      replace (canUndo (snd (createInitialGameState rnd))) with false
        by (symmetry; evaluate_deal rnd).
      discriminate.
    - destruct (initializeGame_spec rnd)
        as (deck & h' & _ & _ & _ & Hinit & _).
      rewrite Hinit in Hw. injection Hw as <-. discriminate.
    - intros _. apply makeMove_history_nonempty.
    - destruct w as [h g]. unfold GameEngine.undo.
      destruct (lastOpt (gameHistory g)) as [previousState | ];
        [ | exact IH].
      cbn [fst snd newState succeeded canUndo gameHistory set_gameHistory].
      rewrite negb_true_iff, Nat.eqb_neq.
      intros Hlen E. rewrite E in Hlen. apply Hlen. reflexivity. }
  destruct w as [h g]. cbn [snd] in *. cbv zeta.
  destruct (lastOpt (gameHistory g)) as [previousState | ] eqn:Hlast.
  2: { apply lastOpt_None in Hlast. exfalso. exact (Hinv Hflag Hlast). }
  assert (exists restored : GameState,
            GameEngine.undo (h, g)
            = (succeeded restored,
               (h, set_gameHistory (removelast (gameHistory g)) g))
            /\ canUndo restored
                = negb (List.length (removelast (gameHistory g)) =? 0)%nat)
    as (restored & Hu & Hcan).
  { unfold GameEngine.undo. rewrite Hlast. eexists. split; reflexivity. }
  rewrite Hu.
  cbn [fst snd newState succeeded success canUndo gameHistory
       set_gameHistory].
  split; [reflexivity | ]. split; [exact Hflag | ]. split; [reflexivity | ].
  intro Hlen.
  assert (removelast (gameHistory g) = []) as Hpop.
  { destruct (gameHistory g) as [ | s [ | s' t]];
      [discriminate Hlen | reflexivity | discriminate Hlen]. }
  rewrite Hcan, Hpop. split; [reflexivity | ].
  unfold GameEngine.undo. cbn [gameHistory set_gameHistory lastOpt].
  reflexivity.
Qed.

Lemma canUndo_means_undo_succeeds_witness :
  let u := GameEngine.undo (snd afterMove) in
  success (fst u) = true /\
  canUndo (snd (snd u)) = true /\
  gameHistory (snd (snd u)) = removelast (gameHistory (snd (snd afterMove))) /\
  (List.length (gameHistory (snd (snd afterMove))) = 1%nat ->
   canUndo (newState (fst u)) = false /\
   GameEngine.undo (snd u)
   = (failure (snd (snd u)) "No moves to undo", snd u)).
Proof.
  apply (canUndo_means_undo_succeeds (snd afterMove)).
  - apply reach_makeMove. apply reach_createInitialGameState.
  - vm_compute. reflexivity.
Defined.

(** ** [revealHiddenCards] *)

Lemma reveal_nothing (h : Heap) (piles : list (list ref)) (s : Z) :
  Forall (topFaceUp h) piles ->
  fold_left GameEngine.revealStep piles (h, s) = (h, s).
Proof.
  induction 1 as [ | pile rest Hp _ IH]; [reflexivity | ].
  cbn [fold_left]. unfold GameEngine.revealStep at 2. cbn [fst snd].
  unfold topFaceUp in Hp. destruct (lastOpt pile) as [topCard | ];
    [rewrite Hp | ]; exact IH.
Qed.

(** X14: [revealHiddenCards] is idempotent: a second call right after the
    first changes neither a card nor the score. *)
Theorem revealHiddenCards_idempotent (w : World) :
  GameEngine.revealHiddenCards (GameEngine.revealHiddenCards w)
  = GameEngine.revealHiddenCards w.
Proof.
  destruct w as [h g].
  destruct (revealHiddenCards_spec h g) as (_ & _ & _ & Htops & _).
  cbv zeta in Htops.
  destruct (GameEngine.revealHiddenCards (h, g)) as [h' g'].
  unfold topsFaceUp in Htops. cbn [fst snd] in Htops.
  unfold GameEngine.revealHiddenCards. cbn [fst snd].
  rewrite (reveal_nothing h' (tableau g') (score g') Htops).
  cbn [fst snd]. destruct g'. reflexivity.
Qed.

(** ** What a successful move does to the piles *)

Lemma NoDup_middle_out {A : Type} (l1 l2 : list A) (c x : A) :
  NoDup (l1 ++ c :: l2) -> In x l1 \/ In x l2 -> x <> c.
Proof.
  intros Hnd Hx ->. apply NoDup_remove_2 in Hnd. apply Hnd.
  apply in_or_app. exact Hx.
Qed.

Lemma findIndex_none_of {A : Type} (p : A -> bool) (l : list A) :
  (forall x, In x l -> p x = false) -> findIndex p l = None.
Proof.
  induction l as [ | y t IH]; intro H; [reflexivity | ].
  simpl. rewrite (H y (or_introl eq_refl)).
  rewrite IH; [reflexivity | ]. intros x Hx. apply H. right. exact Hx.
Qed.

Lemma findIndex_split {A : Type} (p : A -> bool) (pre above : list A) (c : A) :
  (forall x, In x pre -> p x = false) -> p c = true ->
  findIndex p (pre ++ c :: above) = Some (List.length pre).
Proof.
  intros Hpre Hc. induction pre as [ | y t IH]; simpl.
  - rewrite Hc. reflexivity.
  - rewrite (Hpre y (or_introl eq_refl)).
    rewrite IH; [reflexivity | ]. intros x Hx. apply Hpre. right. exact Hx.
Qed.

Lemma removeAt_split {A : Type} (pre above : list A) (c : A) :
  removeAt (List.length pre) (pre ++ c :: above) = pre ++ above.
Proof.
  unfold removeAt. induction pre as [ | y t IH]; [reflexivity | ].
  simpl. f_equal. exact IH.
Qed.

Lemma skipn_split {A : Type} (pre l : list A) :
  skipn (List.length pre) (pre ++ l) = l.
Proof.
  rewrite skipn_app, skipn_all, Nat.sub_diag. reflexivity.
Qed.

Lemma removeFromFirst_split (p : ref -> bool)
  (before after : list (list ref)) (pre above : list ref) (c : ref) :
  (forall x, In x (List.concat before) -> p x = false) ->
  (forall x, In x pre -> p x = false) -> p c = true ->
  GameEngine.removeFromFirst p (before ++ (pre ++ c :: above) :: after)
  = Some (before ++ (pre ++ above) :: after).
Proof.
  intros Hb Hpre Hc. induction before as [ | pile rest IH].
  - cbn [app GameEngine.removeFromFirst].
    rewrite (findIndex_split p pre above c Hpre Hc), removeAt_split.
    reflexivity.
  - cbn [app GameEngine.removeFromFirst].
    rewrite findIndex_none_of.
    2:{ intros x Hx. apply Hb. cbn [List.concat]. apply in_or_app. left.
        exact Hx. }
    rewrite IH; [reflexivity | ].
    intros x Hx. apply Hb. cbn [List.concat]. apply in_or_app. right.
    exact Hx.
Qed.

Lemma sliceFromFirst_split (p : ref -> bool)
  (before after : list (list ref)) (pre above : list ref) (c : ref) :
  (forall x, In x (List.concat before) -> p x = false) ->
  (forall x, In x pre -> p x = false) -> p c = true ->
  GameEngine.sliceFromFirst p (before ++ (pre ++ c :: above) :: after)
  = Some (c :: above).
Proof.
  intros Hb Hpre Hc. induction before as [ | pile rest IH].
  - cbn [app GameEngine.sliceFromFirst].
    rewrite (findIndex_split p pre above c Hpre Hc), skipn_split.
    reflexivity.
  - cbn [app GameEngine.sliceFromFirst].
    rewrite findIndex_none_of.
    2:{ intros x Hx. apply Hb. cbn [List.concat]. apply in_or_app. left.
        exact Hx. }
    apply IH.
    intros x Hx. apply Hb. cbn [List.concat]. apply in_or_app. right.
    exact Hx.
Qed.

(** The cards of a board with the card [c] in a column, split around
    [c]. *)
Lemma allCards_split (g : GameState) (before after : list (list ref))
  (pre above : list ref) (c : ref) :
  tableau g = before ++ (pre ++ c :: above) :: after ->
  GameEngine.allCards g
  = (stock g ++ waste g ++ List.concat before ++ pre)
    ++ c :: (above ++ List.concat after
             ++ List.concat (foundationValues (foundations g))).
Proof.
  intro Ht. unfold GameEngine.allCards. rewrite Ht, concat_app.
  cbn [List.concat]. rewrite <- !app_assoc. reflexivity.
Qed.

Lemma set_tableau_same (g : GameState) : set_tableau (tableau g) g = g.
Proof. destruct g. reflexivity. Qed.

Lemma set_tableau_twice (t t' : list (list ref)) (g : GameState) :
  set_tableau t' (set_tableau t g) = set_tableau t' g.
Proof. reflexivity. Qed.

(** On a board whose ids tell its cards apart, [removeCardFromSource]
    takes a card that lies in a column out of that column, and leaves
    the cards under and over it. *)
Lemma removeCardFromSource_column (h : Heap) (g : GameState)
  (before after : list (list ref)) (pre above : list ref) (c : ref) :
  NoDup (GameEngine.allCards g) ->
  tellsApart h (GameEngine.allCards g) ->
  tableau g = before ++ (pre ++ c :: above) :: after ->
  GameEngine.removeCardFromSource h g c
  = set_tableau (before ++ (pre ++ above) :: after) g.
Proof.
  intros Hnd Ht Htab.
  pose proof (allCards_split g before after pre above c Htab) as Eall.
  assert (In c (GameEngine.allCards g)) as Hc
    by (rewrite Eall; apply in_or_app; right; left; reflexivity).
  assert (forall x, In x (stock g ++ waste g ++ List.concat before ++ pre) ->
            GameEngine.sameId h c x = false) as Hno.
  { intros x Hx. destruct (GameEngine.sameId h c x) eqn:E; [ | reflexivity].
    exfalso.
    assert (In x (GameEngine.allCards g)) as Hxa
      by (rewrite Eall; apply in_or_app; left; exact Hx).
    pose proof (tellsApart_sameId h _ c Ht Hc x Hxa E) as Exc.
    rewrite Eall in Hnd.
    exact (NoDup_middle_out _ _ c x Hnd (or_introl Hx) Exc). }
  assert (GameEngine.sameId h c c = true) as Hcc
    by (unfold GameEngine.sameId; apply String.eqb_refl).
  unfold GameEngine.removeCardFromSource.
  rewrite findIndex_none_of
    by (intros x Hx; apply Hno; apply in_or_app; left; exact Hx).
  rewrite findIndex_none_of
    by (intros x Hx; apply Hno; apply in_or_app; right; apply in_or_app;
        left; exact Hx).
  rewrite Htab, removeFromFirst_split; [reflexivity | | | exact Hcc].
  - intros x Hx. apply Hno. apply in_or_app. right. apply in_or_app. right.
    apply in_or_app. left. exact Hx.
  - intros x Hx. apply Hno. apply in_or_app. right. apply in_or_app. right.
    apply in_or_app. right. exact Hx.
Qed.

Lemma getCardsToMove_column (h : Heap) (g : GameState)
  (before after : list (list ref)) (pre above : list ref) (c : ref) :
  NoDup (GameEngine.allCards g) ->
  tellsApart h (GameEngine.allCards g) ->
  tableau g = before ++ (pre ++ c :: above) :: after ->
  GameEngine.getCardsToMove h g c = c :: above.
Proof.
  intros Hnd Ht Htab.
  pose proof (allCards_split g before after pre above c Htab) as Eall.
  assert (In c (GameEngine.allCards g)) as Hc
    by (rewrite Eall; apply in_or_app; right; left; reflexivity).
  assert (forall x, In x (List.concat before ++ pre) ->
            GameEngine.sameId h c x = false) as Hno.
  { intros x Hx. destruct (GameEngine.sameId h c x) eqn:E; [ | reflexivity].
    exfalso.
    assert (In x (stock g ++ waste g ++ List.concat before ++ pre)) as Hx'
      by (apply in_or_app; right; apply in_or_app; right; exact Hx).
    assert (In x (GameEngine.allCards g)) as Hxa
      by (rewrite Eall; apply in_or_app; left; exact Hx').
    pose proof (tellsApart_sameId h _ c Ht Hc x Hxa E) as Exc.
    rewrite Eall in Hnd.
    exact (NoDup_middle_out _ _ c x Hnd (or_introl Hx') Exc). }
  unfold GameEngine.getCardsToMove.
  rewrite Htab, sliceFromFirst_split; [reflexivity | | | ].
  - intros x Hx. apply Hno. apply in_or_app. left. exact Hx.
  - intros x Hx. apply Hno. apply in_or_app. right. exact Hx.
  - unfold GameEngine.sameId. apply String.eqb_refl.
Qed.

(** Taking the cards of a run out one by one, from the lowest, leaves
    the column with the cards that lay under the run. *)
Lemma removeAll_run (h : Heap) (before after : list (list ref))
  (pre : list ref) (run : list ref) :
  forall g : GameState,
    NoDup (GameEngine.allCards g) ->
    tellsApart h (GameEngine.allCards g) ->
    tableau g = before ++ (pre ++ run) :: after ->
    fold_left (fun g' c => GameEngine.removeCardFromSource h g' c) run g
    = set_tableau (before ++ pre :: after) g.
Proof.
  induction run as [ | c rest IH]; intros g Hnd Ht Htab.
  - rewrite app_nil_r in Htab. rewrite <- Htab. symmetry.
    apply set_tableau_same.
  - cbn [fold_left].
    pose proof (removeCardFromSource_column h g before after pre rest c
                  Hnd Ht Htab) as E1.
    assert (Permutation
              (c :: GameEngine.allCards
                      (GameEngine.removeCardFromSource h g c))
              (GameEngine.allCards g)) as Hp.
    { assert (In c (GameEngine.allCards g)) as Hc
        by (rewrite (allCards_split g before after pre rest c Htab);
            apply in_or_app; right; left; reflexivity).
      apply removeCardFromSource_perm; [ | exact Hc].
      exact (tellsApart_sameId h _ c Ht Hc). }
    rewrite IH.
    + rewrite E1. reflexivity.
    + apply (Permutation_NoDup (Permutation_sym Hp)) in Hnd.
      inversion Hnd; assumption.
    + apply (tellsApart_incl h (GameEngine.allCards g)); [ | exact Ht].
      intros x Hx. apply (Permutation_in _ Hp). right. exact Hx.
    + rewrite E1. reflexivity.
Qed.

Lemma findCard_of (h : Heap) (g : GameState) (card : ref) :
  tellsApart h (GameEngine.allCards g) ->
  In card (GameEngine.allCards g) ->
  GameEngine.findCard h g (id (h card)) = Some card.
Proof.
  intros Ht Hin. unfold GameEngine.findCard.
  apply (find_identified (fun r => id (h r))); [ | exact Hin].
  intros y Hy E. exact (Ht y card Hy Hin E).
Qed.

Lemma reveal_piles (h : Heap) (g : GameState) :
  let g' := snd (GameEngine.revealHiddenCards (h, g)) in
  stock g' = stock g /\ waste g' = waste g /\
  foundations g' = foundations g /\ tableau g' = tableau g.
Proof.
  destruct (revealHiddenCards_spec h g) as (Hg & _). cbv zeta in *.
  rewrite Hg. repeat split; reflexivity.
Qed.

Lemma moveToTableau_run (h : Heap) (g : GameState)
  (before after : list (list ref)) (pre above : list ref) (card : ref)
  (m : Move) (tz : Z) :
  NoDup (GameEngine.allCards g) ->
  tellsApart h (GameEngine.allCards g) ->
  tableau g = before ++ (pre ++ card :: above) :: after ->
  cardId m = id (h card) ->
  targetIndex m = Some tz ->
  GameEngine.successOf (fst (GameEngine.moveToTableau (h, g) m))
    = Normal true ->
  let g' := snd (snd (GameEngine.moveToTableau (h, g) m)) in
  tableau g'
    = updateAt (Z.to_nat tz) (fun pile => pile ++ card :: above)
        (before ++ pre :: after) /\
  stock g' = stock g /\ waste g' = waste g /\
  foundations g' = foundations g.
Proof.
  intros Hnd Ht Htab Hid Hti.
  assert (In card (GameEngine.allCards g)) as Hc
    by (rewrite (allCards_split g before after pre above card Htab);
        apply in_or_app; right; left; reflexivity).
  unfold GameEngine.moveToTableau.
  rewrite Hid, (findCard_of h g card Ht Hc), Hti.
  destruct (at_ (tableau g) tz) as [targetPile | ];
    [ | cbn; discriminate].
  destruct (negb (GameEngine.canMoveToTableau h card targetPile));
    [cbn; discriminate | ].
  intros _.
  rewrite (getCardsToMove_column h g before after pre above card Hnd Ht Htab).
  rewrite (removeAll_run h before after pre (card :: above) g Hnd Ht Htab).
  cbv zeta. cbn [snd].
  match goal with
  | |- context [GameEngine.revealHiddenCards (h, ?g3)] =>
      destruct (reveal_piles h g3) as (R1 & R2 & R3 & R4)
  end.
  cbv zeta in R1, R2, R3, R4. rewrite R1, R2, R3, R4.
  repeat split; reflexivity.
Qed.

Lemma moveToFoundation_column (h : Heap) (g : GameState)
  (before after : list (list ref)) (pre above : list ref) (card : ref)
  (m : Move) :
  NoDup (GameEngine.allCards g) ->
  tellsApart h (GameEngine.allCards g) ->
  tableau g = before ++ (pre ++ card :: above) :: after ->
  cardId m = id (h card) ->
  GameEngine.successOf (fst (GameEngine.moveToFoundation (h, g) m))
    = Normal true ->
  let g' := snd (snd (GameEngine.moveToFoundation (h, g) m)) in
  tableau g' = before ++ (pre ++ above) :: after /\
  foundations g'
    = setFoundation (foundations g) (suit (h card))
        (foundationOf (foundations g) (suit (h card)) ++ [card]) /\
  stock g' = stock g /\ waste g' = waste g.
Proof.
  intros Hnd Ht Htab Hid.
  assert (In card (GameEngine.allCards g)) as Hc
    by (rewrite (allCards_split g before after pre above card Htab);
        apply in_or_app; right; left; reflexivity).
  unfold GameEngine.moveToFoundation.
  rewrite Hid, (findCard_of h g card Ht Hc).
  rewrite (removeCardFromSource_column h g before after pre above card
             Hnd Ht Htab).
  destruct (lastOpt (foundationOf (foundations g) (suit (h card))))
    as [top | ];
    [destruct (negb (value (h card) =? value (h top) + 1))
    | destruct (negb (Rank_eqb (rank (h card)) RA))];
    try (cbn; discriminate); intros _; cbv zeta; cbn [snd];
    match goal with
    | |- context [GameEngine.revealHiddenCards (h, ?g3)] =>
        destruct (reveal_piles h g3) as (R1 & R2 & R3 & R4)
    end;
    cbv zeta in R1, R2, R3, R4; rewrite R1, R2, R3, R4;
    repeat split; reflexivity.
Qed.

(** The state [makeMove] leaves after a successful move is the state the
    mover leaves on the board with the snapshot pushed, with [canUndo]
    set. *)
Lemma makeMove_state (w : World) (m : Move) :
  GameEngine.successOf (fst (GameEngine.makeMove w m)) = Normal true ->
  GameEngine.successOf
    (fst (GameEngine.executeMove (fst w, pushed (snd w)) m)) = Normal true /\
  snd (snd (GameEngine.makeMove w m))
  = set_canUndo true
      (snd (snd (GameEngine.executeMove (fst w, pushed (snd w)) m))).
Proof.
  intro Hs. destruct (makeMove_success w m Hs) as (res & w1 & He & Hres & ->).
  rewrite He. cbn [fst snd GameEngine.successOf]. rewrite Hres.
  split; reflexivity.
Qed.

(** X15: in a game played from a deal of [createInitialGameState], a
    successful tableau move of a card lying in a column moves that card
    and every card over it, in order, onto the target column, and leaves
    the cards under it where they were; stock, waste and foundations are
    not touched. *)
Theorem tableau_move_moves_the_run (rnd : nat -> nat) (w : World)
  (before after : list (list ref)) (pre above : list ref) (card : ref)
  (m : Move) (tz : Z) :
  playedFrom (createInitialGameState rnd) w ->
  tableau (snd w) = before ++ (pre ++ card :: above) :: after ->
  type m = MTableau ->
  cardId m = id (fst w card) ->
  targetIndex m = Some tz ->
  GameEngine.successOf (fst (GameEngine.makeMove w m)) = Normal true ->
  let g' := snd (snd (GameEngine.makeMove w m)) in
  tableau g'
    = updateAt (Z.to_nat tz) (fun pile => pile ++ card :: above)
        (before ++ pre :: after) /\
  stock g' = stock (snd w) /\ waste g' = waste (snd w) /\
  foundations g' = foundations (snd w).
Proof.
  intros Hw Htab Hty Hid Hti Hs.
  destruct (conserved_board _ _
              (playedFrom_conserved _ _ _
                 (createInitialGameState_conserved rnd) Hw)) as [Hnd Ht].
  destruct (makeMove_state w m Hs) as [He ->].
  destruct w as [h g]. cbn [fst snd] in *.
  unfold GameEngine.executeMove in *. rewrite Hty in *.
  exact (moveToTableau_run h (pushed g) before after pre above card m tz
           Hnd Ht Htab Hid Hti He).
Qed.

(** X16: in a game played from a deal of [createInitialGameState], a
    successful foundation move of a card lying in a column takes that
    card out of the column, wherever in the column it lies, leaving the
    cards under and over it in place, and puts it on top of the
    foundation of its suit; stock and waste are not touched. *)
Theorem foundation_move_takes_the_card (rnd : nat -> nat) (w : World)
  (before after : list (list ref)) (pre above : list ref) (card : ref)
  (m : Move) :
  playedFrom (createInitialGameState rnd) w ->
  tableau (snd w) = before ++ (pre ++ card :: above) :: after ->
  type m = MFoundation ->
  cardId m = id (fst w card) ->
  GameEngine.successOf (fst (GameEngine.makeMove w m)) = Normal true ->
  let g' := snd (snd (GameEngine.makeMove w m)) in
  tableau g' = before ++ (pre ++ above) :: after /\
  foundations g'
    = setFoundation (foundations (snd w)) (suit (fst w card))
        (foundationOf (foundations (snd w)) (suit (fst w card)) ++ [card]) /\
  stock g' = stock (snd w) /\ waste g' = waste (snd w).
Proof.
  intros Hw Htab Hty Hid Hs.
  destruct (conserved_board _ _
              (playedFrom_conserved _ _ _
                 (createInitialGameState_conserved rnd) Hw)) as [Hnd Ht].
  destruct (makeMove_state w m Hs) as [He ->].
  destruct w as [h g]. cbn [fst snd] in *.
  unfold GameEngine.executeMove in *. rewrite Hty in *.
  exact (moveToFoundation_column h (pushed g) before after pre above card m
           Hnd Ht Htab Hid He).
Qed.

Lemma tableau_move_moves_the_run_witness :
  let w := createInitialGameState identityShuffle in
  let m := mkMove MTableau "♠-9" (Some LTableau) (Some 2) (Some 4) in
  let g' := snd (snd (GameEngine.makeMove w m)) in
  tableau g'
    = updateAt (Z.to_nat 4) (fun pile => pile ++ [60; 65]%nat)
        ([[52]; [53; 59]] ++ [54] :: [[55; 61; 66; 70];
                      [56; 62; 67; 71; 74]; [57; 63; 68; 72; 75; 77];
                      [58; 64; 69; 73; 76; 78; 79]])%nat /\
  stock g' = stock (snd w) /\ waste g' = waste (snd w) /\
  foundations g' = foundations (snd w).
Proof.
  cbv zeta.
  apply (tableau_move_moves_the_run identityShuffle
           (createInitialGameState identityShuffle) [[52]; [53; 59]]%nat
           [[55; 61; 66; 70]; [56; 62; 67; 71; 74];
            [57; 63; 68; 72; 75; 77]; [58; 64; 69; 73; 76; 78; 79]]%nat
           [54%nat] [65%nat] 60%nat
           (mkMove MTableau "♠-9" (Some LTableau) (Some 2) (Some 4)) 4).
  - apply from_start.
  - vm_compute. reflexivity.
  - reflexivity.
  - vm_compute. reflexivity.
  - reflexivity.
  - vm_compute. reflexivity.
Defined.

Lemma foundation_move_takes_the_card_witness :
  let w := createInitialGameState identityShuffle in
  let g' := snd (snd (GameEngine.makeMove w aceOfDiamonds)) in
  tableau g'
    = [[52]; [53; 59]; [54; 60; 65]; [55; 61; 66; 70]; [56; 62; 67; 71; 74];
       [57; 63; 68; 72; 75; 77]]%nat
      ++ ([58; 64; 69; 73; 76]%nat ++ [79%nat]) :: [] /\
  foundations g'
    = setFoundation (foundations (snd w)) (suit (fst w 78%nat))
        (foundationOf (foundations (snd w)) (suit (fst w 78%nat))
         ++ [78%nat]) /\
  stock g' = stock (snd w) /\ waste g' = waste (snd w).
Proof.
  cbv zeta.
  apply (foundation_move_takes_the_card identityShuffle
           (createInitialGameState identityShuffle)
           [[52]; [53; 59]; [54; 60; 65]; [55; 61; 66; 70];
            [56; 62; 67; 71; 74]; [57; 63; 68; 72; 75; 77]]%nat []
           [58; 64; 69; 73; 76]%nat [79%nat] 78%nat aceOfDiamonds).
  - apply from_start.
  - vm_compute. reflexivity.
  - reflexivity.
  - vm_compute. reflexivity.
  - vm_compute. reflexivity.
Defined.

(** ** Every deal can be won *)

Lemma deckStore_createDeck (k : nat) :
  (k < 52)%nat -> heap deckStore k = nth k createDeck noCard.
Proof.
  intro Hk.
  assert (map (heap deckStore) (seq 0 52) = createDeck) as E
    by (vm_compute; reflexivity).
  rewrite <- E.
  rewrite (nth_indep _ noCard (heap deckStore O))
    by (rewrite length_map, length_seq; exact Hk).
  rewrite map_nth, seq_nth by exact Hk. reflexivity.
Qed.

Lemma createDeck_length : List.length createDeck = 52%nat.
Proof. reflexivity. Qed.

Lemma createDeck_NoDup : NoDup createDeck.
Proof.
  apply (NoDup_map_inv id). apply distinct_NoDup. vm_compute. reflexivity.
Qed.

Lemma createDeck_faceDown (c : Card) :
  In c createDeck -> setFaceUp false c = c.
Proof.
  intro Hc. destruct (deckOf_cards _ c Hc) as (_ & _ & Hf & _).
  destruct c. cbn in *. subst. reflexivity.
Qed.

(** Whatever the shuffle, every card of [createDeck] has its copy among
    the cards dealt. *)
Lemma deal_has_every_card (rnd : nat -> nat) (k : nat) :
  (k < 52)%nat ->
  exists (r : ref) (b : bool),
    In r (seq 52 52) /\
    fst (createInitialGameState rnd) r
    = setFaceUp b (nth k createDeck noCard).
Proof.
  intro Hk.
  assert (In k (shuffleDeck rnd deckRefs)) as Hin.
  { apply (NoDup_length_incl (shuffleDeck_NoDup rnd deckRefs
                                ltac:(rewrite deckRefs_seq; apply seq_NoDup))
             (l' := deckRefs)).
    - rewrite shuffleDeck_length. apply Nat.le_refl.
    - apply shuffleDeck_incl.
    - rewrite deckRefs_seq. apply in_seq. lia. }
  apply In_nth_error in Hin. destruct Hin as [i Hi].
  assert (i < 52)%nat as Hlt.
  { assert (i < List.length (shuffleDeck rnd deckRefs))%nat as H.
    { apply nth_error_Some. intro E.
      pose proof (eq_trans (eq_sym E) Hi) as C. discriminate C. }
    rewrite shuffleDeck_length, deckRefs_length in H. exact H. }
  destruct (nth_error dealCopies i) as [kb | ] eqn:Ekb.
  2:{ apply nth_error_None in Ekb.
      change (List.length dealCopies) with 52%nat in Ekb. lia. }
  exists (52 + i)%nat, (snd kb). split; [apply in_seq; lia | ].
  rewrite (createInitialGameState_copies rnd i kb Ekb).
  apply dealCopies_positions in Ekb. destruct Ekb as [-> _].
  assert (nth i (shuffleDeck rnd deckRefs) O = k) as En
    by exact (nth_error_nth _ _ O Hi).
  rewrite En, (deckStore_createDeck k Hk). reflexivity.
Qed.

Lemma nextCardOk_true (k : nat) : (k < 52)%nat -> nextCardOk k = true.
Proof.
  intro Hk.
  assert (forallb nextCardOk (seq 0 52) = true) as H
    by (vm_compute; reflexivity).
  apply (proj1 (forallb_forall _ _) H). apply in_seq. lia.
Qed.

Lemma lastOpt_map {A B : Type} (f : A -> B) (l : list A) :
  lastOpt (map f l) = option_map f (lastOpt l).
Proof.
  induction l as [ | x t IH]; [reflexivity | ].
  destruct t as [ | y t']; [reflexivity | ].
  change (lastOpt (map f (x :: y :: t'))) with (lastOpt (map f (y :: t'))).
  exact IH.
Qed.

Lemma firstn_S_nth {A : Type} (l : list A) (k : nat) (d : A) :
  (k < List.length l)%nat -> firstn (S k) l = firstn k l ++ [nth k l d].
Proof.
  revert k. induction l as [ | x t IH]; intros k Hk; [simpl in Hk; lia | ].
  destruct k as [ | k]; [reflexivity | ].
  simpl in Hk. cbn [firstn nth app]. f_equal. apply IH. lia.
Qed.

Lemma nth_not_in_firstn {A : Type} (l : list A) (k : nat) (d : A) :
  NoDup l -> (k < List.length l)%nat -> ~ In (nth k l d) (firstn k l).
Proof.
  intros Hnd Hk Hin. apply In_nth_error in Hin. destruct Hin as [j Hj].
  assert (j < k)%nat as Hjk.
  { assert (j < List.length (firstn k l))%nat as H
      by (apply nth_error_Some; rewrite Hj; discriminate).
    rewrite length_firstn in H. lia. }
  rewrite nth_error_firstn in Hj.
  destruct (Nat.ltb_spec j k) as [_ | ?]; [ | lia].
  assert (nth_error l k = Some (nth k l d)) as Hkk
    by (apply nth_error_nth'; exact Hk).
  assert (j = k) as E; [ | lia].
  apply (proj1 (NoDup_nth_error l) Hnd); [lia | ].
  rewrite Hj, Hkk. reflexivity.
Qed.

Lemma Suit_eqb_true (a b : Suit) : Suit_eqb a b = true <-> a = b.
Proof. destruct a, b; simpl; split; congruence. Qed.

Lemma foundationOf_setFoundation (f : Foundations) (s s2 : Suit)
  (p : list ref) :
  foundationOf (setFoundation f s p) s2
  = if Suit_eqb s s2 then p else foundationOf f s2.
Proof. destruct s, s2; reflexivity. Qed.

Lemma in_foundation (f : Foundations) (x : ref) :
  In x (List.concat (foundationValues f)) ->
  exists s : Suit, In x (foundationOf f s).
Proof.
  unfold foundationValues. cbn [List.concat]. rewrite app_nil_r.
  intro H. repeat (apply in_app_or in H; destruct H as [H | H]).
  - exists Spades. exact H.
  - exists Hearts. exact H.
  - exists Diamonds. exact H.
  - exists Clubs. exact H.
Qed.

Lemma removeCardFromSource_foundations (h : Heap) (g : GameState) (r : ref) :
  (forall x, In x (List.concat (foundationValues (foundations g))) ->
             GameEngine.sameId h r x = false) ->
  foundations (GameEngine.removeCardFromSource h g r) = foundations g.
Proof.
  intro Hno. unfold GameEngine.removeCardFromSource.
  destruct (findIndex _ (stock g)); [reflexivity | ].
  destruct (findIndex _ (waste g)); [reflexivity | ].
  destruct (GameEngine.removeFromFirst _ (tableau g)); [reflexivity | ].
  destruct (GameEngine.removeFromFirst (GameEngine.sameId h r)
              (foundationValues (foundations g))) as [v | ] eqn:E;
    [ | reflexivity].
  apply removeFromFirst_perm in E. destruct E as (x & Hx & Hin & _).
  rewrite (Hno x Hin) in Hx. discriminate Hx.
Qed.

Lemma sameOrTurned_faceDown (c c' : Card) :
  sameOrTurned c c' -> setFaceUp false c' = setFaceUp false c.
Proof. intros [-> | [_ ->]]; reflexivity. Qed.

(** The foundations and the counter after a successful foundation
    move. *)
Lemma moveToFoundation_foundations (h : Heap) (g : GameState) (m : Move)
  (card : ref) :
  GameEngine.findCard h g (cardId m) = Some card ->
  GameEngine.successOf (fst (GameEngine.moveToFoundation (h, g) m))
    = Normal true ->
  foundations (snd (snd (GameEngine.moveToFoundation (h, g) m)))
  = setFoundation
      (foundations (GameEngine.removeCardFromSource h g card))
      (suit (h card))
      (foundationOf (foundations (GameEngine.removeCardFromSource h g card))
         (suit (h card)) ++ [card]) /\
  moves (snd (snd (GameEngine.moveToFoundation (h, g) m))) = moves g + 1.
Proof.
  intro Hfind. unfold GameEngine.moveToFoundation. rewrite Hfind.
  pose proof (removeCardFromSource_sameBook h g card) as (_ & Hm & _).
  destruct (lastOpt (foundationOf (foundations g) (suit (h card))))
    as [top | ];
    [destruct (negb (value (h card) =? value (h top) + 1))
    | destruct (negb (Rank_eqb (rank (h card)) RA))];
    try (cbn; discriminate); intros _; cbv zeta; cbn [snd];
    match goal with
    | |- context [GameEngine.revealHiddenCards (h, ?g3)] =>
        destruct (reveal_piles h g3) as (_ & _ & R3 & _);
        destruct (revealHiddenCards_spec h g3) as (Rg & _)
    end;
    cbv zeta in R3, Rg; rewrite R3; (split; [reflexivity | ]);
    rewrite Rg; cbn [moves set_score set_moves set_foundations];
    rewrite Hm; reflexivity.
Qed.

(** One move of [suitBySuit]: with the first [k] cards of [createDeck] on
    their foundations, the foundation move of the card at [k] succeeds,
    wherever the card lies. *)
Lemma suitBySuit_step (h0 : Heap) (D : list ref) (w : World) (k : nat) :
  (k < 52)%nat ->
  (exists (r : ref) (b : bool),
     In r D /\ h0 r = setFaceUp b (nth k createDeck noCard)) ->
  conserved D w ->
  (forall r, sameOrTurned (h0 r) (fst w r)) ->
  builtUp h0 k (snd w) ->
  builtUp h0 (S k)
    (snd (snd (GameEngine.makeMove w
                 (mkMove MFoundation (id (nth k createDeck noCard))
                    None None None)))) /\
  moves (snd (snd (GameEngine.makeMove w
                     (mkMove MFoundation (id (nth k createDeck noCard))
                        None None None))))
  = moves (snd w) + 1.
Proof.
  intros Hk (r & b & HrD & Hr) Hcons Hsame Hbuilt.
  destruct (conserved_board D w Hcons) as [Hnd Ht].
  destruct Hcons as (Hp & _).
  destruct w as [h g]. cbn [fst snd] in *.
  pose proof (nextCardOk_true k Hk) as Hok. unfold nextCardOk in Hok.
  cbv zeta in Hok.
  remember (nth k createDeck noCard) as c eqn:Ec.
  assert (In c createDeck) as Hc
    by (rewrite Ec; apply nth_In; rewrite createDeck_length; exact Hk).
  assert (In r (GameEngine.allCards g)) as Hin
    by (apply (Permutation_in _ (Permutation_sym Hp)); exact HrD).
  assert (forall x, setFaceUp false (h x) = setFaceUp false (h0 x)) as Hphi
    by (intro x; apply sameOrTurned_faceDown, Hsame).
  assert (setFaceUp false (h0 r) = c) as Hrc
    by (rewrite Hr; destruct c; cbn;
        rewrite <- (createDeck_faceDown _ Hc); reflexivity).
  assert (setFaceUp false (h r) = c) as Hhr by (rewrite Hphi; exact Hrc).
  assert (id (h r) = id c /\ suit (h r) = suit c /\ rank (h r) = rank c /\
          value (h r) = value c) as (Hid & Hsuit & Hrank & Hvalue)
    by (rewrite <- Hhr; repeat split; reflexivity).
  assert (GameEngine.findCard h g (id c) = Some r) as Hfind
    by (rewrite <- Hid; apply findCard_of; assumption).
  assert (forall x,
            In x (List.concat (foundationValues (foundations g))) ->
            GameEngine.sameId h r x = false) as Hno.
  { intros x Hx. destruct (GameEngine.sameId h r x) eqn:E; [ | reflexivity].
    exfalso.
    assert (In x (GameEngine.allCards g)) as Hxa.
    { unfold GameEngine.allCards. apply in_or_app. right. apply in_or_app.
      right. apply in_or_app. right. exact Hx. }
    pose proof (tellsApart_sameId h _ r Ht Hin x Hxa E) as ->.
    apply in_foundation in Hx. destruct Hx as [s Hs].
    apply (in_map (fun x => setFaceUp false (h0 x))) in Hs.
    rewrite (Hbuilt s), Hrc in Hs. unfold dealtOfSuit in Hs.
    apply filter_In in Hs. destruct Hs as [Hs _]. rewrite Ec in Hs.
    exact (nth_not_in_firstn createDeck k noCard createDeck_NoDup
             ltac:(rewrite createDeck_length; exact Hk) Hs). }
  assert (GameEngine.nextOnFoundation h (pushed g) r = true) as Hnext_on.
  { unfold GameEngine.nextOnFoundation.
    change (foundations (pushed g)) with (foundations g).
    rewrite Hsuit, Hrank, Hvalue.
    rewrite <- (Hbuilt (suit c)), lastOpt_map in Hok.
    destruct (lastOpt (foundationOf (foundations g) (suit c))) as [top | ];
      cbn [option_map] in Hok; [ | exact Hok].
    replace (value (h top)) with (value (setFaceUp false (h0 top)))
      by (rewrite <- Hphi; reflexivity).
    exact Hok. }
  set (m := mkMove MFoundation (id c) None None None).
  assert (GameEngine.findCard h (pushed g) (cardId m) = Some r) as Hfind'
    by exact Hfind.
  pose proof (moveToFoundation_anywhere (h, pushed g) m r Hfind' Hnext_on)
    as Hsucc.
  destruct (moveToFoundation_foundations h (pushed g) m r Hfind' Hsucc)
    as [Hf Hm].
  rewrite (removeCardFromSource_foundations h (pushed g) r Hno) in Hf.
  change (foundations (pushed g)) with (foundations g) in Hf.
  change (moves (pushed g)) with (moves g) in Hm.
  rewrite Hsuit in Hf.
  assert (forall g3 : GameState,
            foundations g3
            = setFoundation (foundations g) (suit c)
                (foundationOf (foundations g) (suit c) ++ [r]) ->
            builtUp h0 (S k) g3) as Hnext.
  { intros g3 Hf3 s. rewrite Hf3, foundationOf_setFoundation.
    unfold dealtOfSuit.
    rewrite (firstn_S_nth createDeck k noCard)
      by (rewrite createDeck_length; exact Hk).
    rewrite <- Ec, filter_app. cbn [filter].
    destruct (Suit_eqb (suit c) s) eqn:Es.
    - apply Suit_eqb_true in Es. subst s.
      rewrite map_app. cbn [map]. rewrite Hrc. f_equal. apply Hbuilt.
    - rewrite app_nil_r. apply Hbuilt. }
  unfold GameEngine.makeMove. fold (pushed g).
  change (GameEngine.executeMove (h, pushed g) m)
    with (GameEngine.moveToFoundation (h, pushed g) m).
  destruct (GameEngine.moveToFoundation (h, pushed g) m)
    as [[res | ] [h' g']]; cbn [fst snd GameEngine.successOf] in *;
    [ | discriminate Hsucc].
  injection Hsucc as Hs. rewrite Hs. cbn [snd].
  split; [apply Hnext; exact Hf | exact Hm].
Qed.

Lemma suitBySuit_length : List.length suitBySuit = 52%nat.
Proof. reflexivity. Qed.

Lemma suitBySuit_firstn : firstn 52 suitBySuit = suitBySuit.
Proof. reflexivity. Qed.

Lemma suitBySuit_nth (k : nat) :
  nth k suitBySuit (mkMove MFoundation (id noCard) None None None)
  = mkMove MFoundation (id (nth k createDeck noCard)) None None None.
Proof.
  unfold suitBySuit.
  exact (map_nth (fun c => mkMove MFoundation (id c) None None None)
           createDeck noCard k).
Qed.

Lemma playAll_app (w : World) (ms ms' : list Move) :
  playAll w (ms ++ ms') = playAll (playAll w ms) ms'.
Proof. unfold playAll. apply fold_left_app. Qed.

(** After the first [k] moves of [suitBySuit] on a fresh deal, whatever
    the shuffle, the first [k] cards of [createDeck] are on their
    foundations and [k] moves have been counted. *)
Lemma suitBySuit_prefix (rnd : nat -> nat) (k : nat) :
  (k <= 52)%nat ->
  playedFrom (createInitialGameState rnd)
    (playAll (createInitialGameState rnd) (firstn k suitBySuit)) /\
  builtUp (fst (createInitialGameState rnd)) k
    (snd (playAll (createInitialGameState rnd) (firstn k suitBySuit))) /\
  moves (snd (playAll (createInitialGameState rnd) (firstn k suitBySuit)))
  = Z.of_nat k.
Proof.
  induction k as [ | k IH]; intro Hk.
  - cbn [firstn playAll fold_left]. split; [apply from_start | ]. split.
    + intro s.
      assert (foundations (snd (createInitialGameState rnd))
              = emptyFoundations) as Hf by evaluate_deal rnd.
      rewrite Hf. destruct s; reflexivity.
    + evaluate_deal rnd.
  - destruct (IH ltac:(lia)) as (Hplayed & Hbuilt & Hmoves).
    rewrite (firstn_S_nth suitBySuit k
               (mkMove MFoundation (id noCard) None None None))
      by (rewrite suitBySuit_length; lia).
    rewrite playAll_app, suitBySuit_nth.
    cbn [playAll fold_left].
    remember (playAll (createInitialGameState rnd) (firstn k suitBySuit))
      as w eqn:Ew.
    clear Ew IH.
    destruct (suitBySuit_step (fst (createInitialGameState rnd))
                (seq 52 52) w k ltac:(lia)
                (deal_has_every_card rnd k ltac:(lia))
                (playedFrom_conserved _ _ _
                   (createInitialGameState_conserved rnd) Hplayed)
                (fun r => playedFrom_sameOrTurned _ _ r Hplayed)
                Hbuilt) as [Hb Hm].
    split; [apply from_makeMove; exact Hplayed | ].
    split; [exact Hb | ]. rewrite Hm, Hmoves. lia.
Qed.

Lemma checkWinCondition_of_lengths (g : GameState) :
  (forall s : Suit,
     List.length (foundationOf (foundations g) s) = 13%nat) ->
  GameEngine.checkWinCondition g = true.
Proof.
  intro Hlen.
  pose proof (Hlen Spades) as H1. pose proof (Hlen Hearts) as H2.
  pose proof (Hlen Diamonds) as H3. pose proof (Hlen Clubs) as H4.
  cbn [foundationOf] in H1, H2, H3, H4.
  unfold GameEngine.checkWinCondition, foundationValues. cbn [forallb].
  rewrite H1, H2, H3, H4. reflexivity.
Qed.

Lemma dealtOfSuit_all (s : Suit) : List.length (dealtOfSuit 52 s) = 13%nat.
Proof. destruct s; reflexivity. Qed.

(** X17: every deal of [createInitialGameState] can be won in 52 moves,
    whatever the shuffle: the foundation moves of the 52 cards in the
    order of [createDeck] (each suit from ace to king) all succeed,
    wherever the cards lie and whichever way they face, and after them
    [checkWinCondition] holds with 52 moves counted. *)
Theorem every_deal_can_be_won (rnd : nat -> nat) :
  GameEngine.checkWinCondition
    (snd (playAll (createInitialGameState rnd) suitBySuit)) = true /\
  moves (snd (playAll (createInitialGameState rnd) suitBySuit)) = 52.
Proof.
  destruct (suitBySuit_prefix rnd 52 (Nat.le_refl 52)) as (_ & Hbuilt & Hm).
  rewrite suitBySuit_firstn in Hbuilt, Hm.
  split; [ | exact Hm].
  apply checkWinCondition_of_lengths. intro s.
  rewrite <- (length_map (fun r => setFaceUp false
                                     (fst (createInitialGameState rnd) r))).
  rewrite (Hbuilt s). apply dealtOfSuit_all.
Qed.

(** ** The enumerator is complete for the column tops *)

Lemma indexed_nth_from {A : Type} (l : list A) (s i : nat) (x : A) :
  nth_error l i = Some x -> In ((s + i)%nat, x) (combine (seq s (List.length l)) l).
Proof.
  revert s i. induction l as [ | y t IH]; intros s i H;
    [destruct i; discriminate H | ].
  destruct i as [ | i].
  - injection H as ->. left. rewrite Nat.add_0_r. reflexivity.
  - right. replace (s + S i)%nat with (S s + i)%nat by lia.
    apply IH. exact H.
Qed.

Lemma indexed_nth {A : Type} (l : list A) (i : nat) (x : A) :
  nth_error l i = Some x -> In (i, x) (indexed l).
Proof. intro H. exact (indexed_nth_from l O i x H). Qed.

Lemma canMoveToTableau_own_pile (h : Heap) (pile : list ref) (topCard : ref) :
  lastOpt pile = Some topCard ->
  GameEngine.canMoveToTableau h topCard pile = false.
Proof.
  intro Htop. unfold GameEngine.canMoveToTableau. rewrite Htop.
  destruct (negb (faceUp (h topCard))); [reflexivity | ].
  cbv zeta. replace (value (h topCard) =? value (h topCard) - 1) with false
    by (symmetry; apply Z.eqb_neq; lia).
  reflexivity.
Qed.

(** X18: in a world reached from a fresh deal, every valid move of the
    top card of a column is one [getAllPossibleMoves] lists: if
    [isValidMove] answers [true] to a move that names the top card of
    column [i], the move is a foundation move or a tableau move, and the
    enumeration has the move of that type for that card from column [i]
    (to the same target column, for a tableau move). *)
Theorem valid_top_moves_are_enumerated (w : World) (i : nat)
  (pile : list ref) (topCard : ref) (m : Move) :
  reachable w ->
  nth_error (tableau (snd w)) i = Some pile ->
  lastOpt pile = Some topCard ->
  cardId m = id (fst w topCard) ->
  fst (GameEngine.isValidMove w m) = Normal true ->
  (type m = MFoundation /\
   In (mkMove MFoundation (cardId m) (Some LTableau) (Some (Z.of_nat i)) None)
     (GameEngine.getAllPossibleMoves w))
  \/
  (type m = MTableau /\
   exists ti : nat,
     targetIndex m = Some (Z.of_nat ti) /\
     In (mkMove MTableau (cardId m) (Some LTableau) (Some (Z.of_nat i))
           (Some (Z.of_nat ti)))
       (GameEngine.getAllPossibleMoves w)).
Proof.
  intros Hw Hi Htop Hid Hvalid.
  pose proof (reachable_idsIdentifyCards w Hw) as Hids.
  destruct (reachable_tidy w Hw) as (Htops & Hwaste & _).
  destruct w as [h g]. cbn [fst snd] in *.
  pose proof (indexed_nth _ _ _ Hi) as Hip.
  pose proof (findCard_top h g i pile topCard Hids Hip Htop) as Hfind.
  assert (faceUp (h topCard) = true) as Hup.
  { unfold topsFaceUp in Htops. cbn [fst snd] in Htops.
    pose proof (proj1 (Forall_forall _ _) Htops pile (nth_error_In _ _ Hi))
      as H.
    unfold topFaceUp in H. rewrite Htop in H. exact H. }
  unfold GameEngine.isValidMove in Hvalid.
  destruct (type m) eqn:Hty; cbn [fst] in Hvalid; try discriminate Hvalid.
  - (* to the foundation *)
    left. split; [reflexivity | ].
    assert (GameEngine.nextOnFoundation h g topCard = true) as Hnext.
    { unfold GameEngine.moveToFoundation in Hvalid.
      rewrite Hid, Hfind in Hvalid. unfold GameEngine.nextOnFoundation.
      destruct (lastOpt (foundationOf (foundations g) (suit (h topCard))))
        as [top | ].
      - destruct (value (h topCard) =? value (h top) + 1);
          [reflexivity | discriminate Hvalid].
      - destruct (Rank_eqb (rank (h topCard)) RA);
          [reflexivity | discriminate Hvalid]. }
    unfold GameEngine.getAllPossibleMoves. apply in_or_app. left.
    apply in_flat_map. exists (i, pile). split; [exact Hip | ].
    rewrite Htop, Hup, Hnext, Hid. left. reflexivity.
  - (* to a column *)
    right. split; [reflexivity | ].
    unfold GameEngine.moveToTableau in Hvalid.
    rewrite Hid, Hfind in Hvalid.
    destruct (targetIndex m) as [tz | ] eqn:Hti; [ | discriminate Hvalid].
    destruct (at_ (tableau g) tz) as [targetPile | ] eqn:Hat;
      [ | discriminate Hvalid].
    destruct (GameEngine.canMoveToTableau h topCard targetPile) eqn:Hcan;
      [ | discriminate Hvalid].
    assert (0 <= tz) as Hpos.
    { unfold at_ in Hat. destruct (Z.ltb_spec tz 0); [discriminate Hat | lia]. }
    exists (Z.to_nat tz). rewrite Z2Nat.id by exact Hpos.
    split; [reflexivity | ].
    assert (nth_error (tableau g) (Z.to_nat tz) = Some targetPile) as Hnth.
    { unfold at_ in Hat. destruct (tz <? 0); [discriminate Hat | exact Hat]. }
    assert ((i =? Z.to_nat tz)%nat = false) as Hne.
    { apply Nat.eqb_neq. intros ->. rewrite Hi in Hnth. injection Hnth as <-.
      rewrite (canMoveToTableau_own_pile h pile topCard Htop) in Hcan.
      discriminate Hcan. }
    unfold GameEngine.getAllPossibleMoves. apply in_or_app. right.
    apply in_or_app. left.
    apply in_flat_map. exists (i, pile). split; [exact Hip | ].
    rewrite Htop, Hup.
    apply in_flat_map. exists (Z.to_nat tz, targetPile).
    split; [exact (indexed_nth _ _ _ Hnth) | ].
    rewrite Hne, Hcan, Hid, Z2Nat.id by exact Hpos. left. reflexivity.
  - (* from the waste: it is empty *)
    unfold GameEngine.moveWasteToTableau in Hvalid. rewrite Hwaste in Hvalid.
    discriminate Hvalid.
Qed.

Lemma valid_top_moves_are_enumerated_witness :
  (type aceOfHearts = MFoundation /\
   In (mkMove MFoundation (cardId aceOfHearts) (Some LTableau)
         (Some (Z.of_nat 2)) None)
     (GameEngine.getAllPossibleMoves freshDeal))
  \/
  (type aceOfHearts = MTableau /\
   exists ti : nat,
     targetIndex aceOfHearts = Some (Z.of_nat ti) /\
     In (mkMove MTableau (cardId aceOfHearts) (Some LTableau)
           (Some (Z.of_nat 2)) (Some (Z.of_nat ti)))
       (GameEngine.getAllPossibleMoves freshDeal)).
Proof.
  apply (valid_top_moves_are_enumerated freshDeal 2%nat
           [54; 60; 65]%nat 65%nat aceOfHearts).
  - apply reach_createInitialGameState.
  - vm_compute. reflexivity.
  - reflexivity.
  - vm_compute. reflexivity.
  - vm_compute. reflexivity.
Defined.

(** ** The fields the engine never writes *)

Lemma sameRest_refl (g : GameState) : sameRest g g.
Proof. unfold sameRest. tauto. Qed.

Lemma sameRest_trans (g1 g2 g3 : GameState) :
  sameRest g1 g2 -> sameRest g2 g3 -> sameRest g1 g3.
Proof.
  unfold sameRest. intros (A1 & A2 & A3 & A4 & A5 & A6)
    (B1 & B2 & B3 & B4 & B5 & B6).
  repeat split; congruence.
Qed.

Ltac rest_fields :=
  unfold sameRest in *;
  cbn [fst snd GameEngine.revealHiddenCards selectedCard time isWon gameStats
       drawMode settings set_score set_moves set_foundations set_tableau
       set_waste set_stock] in *.

Lemma removeCardFromSource_sameRest (h : Heap) (g : GameState) (c : ref) :
  sameRest g (GameEngine.removeCardFromSource h g c).
Proof.
  unfold GameEngine.removeCardFromSource.
  destruct (findIndex _ (stock g)); [rest_fields; tauto | ].
  destruct (findIndex _ (waste g)); [rest_fields; tauto | ].
  destruct (GameEngine.removeFromFirst _ (tableau g)); [rest_fields; tauto | ].
  destruct (GameEngine.removeFromFirst _ (foundationValues (foundations g)));
    rest_fields; tauto.
Qed.

Lemma removeAll_sameRest (h : Heap) (cards : list ref) :
  forall g : GameState,
    sameRest g
      (fold_left (fun g' c => GameEngine.removeCardFromSource h g' c) cards g).
Proof.
  induction cards as [ | c rest IH]; intro g; [apply sameRest_refl | ].
  cbn [fold_left]. eapply sameRest_trans; [ | apply IH].
  apply removeCardFromSource_sameRest.
Qed.

Lemma executeMove_sameRest (w : World) (m : Move) :
  sameRest (snd w) (snd (snd (GameEngine.executeMove w m))).
Proof.
  destruct w as [h g]. cbn [snd]. unfold GameEngine.executeMove.
  destruct (type m); try apply sameRest_refl.
  - unfold GameEngine.moveToFoundation.
    destruct (GameEngine.findCard h g (cardId m)) as [card | ];
      [ | apply sameRest_refl].
    pose proof (removeCardFromSource_sameRest h g card) as H.
    destruct (lastOpt _);
      [destruct (negb (value (h card) =? _))
      | destruct (negb (Rank_eqb _ _))];
      try apply sameRest_refl; rest_fields; exact H.
  - unfold GameEngine.moveToTableau.
    destruct (GameEngine.findCard h g (cardId m)) as [card | ];
      [ | apply sameRest_refl].
    destruct (targetIndex m) as [ti | ]; [ | apply sameRest_refl].
    destruct (at_ (tableau g) ti) as [targetPile | ]; [ | apply sameRest_refl].
    destruct (negb _); [apply sameRest_refl | ].
    pose proof (removeAll_sameRest h (GameEngine.getCardsToMove h g card) g)
      as H.
    rest_fields. exact H.
  - unfold GameEngine.moveWasteToTableau.
    destruct (lastOpt (waste g)) as [card | ]; [ | apply sameRest_refl].
    destruct (targetIndex m) as [ti | ]; [ | apply sameRest_refl].
    destruct (at_ (tableau g) ti) as [targetPile | ]; [ | apply sameRest_refl].
    destruct (negb _); [apply sameRest_refl | rest_fields; tauto].
Qed.

Lemma makeMove_unflagged (w : World) (m : Move) :
  unflagged (snd w) -> unflagged (snd (snd (GameEngine.makeMove w m))).
Proof.
  destruct w as [h g]. cbn [snd]. intros (Hw & Ht & Hs & Hh).
  assert (unflagged (snd (snd (GameEngine.executeMove (h, pushed g) m))))
    as H0.
  { destruct (executeMove_sameRest (h, pushed g) m)
      as (_ & E2 & E3 & E4 & _).
    cbn [snd pushed isWon time gameStats set_gameHistory] in E2, E3, E4.
    unfold unflagged. rewrite E2, E3, E4, executeMove_history.
    split; [exact Hw | ]. split; [exact Ht | ]. split; [exact Hs | ].
    cbn [snd pushed gameHistory set_gameHistory]. apply Forall_app.
    split; [exact Hh | ]. constructor; [exact Hs | constructor]. }
  unfold GameEngine.makeMove. fold (pushed g).
  destruct (GameEngine.executeMove (h, pushed g) m) as [[res | ] [h' g']];
    [ | exact H0].
  destruct (success res); exact H0.
Qed.

Lemma undo_unflagged (w : World) :
  unflagged (snd w) -> unflagged (newState (fst (GameEngine.undo w))).
Proof.
  destruct w as [h g]. cbn [snd]. intros (Hw & Ht & Hs & Hh).
  unfold GameEngine.undo.
  destruct (lastOpt (gameHistory g)) as [previousState | ] eqn:Hlast.
  - cbn [fst newState succeeded]. apply lastOpt_In in Hlast.
    pose proof (proj1 (Forall_forall _ _) Hh previousState Hlast) as Hprev.
    split; [exact Hw | ]. split; [exact Ht | ]. split; [exact Hprev | ].
    cbn [gameHistory]. apply Forall_removelast. exact Hh.
  - cbn [fst newState failure]. split; [exact Hw | ].
    split; [exact Ht | ]. split; [exact Hs | exact Hh].
Qed.

(** X19: the engine never raises the win flag, starts no clock and keeps
    no statistics: in every world reached from a fresh deal of either
    dealer by moves and undos, [isWon] is [false], [time] is 0 and
    [gameStats] is all zero, however many moves [moves] has counted and
    even when [checkWinCondition] holds. *)
Theorem reachable_never_flagged (w : World) :
  reachable w ->
  isWon (snd w) = false /\ time (snd w) = 0 /\
  gameStats (snd w) = mkStats 0 0 0.
Proof.
  intro Hw. assert (unflagged (snd w)) as (H1 & H2 & H3 & _);
    [ | split; [exact H1 | split; [exact H2 | exact H3]]].
  induction Hw as [rnd | rnd w Hw | w m _ IH | w _ IH].
  - unfold unflagged. repeat split; try evaluate_deal rnd.
    rewrite createInitialGameState_history. constructor.
  - destruct (initializeGame_spec rnd) as (deck & h' & _ & _ & _ & Hinit & _).
    rewrite Hinit in Hw. injection Hw as <-.
    unfold unflagged. cbn. repeat split; constructor.
  - apply makeMove_unflagged. exact IH.
  - cbn [snd]. apply undo_unflagged. exact IH.
Qed.

Lemma reachable_never_flagged_witness :
  GameEngine.checkWinCondition (snd wonGame) = true /\
  moves (snd wonGame) = 52 /\
  (isWon (snd wonGame) = false /\ time (snd wonGame) = 0 /\
   gameStats (snd wonGame) = mkStats 0 0 0).
Proof.
  split; [vm_compute; reflexivity | ]. split; [vm_compute; reflexivity | ].
  apply (reachable_never_flagged wonGame).
  apply playAll_reachable. apply reach_createInitialGameState.
Defined.

(** ** Card counts and the win *)

Lemma foundationCards_concat (g : GameState) :
  GameEngine.foundationCards g
  = List.length (List.concat (foundationValues (foundations g))).
Proof.
  unfold GameEngine.foundationCards, foundationValues.
  cbn [fold_left List.concat]. rewrite !length_app. simpl. lia.
Qed.

(** Along a game of [createInitialGameState] the four kinds of piles hold
    52 cards between them. *)
Lemma playedFrom_count (rnd : nat -> nat) (w : World) :
  playedFrom (createInitialGameState rnd) w ->
  (List.length (stock (snd w)) + List.length (waste (snd w))
   + List.length (List.concat (tableau (snd w)))
   + GameEngine.foundationCards (snd w) = 52)%nat.
Proof.
  intro Hw.
  destruct (playedFrom_conserved _ _ _
              (createInitialGameState_conserved rnd) Hw) as (Hp & _).
  apply Permutation_length in Hp. rewrite length_seq in Hp.
  unfold GameEngine.allCards in Hp. rewrite !length_app in Hp.
  rewrite foundationCards_concat. lia.
Qed.

Lemma checkWinCondition_count (g : GameState) :
  GameEngine.checkWinCondition g = true ->
  GameEngine.foundationCards g = 52%nat.
Proof.
  unfold GameEngine.checkWinCondition, GameEngine.foundationCards,
    foundationValues.
  cbn [forallb fold_left]. rewrite !andb_true_iff, !Nat.eqb_eq.
  intros (-> & -> & -> & -> & _). reflexivity.
Qed.

Lemma concat_nil_Forall {A : Type} (l : list (list A)) :
  List.length (List.concat l) = 0%nat -> Forall (fun pile => pile = []) l.
Proof.
  induction l as [ | x t IH]; [constructor | ].
  cbn [List.concat]. rewrite length_app. intro H.
  constructor; [destruct x; [reflexivity | simpl in H; lia] | apply IH; lia].
Qed.

(** X20: in a game played from a deal of [createInitialGameState], once
    [checkWinCondition] holds the board is cleared: the stock and the
    waste are empty and so is every tableau column. *)
Theorem win_clears_the_board (rnd : nat -> nat) (w : World) :
  playedFrom (createInitialGameState rnd) w ->
  GameEngine.checkWinCondition (snd w) = true ->
  stock (snd w) = [] /\ waste (snd w) = [] /\
  Forall (fun pile => pile = []) (tableau (snd w)).
Proof.
  intros Hw Hwin. apply playedFrom_count in Hw.
  apply checkWinCondition_count in Hwin. rewrite Hwin in Hw.
  split; [destruct (stock (snd w)); [reflexivity | simpl in Hw; lia] | ].
  split; [destruct (waste (snd w)); [reflexivity | simpl in Hw; lia] | ].
  apply concat_nil_Forall. lia.
Qed.

Lemma win_clears_the_board_witness :
  stock (snd wonGame) = [] /\ waste (snd wonGame) = [] /\
  Forall (fun pile => pile = []) (tableau (snd wonGame)).
Proof.
  apply (win_clears_the_board identityShuffle wonGame).
  - apply playAll_playedFrom. apply from_start.
  - vm_compute. reflexivity.
Defined.

(** X21: in a game played from a deal of [createInitialGameState],
    [calculateWinProbability] is a fraction between 0 and 1, and it is 1
    exactly when every card is on a foundation: stock, waste and columns
    are empty. *)
Theorem calculateWinProbability_range (rnd : nat -> nat) (w : World) :
  playedFrom (createInitialGameState rnd) w ->
  let p := GameEngine.calculateWinProbability (snd w) in
  QArith_base.Qle (QArith_base.Qmake 0 1) p /\
  QArith_base.Qle p (QArith_base.Qmake 1 1) /\
  (QArith_base.Qeq p (QArith_base.Qmake 1 1) <->
   stock (snd w) = [] /\ waste (snd w) = [] /\
   Forall (fun pile => pile = []) (tableau (snd w))).
Proof.
  intros Hw p. apply playedFrom_count in Hw.
  unfold p, GameEngine.calculateWinProbability, QArith_base.Qle,
    QArith_base.Qeq.
  cbn [QArith_base.Qnum QArith_base.Qden].
  split; [lia | ]. split; [lia | ]. split.
  - intro Hp.
    assert (GameEngine.foundationCards (snd w) = 52%nat) as E by lia.
    rewrite E in Hw.
    split; [destruct (stock (snd w)); [reflexivity | simpl in Hw; lia] | ].
    split; [destruct (waste (snd w)); [reflexivity | simpl in Hw; lia] | ].
    apply concat_nil_Forall. lia.
  - intros (Hs & Hwa & Ht). rewrite Hs, Hwa in Hw.
    assert (List.concat (tableau (snd w)) = []) as Hc.
    { clear Hw. induction Ht as [ | pile rest -> _ IH]; [reflexivity | ].
      exact IH. }
    rewrite Hc in Hw. simpl in Hw. lia.
Qed.

Lemma calculateWinProbability_range_witness :
  let p := GameEngine.calculateWinProbability (snd wonGame) in
  QArith_base.Qle (QArith_base.Qmake 0 1) p /\
  QArith_base.Qle p (QArith_base.Qmake 1 1) /\
  (QArith_base.Qeq p (QArith_base.Qmake 1 1) <->
   stock (snd wonGame) = [] /\ waste (snd wonGame) = [] /\
   Forall (fun pile => pile = []) (tableau (snd wonGame))).
Proof.
  apply (calculateWinProbability_range identityShuffle wonGame).
  apply playAll_playedFrom. apply from_start.
Defined.

(** ** A won game has no moves left *)

Lemma no_column_moves {B : Type} (t : list (list ref))
  (f : nat -> list ref -> ref -> list B) :
  Forall (fun pile => pile = []) t ->
  flat_map (fun '(i, pile) =>
              match lastOpt pile with
              | Some topCard => f i pile topCard
              | None => []
              end) (indexed t) = [].
Proof.
  intro Ht. unfold indexed. generalize O as s.
  induction Ht as [ | pile rest -> _ IH]; intro s; [reflexivity | ].
  cbn [List.length seq combine flat_map lastOpt app]. apply IH.
Qed.

(** X22: in a game played from a deal of [createInitialGameState], once
    [checkWinCondition] holds nothing is left to play:
    [getAllPossibleMoves] returns no move and the hint engine has no best
    move. *)
Theorem won_game_has_no_moves (rnd : nat -> nat) (w : World) :
  playedFrom (createInitialGameState rnd) w ->
  GameEngine.checkWinCondition (snd w) = true ->
  GameEngine.getAllPossibleMoves w = [] /\ MLEngine.getBestMove w = None.
Proof.
  intros Hw Hwin. apply playedFrom_count in Hw.
  apply checkWinCondition_count in Hwin. rewrite Hwin in Hw.
  assert (stock (snd w) = []) as Hs
    by (destruct (stock (snd w)); [reflexivity | simpl in Hw; lia]).
  assert (waste (snd w) = []) as Hwa
    by (destruct (waste (snd w)); [reflexivity | simpl in Hw; lia]).
  assert (Forall (fun pile => pile = []) (tableau (snd w))) as Ht
    by (apply concat_nil_Forall; lia).
  destruct w as [h g]. cbn [snd] in *. split.
  - unfold GameEngine.getAllPossibleMoves. rewrite Hwa. cbn [lastOpt].
    rewrite (no_column_moves (tableau g)
               (fun index pile topCard =>
                  if faceUp (h topCard)
                     && GameEngine.nextOnFoundation h g topCard
                  then [mkMove MFoundation (id (h topCard)) (Some LTableau)
                          (Some (Z.of_nat index)) None]
                  else []) Ht).
    rewrite (no_column_moves (tableau g)
               (fun sourceIndex sourcePile topCard =>
                  if faceUp (h topCard)
                  then
                    flat_map
                      (fun '(targetIndex, targetPile) =>
                         if negb (sourceIndex =? targetIndex)%nat
                            && GameEngine.canMoveToTableau h topCard
                                 targetPile
                         then [mkMove MTableau (id (h topCard))
                                 (Some LTableau)
                                 (Some (Z.of_nat sourceIndex))
                                 (Some (Z.of_nat targetIndex))]
                         else [])
                      (indexed (tableau g))
                  else []) Ht).
    reflexivity.
  - unfold MLEngine.getBestMove, MLEngine.generatePossibleMoves.
    rewrite Hs, Hwa. cbn [lastOpt app].
    rewrite (no_column_moves (tableau g)
               (fun colIndex column topCard =>
                  flat_map
                    (fun '(targetIndex, targetColumn) =>
                       if negb (colIndex =? targetIndex)%nat
                          && MLEngine.isValidTableauMove h topCard
                               targetColumn
                       then [MLEngine.hint MTableau h topCard LTableau
                               LTableau (Z.of_nat colIndex)
                               (Z.of_nat targetIndex)]
                       else [])
                    (indexed (tableau g))
                  ++ (if MLEngine.isValidFoundationMove h topCard
                           (foundations g)
                      then [MLEngine.hint MTableau h topCard LTableau
                              LFoundation (Z.of_nat colIndex)
                              (suitIndex (suit (h topCard)))]
                      else [])) Ht).
    reflexivity.
Qed.

Lemma won_game_has_no_moves_witness :
  GameEngine.getAllPossibleMoves wonGame = [] /\
  MLEngine.getBestMove wonGame = None.
Proof.
  apply (won_game_has_no_moves identityShuffle wonGame).
  - apply playAll_playedFrom. apply from_start.
  - vm_compute. reflexivity.
Defined.

(** ** The waste is never played from *)

(** X23: in every world reached from a fresh deal of either dealer no
    move from the waste exists: [makeMove] refuses every
    ['waste-to-tableau'] move with the error for a missing waste card,
    and [getAllPossibleMoves] lists no move of that type. *)
Theorem waste_moves_never_succeed (w : World) :
  reachable w ->
  (forall m : Move,
     type m = MWasteToTableau ->
     GameEngine.makeMove w m
     = (Normal (failure (pushed (snd w)) "No waste card or invalid target"),
        (fst w, pushed (snd w)))) /\
  (forall m : Move,
     In m (GameEngine.getAllPossibleMoves w) -> type m <> MWasteToTableau).
Proof.
  intro Hw. destruct (reachable_tidy w Hw) as (_ & Hwaste & _).
  destruct w as [h g]. cbn [fst snd] in *. split.
  - intros m Hty. unfold GameEngine.makeMove. fold (pushed g).
    unfold GameEngine.executeMove. rewrite Hty.
    unfold GameEngine.moveWasteToTableau.
    change (waste (pushed g)) with (waste g). rewrite Hwaste. reflexivity.
  - intros m Hin. unfold GameEngine.getAllPossibleMoves in Hin.
    rewrite Hwaste in Hin. cbn [lastOpt] in Hin. rewrite app_nil_r in Hin.
    apply in_app_or in Hin. destruct Hin as [Hin | Hin];
      apply in_flat_map in Hin; destruct Hin as ([i pile] & _ & Hin);
      destruct (lastOpt pile) as [topCard | ]; try contradiction.
    + destruct (faceUp (h topCard) && GameEngine.nextOnFoundation h g topCard);
        [ | contradiction].
      destruct Hin as [<- | []]. discriminate.
    + destruct (faceUp (h topCard)); [ | contradiction].
      apply in_flat_map in Hin. destruct Hin as ([ti targetPile] & _ & Hin).
      destruct (negb (i =? ti)%nat
                && GameEngine.canMoveToTableau h topCard targetPile);
        [ | contradiction].
      destruct Hin as [<- | []]. discriminate.
Qed.

Lemma waste_moves_never_succeed_witness :
  (forall m : Move,
     type m = MWasteToTableau ->
     GameEngine.makeMove freshDeal m
     = (Normal (failure (pushed (snd freshDeal))
                  "No waste card or invalid target"),
        (fst freshDeal, pushed (snd freshDeal)))) /\
  (forall m : Move,
     In m (GameEngine.getAllPossibleMoves freshDeal) ->
     type m <> MWasteToTableau).
Proof.
  apply (waste_moves_never_succeed freshDeal).
  apply reach_createInitialGameState.
Defined.

(** ** The hint engine against the rules engine *)

(** X24: on a card whose [value] is the value of its rank, the hint
    engine's [isValidTableauMove] answers as the rules engine's
    [canMoveToTableau] for every column; and when the top of the card's
    foundation has the card's suit, its [isValidFoundationMove] answers
    as the test [getAllPossibleMoves] makes. *)
Theorem hint_rules_agree (h : Heap) (g : GameState) (card : ref)
  (pile : list ref) :
  value (h card) = rankValue (rank (h card)) ->
  (forall top,
     lastOpt (foundationOf (foundations g) (suit (h card))) = Some top ->
     suit (h top) = suit (h card)) ->
  MLEngine.isValidTableauMove h card pile
    = GameEngine.canMoveToTableau h card pile /\
  MLEngine.isValidFoundationMove h card (foundations g)
    = GameEngine.nextOnFoundation h g card.
Proof.
  intros Hv Hsuit. split.
  - unfold MLEngine.isValidTableauMove, GameEngine.canMoveToTableau.
    destruct (lastOpt pile) as [topCard | ].
    + destruct (negb (faceUp (h topCard))); [reflexivity | ].
      cbv zeta. apply andb_comm.
    + rewrite Hv. destruct (rank (h card)); reflexivity.
  - unfold MLEngine.isValidFoundationMove, GameEngine.nextOnFoundation.
    destruct (lastOpt (foundationOf (foundations g) (suit (h card))))
      as [top | ].
    + rewrite (Hsuit top eq_refl).
      destruct (suit (h card)); reflexivity.
    + rewrite Hv. destruct (rank (h card)); reflexivity.
Qed.

Lemma hint_rules_agree_witness :
  MLEngine.isValidTableauMove (fst (snd afterMove)) 66%nat [59%nat]
    = GameEngine.canMoveToTableau (fst (snd afterMove)) 66%nat [59%nat] /\
  MLEngine.isValidFoundationMove (fst (snd afterMove)) 66%nat
      (foundations (snd (snd afterMove)))
    = GameEngine.nextOnFoundation (fst (snd afterMove)) (snd (snd afterMove))
        66%nat.
Proof.
  apply (hint_rules_agree (fst (snd afterMove)) (snd (snd afterMove))
           66%nat [59%nat]).
  - vm_compute. reflexivity.
  - intros top H. vm_compute in H. injection H as <-. vm_compute. reflexivity.
Defined.

Lemma hints_shape (w : World) (x : MLEngine.HintMove) :
  In x (MLEngine.generatePossibleMoves w) ->
  targetIndex (MLEngine.move x) = None /\
  (type (MLEngine.move x) = MStock \/ type (MLEngine.move x) = MWaste \/
   type (MLEngine.move x) = MTableau).
Proof.
  destruct w as [h g]. unfold MLEngine.generatePossibleMoves.
  intro Hin. apply in_app_or in Hin. destruct Hin as [Hin | Hin].
  - destruct (stock g) as [ | first rest]; [contradiction | ].
    destruct Hin as [<- | []]. split; [reflexivity | left; reflexivity].
  - apply in_app_or in Hin. destruct Hin as [Hin | Hin].
    + destruct (lastOpt (waste g)) as [topWasteCard | ]; [ | contradiction].
      apply in_app_or in Hin. destruct Hin as [Hin | Hin].
      * apply in_flat_map in Hin. destruct Hin as ([colIndex column] & _ & Hin).
        destruct (MLEngine.isValidTableauMove h topWasteCard column);
          [ | contradiction].
        destruct Hin as [<- | []].
        split; [reflexivity | right; left; reflexivity].
      * destruct (MLEngine.isValidFoundationMove h topWasteCard
                    (foundations g)); [ | contradiction].
        destruct Hin as [<- | []].
        split; [reflexivity | right; left; reflexivity].
    + apply in_flat_map in Hin. destruct Hin as ([colIndex column] & _ & Hin).
      destruct (lastOpt column) as [topCard | ]; [ | contradiction].
      apply in_app_or in Hin. destruct Hin as [Hin | Hin].
      * apply in_flat_map in Hin.
        destruct Hin as ([targetIndex targetColumn] & _ & Hin).
        destruct (negb (colIndex =? targetIndex)%nat
                  && MLEngine.isValidTableauMove h topCard targetColumn);
          [ | contradiction].
        destruct Hin as [<- | []].
        split; [reflexivity | right; right; reflexivity].
      * destruct (MLEngine.isValidFoundationMove h topCard (foundations g));
          [ | contradiction].
        destruct Hin as [<- | []].
        split; [reflexivity | right; right; reflexivity].
Qed.

(** X25: no move the hint engine generates is playable by the rules
    engine.  The hints have the types ['stock'], ['waste'] and ['tableau']
    and no [targetIndex]: [isValidMove] answers [false] to each of them
    and leaves the world alone, and [makeMove] returns an error, having
    pushed its snapshot. *)
Theorem hints_are_refused (w : World) (x : MLEngine.HintMove) :
  In x (MLEngine.generatePossibleMoves w) ->
  GameEngine.isValidMove w (MLEngine.move x) = (Normal false, w) /\
  exists msg : string,
    GameEngine.makeMove w (MLEngine.move x)
    = (Normal (failure (pushed (snd w)) msg), (fst w, pushed (snd w))).
Proof.
  intro Hin. apply hints_shape in Hin. destruct Hin as [Hti Hty].
  assert (forall w0 : World, exists msg : string,
            GameEngine.executeMove w0 (MLEngine.move x)
            = (Normal (failure (snd w0) msg), w0)) as Hex.
  { intros [h0 g0]. unfold GameEngine.executeMove, GameEngine.moveToTableau.
    destruct Hty as [-> | [-> | ->]]; try (eexists; reflexivity).
    rewrite Hti. destruct (GameEngine.findCard h0 g0 _); eexists; reflexivity. }
  split.
  - rewrite isValidMove_executes. destruct (Hex w) as [msg ->]. reflexivity.
  - destruct w as [h g]. unfold GameEngine.makeMove. fold (pushed g).
    destruct (Hex (h, pushed g)) as [msg ->]. exists msg. reflexivity.
Qed.

Lemma hints_are_refused_witness :
  GameEngine.isValidMove freshDeal (mkMove MStock "♦-3" None None None)
    = (Normal false, freshDeal) /\
  exists msg : string,
    GameEngine.makeMove freshDeal (mkMove MStock "♦-3" None None None)
    = (Normal (failure (pushed (snd freshDeal)) msg),
       (fst freshDeal, pushed (snd freshDeal))).
Proof.
  apply (hints_are_refused freshDeal
           (MLEngine.mkHint (mkMove MStock "♦-3" None None None)
              LStock LWaste 0 0)).
  vm_compute. left. reflexivity.
Defined.

(** ** Card numbers of the hint engine *)

(** X26: [getCardId] numbers the cards from 1 to 52 and tells them
    apart: cards with values between 1 and 13 that get the same number
    have the same suit and the same value. *)
Theorem getCardId_injective (c1 c2 : Card) :
  1 <= value c1 <= 13 -> 1 <= value c2 <= 13 ->
  1 <= MLEngine.getCardId c1 <= 52 /\
  (MLEngine.getCardId c1 = MLEngine.getCardId c2 ->
   suit c1 = suit c2 /\ value c1 = value c2).
Proof.
  unfold MLEngine.getCardId, suitIndex. intros H1 H2.
  destruct (suit c1), (suit c2); split; try lia;
    intro E; split; try reflexivity; lia.
Qed.

Lemma getCardId_injective_witness :
  1 <= MLEngine.getCardId (fst freshDeal 65%nat) <= 52 /\
  (MLEngine.getCardId (fst freshDeal 65%nat)
   = MLEngine.getCardId (fst freshDeal 59%nat) ->
   suit (fst freshDeal 65%nat) = suit (fst freshDeal 59%nat) /\
   value (fst freshDeal 65%nat) = value (fst freshDeal 59%nat)).
Proof.
  apply (getCardId_injective (fst freshDeal 65%nat) (fst freshDeal 59%nat)).
  - vm_compute. split; discriminate.
  - vm_compute. split; discriminate.
Defined.

(** ** The store *)





